(** * Pasted tabular text to CSV/TSV: [parse_text_to_rows] and [write_rows]

    A shallow embedding of [src/main.py].  The functions of the module
    are translated statement by statement; the Python built-ins and the
    [re], [csv] and [argparse] routines they call (CPython 3.11) are
    modelled next to them, each under the name it has in Python.

    Text.  A Python [str] is a sequence of code points.  Here a character is
    an [ascii], read as a code point in U+0000..U+00FF, and a [str] is a
    [list ascii].  The whitespace, line-boundary and word-character tables
    below are the Unicode ones cut down to that range.

    Exceptions.  A Python computation that may raise is a value of
    [result]: [Ok v] is a normal return, [Raise e] an exception.  The
    [try ... except Exception: pass] of the source is [try_except].

    Files and output.  [write_rows] is first the text it writes, as the
    bytes of the file; [main] runs in a [World] that says which files can
    be read and written, and its result is the list of what it did to the
    world together with the way it ended. *)

From Stdlib Require Import String Ascii List ZArith NArith Arith Bool Lia.
From Stdlib Require Import PrimFloat Uint63.
Import ListNotations.

Local Open Scope char_scope.
Local Open Scope list_scope.

(** ** Characters and text *)

Definition str := list ascii.

(** A string literal as a [str]. *)
Definition lit (s : string) : str := list_ascii_of_string s.

Definition TAB : ascii := "009".
Definition LF : ascii := "010".
Definition CR : ascii := "013".
Definition SPACE : ascii := " ".
Definition DQUOTE : ascii := "034".
Definition SQUOTE : ascii := "'".
Definition COMMA : ascii := ",".
Definition SEMICOLON : ascii := ";".
Definition PIPE : ascii := "|".

(** ** Exceptions *)

Inductive exn : Type :=
| CsvError (msg : string)
| TypeError (msg : string)
| ValueError (msg : string)
| IndexError (msg : string).

Inductive result (A : Type) : Type :=
| Ok (a : A)
| Raise (e : exn).

Arguments Ok {A} a.
Arguments Raise {A} e.

Definition bind {A B : Type} (m : result A) (k : A -> result B) : result B :=
  match m with
  | Ok a => k a
  | Raise e => Raise e
  end.

Notation "x <- m ;; k" := (bind m (fun x => k))
  (at level 61, m at next level, right associativity).
Notation "' pat <- m ;; k" := (bind m (fun x => match x with pat => k end))
  (at level 61, pat pattern, m at next level, right associativity).

(** [try: body / except Exception: pass], followed by [rest]: a normal
    return of [body] is the function's result, any exception is absorbed and
    control continues with [rest]. *)
Definition try_except {A : Type} (body : result A) (rest : result A) : result A :=
  match body with
  | Ok a => Ok a
  | Raise _ => rest
  end.

(** ** Python built-ins on [str] *)

Module Py.

(** [str.isspace] on one character, and the class [\s] of [re]:
    U+0009..U+000D, U+001C..U+0020, U+0085, U+00A0. *)
Definition isspace (c : ascii) : bool :=
  let n := N_of_ascii c in
  ((9 <=? n) && (n <=? 13) || (28 <=? n) && (n <=? 32)
   || (n =? 133) || (n =? 160))%N.

(** The line boundaries of [str.splitlines]:
    LF, VT, FF, CR, FS, GS, RS, NEL (CR LF counts as one). *)
Definition is_linebreak (c : ascii) : bool :=
  let n := N_of_ascii c in
  ((10 <=? n) && (n <=? 13) || (28 <=? n) && (n <=? 30) || (n =? 133))%N.

(** The class [\w] of [re] on [str] patterns: alphanumeric or underscore. *)
Definition isword (c : ascii) : bool :=
  let n := N_of_ascii c in
  ((48 <=? n) && (n <=? 57) || (65 <=? n) && (n <=? 90) || (n =? 95)
   || (97 <=? n) && (n <=? 122)
   || (n =? 170) || (n =? 178) || (n =? 179) || (n =? 181) || (n =? 185)
   || (n =? 186) || (188 <=? n) && (n <=? 190)
   || (192 <=? n) && (n <=? 214) || (216 <=? n) && (n <=? 246)
   || (248 <=? n))%N.

Fixpoint lstrip (s : str) : str :=
  match s with
  | [] => []
  | c :: s' => if isspace c then lstrip s' else s
  end.

Definition rstrip (s : str) : str := rev (lstrip (rev s)).

(** [s.strip()] *)
Definition strip (s : str) : str := rstrip (lstrip s).

(** [s.splitlines()] *)
Fixpoint splitlines (s : str) : list str :=
  match s with
  | [] => []
  | c :: s' =>
      if is_linebreak c then
        [] :: match s' with
              | c2 :: s'' =>
                  if Ascii.eqb c CR && Ascii.eqb c2 LF
                  then splitlines s'' else splitlines s'
              | [] => []
              end
      else
        match splitlines s' with
        | [] => [[c]]
        | l :: ls => (c :: l) :: ls
        end
  end.

(** [s.split(d)] for a one-character separator [d] *)
Fixpoint split (d : ascii) (s : str) : list str :=
  match s with
  | [] => [[]]
  | c :: s' =>
      if Ascii.eqb c d then [] :: split d s'
      else
        match split d s' with
        | [] => [[c]]
        | l :: ls => (c :: l) :: ls
        end
  end.

(** [sep.join(parts)] *)
Fixpoint join (sep : str) (parts : list str) : str :=
  match parts with
  | [] => []
  | x :: rest =>
      match rest with
      | [] => x
      | _ :: _ => x ++ sep ++ join sep rest
      end
  end.

(** [c in s] for a one-character [c] *)
Definition contains (c : ascii) (s : str) : bool := existsb (Ascii.eqb c) s.

(** [s.count(c)] for a one-character [c] *)
Fixpoint count (c : ascii) (s : str) : nat :=
  match s with
  | [] => 0
  | x :: s' => if Ascii.eqb x c then S (count c s') else count c s'
  end.

(** [s.startswith(p)] *)
Fixpoint startswith (p s : str) : bool :=
  match p, s with
  | [], _ => true
  | _ :: _, [] => false
  | a :: p', b :: s' => Ascii.eqb a b && startswith p' s'
  end.

(** [s.count(sub)] for a non-empty [sub]: occurrences that do not
    overlap, found from the left.  [skip] is the number of characters
    still covered by the occurrence found last. *)
Fixpoint count_sub_from (sub s : str) (skip : nat) : nat :=
  match s with
  | [] => 0
  | _ :: s' =>
      match skip with
      | S k => count_sub_from sub s' k
      | O =>
          if startswith sub s
          then S (count_sub_from sub s' (length sub - 1))
          else count_sub_from sub s' 0
      end
  end.

Definition count_sub (sub s : str) : nat := count_sub_from sub s 0.

(** A [dict] keeps its keys in insertion order. *)
Section Dict.
Context {K V : Type} (eqk : K -> K -> bool).

(** [d.get(k)] *)
Fixpoint get (k : K) (d : list (K * V)) : option V :=
  match d with
  | [] => None
  | (k', v) :: d' => if eqk k k' then Some v else get k d'
  end.

(** [d[k] = v] *)
Fixpoint set (k : K) (v : V) (d : list (K * V)) : list (K * V) :=
  match d with
  | [] => [(k, v)]
  | (k', v') :: d' =>
      if eqk k k' then (k', v) :: d' else (k', v') :: set k v d'
  end.
End Dict.

End Py.

(** ** The part of [re] the program uses

    A pattern is matched by backtracking.  [rmatch] lists every way of
    matching a pattern at a position, in the order in which the backtracking
    matcher of [re] tries them; the match [re] reports is the first one.
    A position is the character before it (for [^]) and the text after it.
    Repetition is needed over one-character classes only.

    None of the patterns of the program matches the empty string; the
    special treatment [re] gives to empty matches while scanning is
    therefore not modelled. *)

Module Re.

Inductive re : Type :=
| Eps                                   (* the empty pattern *)
| Chr (p : ascii -> bool)               (* one character of a class *)
| Bol                                   (* ^ under MULTILINE *)
| Eol                                   (* $ under MULTILINE *)
| Seq (a b : re)
| Alt (a b : re)                        (* a|b *)
| Opt (a : re)                          (* a? *)
| Star (p : ascii -> bool)              (* [class]* *)
| StarLazy (p : ascii -> bool)          (* [class]*? *)
| Group (name : string) (a : re)        (* (?P<name>a) *)
| Backref (name : string).              (* (?P=name) *)

(** The groups of a match, by name. *)
Definition captures := list (string * str).

(** A state of the matcher: groups so far, character before the
    position, text after it. *)
Definition thread : Type := captures * option ascii * str.

Fixpoint last_char (prev : option ascii) (t : str) : option ascii :=
  match t with
  | [] => prev
  | c :: t' => last_char (Some c) t'
  end.

Fixpoint star_greedy (p : ascii -> bool) (env : captures)
         (prev : option ascii) (s : str) : list thread :=
  match s with
  | c :: s' =>
      if p c then star_greedy p env (Some c) s' ++ [(env, prev, s)]
      else [(env, prev, s)]
  | [] => [(env, prev, s)]
  end.

Fixpoint star_lazy (p : ascii -> bool) (env : captures)
         (prev : option ascii) (s : str) : list thread :=
  (env, prev, s) ::
  match s with
  | c :: s' => if p c then star_lazy p env (Some c) s' else []
  | [] => []
  end.

Definition at_bol (prev : option ascii) : bool :=
  match prev with
  | None => true
  | Some c => Ascii.eqb c LF
  end.

Definition at_eol (s : str) : bool :=
  match s with
  | [] => true
  | c :: _ => Ascii.eqb c LF
  end.

Fixpoint rmatch (r : re) (env : captures) (prev : option ascii) (s : str)
  : list thread :=
  match r with
  | Eps => [(env, prev, s)]
  | Chr p =>
      match s with
      | c :: s' => if p c then [(env, Some c, s')] else []
      | [] => []
      end
  | Bol => if at_bol prev then [(env, prev, s)] else []
  | Eol => if at_eol s then [(env, prev, s)] else []
  | Seq a b =>
      flat_map (fun th : thread => let '(e, p, t) := th in rmatch b e p t)
               (rmatch a env prev s)
  | Alt a b => rmatch a env prev s ++ rmatch b env prev s
  | Opt a => rmatch a env prev s ++ [(env, prev, s)]
  | Star p => star_greedy p env prev s
  | StarLazy p => star_lazy p env prev s
  | Group name a =>
      map (fun th : thread =>
             let '(e, p, t) := th in
             (Py.set String.eqb name (firstn (length s - length t) s) e, p, t))
          (rmatch a env prev s)
  | Backref name =>
      match Py.get String.eqb name env with
      | Some t =>
          if Py.startswith t s
          then [(env, last_char prev t, skipn (length t) s)]
          else []
      | None => []
      end
  end.

(** [m.group(name)], the empty string for a group the match lacks *)
Definition group (name : string) (m : captures) : str :=
  match Py.get String.eqb name m with
  | Some t => t
  | None => []
  end.

(** [name in regexp.groupindex] *)
Fixpoint has_group (name : string) (r : re) : bool :=
  match r with
  | Seq a b | Alt a b => has_group name a || has_group name b
  | Opt a => has_group name a
  | Group n a => String.eqb name n || has_group name a
  | _ => false
  end.

(** The scan of [regexp.findall] and [regexp.finditer]: at each position
    not covered by the match found last ([skip] characters of it remain),
    take the first way of matching, if there is one. *)
Fixpoint scan (r : re) (prev : option ascii) (s : str) (skip : nat)
  : list captures :=
  match s with
  | [] =>
      match rmatch r [] prev [] with
      | (env, _, _) :: _ => [env]
      | [] => []
      end
  | c :: s' =>
      match skip with
      | S k => scan r (Some c) s' k
      | O =>
          match rmatch r [] prev s with
          | (env, _, t) :: _ =>
              env :: scan r (Some c) s' (length s - length t - 1)
          | [] => scan r (Some c) s' 0
          end
      end
  end.

(** [regexp.findall(s)], each match given by its groups *)
Definition findall (r : re) (s : str) : list captures := scan r None s 0.

(** [regexp.search(s)] as a truth value *)
Fixpoint search_from (r : re) (prev : option ascii) (s : str) : bool :=
  match rmatch r [] prev s with
  | _ :: _ => true
  | [] =>
      match s with
      | [] => false
      | c :: s' => search_from r (Some c) s'
      end
  end.

Definition search (r : re) (s : str) : bool := search_from r None s.

(** [regexp.split(s)] for a pattern without groups: the pieces of [s]
    between the matches.  [cur] is the piece being read. *)
Fixpoint split_from (r : re) (prev : option ascii) (s : str) (skip : nat)
         (cur : str) : list str :=
  match s with
  | [] => [cur]
  | c :: s' =>
      match skip with
      | S k => split_from r (Some c) s' k cur
      | O =>
          match rmatch r [] prev s with
          | (_, _, t) :: _ =>
              cur :: split_from r (Some c) s' (length s - length t - 1) []
          | [] => split_from r (Some c) s' 0 (cur ++ [c])
          end
      end
  end.

Definition split (r : re) (s : str) : list str := split_from r None s 0 [].

(** A sequence of patterns, and a literal text as a pattern. *)
Definition cat (rs : list re) : re := fold_right Seq Eps rs.
Definition lits (t : str) : re := cat (map (fun c => Chr (Ascii.eqb c)) t).

(** One or more of a class, at least [n]: [[class]{n,}]. *)
Fixpoint at_least (n : nat) (p : ascii -> bool) : re :=
  match n with
  | O => Star p
  | S k => Seq (Chr p) (at_least k p)
  end.

End Re.

(** ** The part of [csv] the program uses *)

Module Csv.

(** *** [csv.Sniffer]

    The attributes of the class [dialect] that [sniff] builds.  The other
    attributes are fixed: [quoting = QUOTE_MINIMAL],
    [lineterminator = '\r\n'], no [escapechar], not [strict]. *)
Record sniffed : Type := {
  sn_delimiter : str;
  sn_quotechar : str;
  sn_doublequote : bool;
  sn_skipinitialspace : bool
}.

Definition nonempty {A : Type} (l : list A) : bool :=
  match l with
  | [] => false
  | _ :: _ => true
  end.

Fixpoint str_eqb (a b : str) : bool :=
  match a, b with
  | [], [] => true
  | x :: a', y :: b' => Ascii.eqb x y && str_eqb a' b'
  | _, _ => false
  end.

(** [key in s] for texts: [key] occurs in [s] *)
Fixpoint occurs_in (key s : str) : bool :=
  Py.startswith key s ||
  match s with
  | [] => false
  | _ :: s' => occurs_in key s'
  end.

(** [max(items, key=f)]: the first of the greatest; [ValueError] on an
    empty sequence. *)
Fixpoint max_from {A : Type} (f : A -> Z) (best : A) (l : list A) : A :=
  match l with
  | [] => best
  | x :: l' => max_from f (if (f best <? f x)%Z then x else best) l'
  end.

Definition max_by {A : Type} (f : A -> Z) (l : list A) : result A :=
  match l with
  | [] => Raise (ValueError "max() arg is an empty sequence")
  | x :: l' => Ok (max_from f x l')
  end.

(** The classes [[^\w\n\x22']] and [[\x22']] (with [\x22] the double
    quote), and [.] under DOTALL *)
Definition delim_class (c : ascii) : bool :=
  negb (Py.isword c || Ascii.eqb c LF || Ascii.eqb c DQUOTE || Ascii.eqb c SQUOTE).
Definition quote_class (c : ascii) : bool :=
  Ascii.eqb c DQUOTE || Ascii.eqb c SQUOTE.
Definition any_char (_ : ascii) : bool := true.
Definition nonword (c : ascii) : bool := negb (Py.isword c).

Definition g_delim : Re.re := Re.Group "delim" (Re.Chr delim_class).
Definition g_space : Re.re := Re.Group "space" (Re.Opt (Re.Chr (Ascii.eqb SPACE))).
Definition g_quote : Re.re := Re.Group "quote" (Re.Chr quote_class).
Definition bol_or_lf : Re.re := Re.Alt Re.Bol (Re.Chr (Ascii.eqb LF)).
Definition eol_or_lf : Re.re := Re.Alt Re.Eol (Re.Chr (Ascii.eqb LF)).

(** The four patterns of [_guess_quote_and_delimiter], compiled with
    [re.DOTALL | re.MULTILINE]:
    - [(?P<delim>[^\w\n\x22'])(?P<space> ?)(?P<quote>[\x22']).*?(?P=quote)(?P=delim)]
    - [(?:^|\n)(?P<quote>[\x22']).*?(?P=quote)(?P<delim>[^\w\n\x22'])(?P<space> ?)]
    - [(?P<delim>[^\w\n\x22'])(?P<space> ?)(?P<quote>[\x22']).*?(?P=quote)(?:$|\n)]
    - [(?:^|\n)(?P<quote>[\x22']).*?(?P=quote)(?:$|\n)] *)
Definition restrs : list Re.re :=
  [ Re.cat [g_delim; g_space; g_quote; Re.StarLazy any_char;
            Re.Backref "quote"; Re.Backref "delim"];
    Re.cat [bol_or_lf; g_quote; Re.StarLazy any_char; Re.Backref "quote";
            g_delim; g_space];
    Re.cat [g_delim; g_space; g_quote; Re.StarLazy any_char;
            Re.Backref "quote"; eol_or_lf];
    Re.cat [bol_or_lf; g_quote; Re.StarLazy any_char; Re.Backref "quote";
            eol_or_lf] ].

(** [for restr in (...): matches = regexp.findall(data); if matches: break].
    The pattern kept is the one that matched, or the last one. *)
Fixpoint first_matches (rs : list Re.re) (data : str)
  : Re.re * list Re.captures :=
  match rs with
  | [] => (Re.Eps, [])
  | r :: rs' =>
      match Re.findall r data with
      | [] =>
          match rs' with
          | [] => (r, [])
          | _ :: _ => first_matches rs' data
          end
      | m => (r, m)
      end
  end.

(** The body of [for m in matches]. *)
Definition tally (regexp : Re.re) (delimiters : str)
           (acc : list (str * Z) * list (str * Z) * Z) (m : Re.captures)
  : list (str * Z) * list (str * Z) * Z :=
  let '(quotes, delims, spaces) := acc in
  let key := Re.group "quote" m in
  let quotes :=
    if nonempty key
    then Py.set str_eqb key
           (match Py.get str_eqb key quotes with Some n => n | None => 0 end + 1)%Z
           quotes
    else quotes in
  if negb (Re.has_group "delim" regexp) then (quotes, delims, spaces) else
  let key := Re.group "delim" m in
  let delims :=
    if nonempty key && occurs_in key delimiters
    then Py.set str_eqb key
           (match Py.get str_eqb key delims with Some n => n | None => 0 end + 1)%Z
           delims
    else delims in
  if negb (Re.has_group "space" regexp) then (quotes, delims, spaces) else
  let spaces := if nonempty (Re.group "space" m) then (spaces + 1)%Z else spaces in
  (quotes, delims, spaces).

(** The pattern of the double-quote test, compiled with [re.MULTILINE]:
    [((D)|^)\W*Q[^D\n]*Q[^D\n]*Q\W*((D)|$)] with [D = re.escape(delim)]
    and [Q = quotechar]. *)
Definition not_delim_lf (delim : str) (c : ascii) : bool :=
  negb (Py.contains c delim || Ascii.eqb c LF).

Definition dq_regexp (delim quote : str) : Re.re :=
  Re.cat [Re.Alt (Re.lits delim) Re.Bol; Re.Star nonword;
          Re.lits quote; Re.Star (not_delim_lf delim);
          Re.lits quote; Re.Star (not_delim_lf delim);
          Re.lits quote; Re.Star nonword;
          Re.Alt (Re.lits delim) Re.Eol].

(** [_guess_quote_and_delimiter(data, delimiters)], returning
    [(quotechar, doublequote, delim, skipinitialspace)].  The delimiter
    [None] and the delimiter [''] are both the empty text. *)
Definition _guess_quote_and_delimiter (data delimiters : str)
  : result (str * bool * str * bool) :=
  let '(regexp, matches) := first_matches restrs data in
  if negb (nonempty matches) then Ok ([], false, [], false) else
  let '(quotes, delims, spaces) :=
    fold_left (tally regexp delimiters) matches ([], [], 0%Z) in
  qc <- max_by snd quotes ;;
  let quotechar := fst qc in
  dl <- (if nonempty delims
         then d <- max_by snd delims ;;
              Ok (if str_eqb (fst d) [LF] then [] else fst d,
                  (snd d =? spaces)%Z)
         else Ok ([], false)) ;;
  let '(delim, skipinitialspace) := dl in
  let doublequote := Re.search (dq_regexp delim quotechar) data in
  Ok (quotechar, doublequote, delim, skipinitialspace).

(** [[chr(c) for c in range(127)]] *)
Definition ascii_chars : list ascii := map ascii_of_nat (seq 0 127).

Definition get_or {K V : Type} (eqk : K -> K -> bool) (k : K) (dflt : V)
           (d : list (K * V)) : V :=
  match Py.get eqk k d with
  | Some v => v
  | None => dflt
  end.

(** The body of [for line in data[start:end]]. *)
Definition tally_line (charFrequency : list (ascii * list (nat * Z)))
           (line : str) : list (ascii * list (nat * Z)) :=
  fold_left
    (fun cf char =>
       let metaFrequency := get_or Ascii.eqb char [] cf in
       let freq := Py.count char line in
       let metaFrequency :=
         Py.set Nat.eqb freq (get_or Nat.eqb freq 0 metaFrequency + 1)%Z
                metaFrequency in
       Py.set Ascii.eqb char metaFrequency cf)
    ascii_chars charFrequency.

(** [items.remove(x)]: the first item equal to [x] goes. *)
Fixpoint remove_item (x : nat * Z) (items : list (nat * Z)) : list (nat * Z) :=
  match items with
  | [] => []
  | y :: items' =>
      if (fst x =? fst y)%nat && (snd x =? snd y)%Z then items'
      else y :: remove_item x items'
  end.

Definition sum (l : list Z) : Z := fold_left Z.add l 0%Z.

(** The body of [for char in charFrequency.keys()]. *)
Definition update_mode (modes : list (ascii * (nat * Z)))
           (entry : ascii * list (nat * Z))
  : result (list (ascii * (nat * Z))) :=
  let '(char, items) := entry in
  if ((length items =? 1)%nat &&
      match items with (O, _) :: _ => true | _ => false end)
  then Ok modes
  else if (1 <? length items)%nat then
    m <- max_by snd items ;;
    let items' := remove_item m items in
    Ok (Py.set Ascii.eqb char (fst m, (snd m - sum (map snd items'))%Z) modes)
  else
    match items with
    | i :: _ => Ok (Py.set Ascii.eqb char i modes)
    | [] => Raise (IndexError "list index out of range")
    end.

Fixpoint update_modes (charFrequency : list (ascii * list (nat * Z)))
         (modes : list (ascii * (nat * Z)))
  : result (list (ascii * (nat * Z))) :=
  match charFrequency with
  | [] => Ok modes
  | entry :: rest =>
      modes' <- update_mode modes entry ;;
      update_modes rest modes'
  end.

(** The values [consistency] takes in the inner [while] loop, in
    hundredths.  In binary floating point the loop variable runs through
    1.0, 0.99, ..., 0.9099999999999999 and then reaches
    0.8999999999999999, which is below the threshold 0.9: the body runs
    ten times.  The test [v[1]/total >= consistency] is made here on the
    exact quotients; the two agree whenever [total <= 20], which holds for
    every sample this program builds. *)
Definition consistencies : list Z := [100; 99; 98; 97; 96; 95; 94; 93; 92; 91]%Z.

(** The body of [for k, v in modeList] at one value of [consistency]. *)
Definition add_delims (delimiters : str) (total consistency : Z)
           (modeList delims : list (ascii * (nat * Z)))
  : list (ascii * (nat * Z)) :=
  fold_left
    (fun d (kv : ascii * (nat * Z)) =>
       let '(k, v) := kv in
       if (0 <? fst v)%nat && (0 <? snd v)%Z
          && (consistency * total <=? 100 * snd v)%Z
          && Py.contains k delimiters
       then Py.set Ascii.eqb k v d else d)
    modeList delims.

(** [while len(delims) == 0 and consistency >= threshold: ...] *)
Definition build_delims (delimiters : str) (total : Z)
           (modeList delims : list (ascii * (nat * Z)))
  : list (ascii * (nat * Z)) :=
  fold_left
    (fun d consistency =>
       if nonempty d then d
       else add_delims delimiters total consistency modeList d)
    consistencies delims.

(** [data[0].count(delim) == data[0].count(delim + ' ')] *)
Definition initial_space (delim : ascii) (data : list str) : bool :=
  let first := hd [] data in
  (Py.count delim first =? Py.count_sub [delim; SPACE] first)%nat.

Definition preferred : list ascii := [","; TAB; ";"; " "; ":"].

(** Comparison of the pairs [(v, k)] that [items.sort()] orders. *)
Definition item_ltb (a b : (nat * Z) * ascii) : bool :=
  let '((fa, ca), ka) := a in
  let '((fb, cb), kb) := b in
  (fa <? fb)%nat
  || (fa =? fb)%nat && ((ca <? cb)%Z
                        || (ca =? cb)%Z && (N_of_ascii ka <? N_of_ascii kb)%N).

Fixpoint greatest_item (best : (nat * Z) * ascii) (l : list ((nat * Z) * ascii))
  : (nat * Z) * ascii :=
  match l with
  | [] => best
  | x :: l' => greatest_item (if item_ltb best x then x else best) l'
  end.

(** The statements after the outer [while] loop. *)
Definition after_loop (data : list str) (delims : list (ascii * (nat * Z)))
  : result (str * bool) :=
  if negb (nonempty delims) then Ok ([], false) else
  match (if (1 <? length delims)%nat
         then find (fun d => existsb (fun kv => Ascii.eqb d (fst kv)) delims)
                   preferred
         else None) with
  | Some d => Ok ([d], initial_space d data)
  | None =>
      match map (fun kv : ascii * (nat * Z) => (snd kv, fst kv)) delims with
      | [] => Raise (IndexError "list index out of range")
      | i :: items =>
          let delim := snd (greatest_item i items) in
          Ok ([delim], initial_space delim data)
      end
  end.

(** The outer [while start < len(data)] loop.  Each pass moves [start]
    forward by [chunkLength], so [fuel = len(data)] passes are enough. *)
Fixpoint guess_loop (fuel : nat) (data : list str) (delimiters : str)
         (chunkLength start end_ iteration : nat)
         (charFrequency : list (ascii * list (nat * Z)))
         (modes delims : list (ascii * (nat * Z)))
  : result (str * bool) :=
  match fuel with
  | O => after_loop data delims
  | S fuel' =>
      if (start <? length data)%nat then
        let iteration := S iteration in
        let charFrequency :=
          fold_left tally_line (firstn (end_ - start) (skipn start data))
                    charFrequency in
        modes <- update_modes charFrequency modes ;;
        let total := Z.of_nat (Nat.min (chunkLength * iteration) (length data)) in
        let delims := build_delims delimiters total modes delims in
        match delims with
        | [(delim, _)] => Ok ([delim], initial_space delim data)
        | _ =>
            guess_loop fuel' data delimiters chunkLength
                       end_ (end_ + chunkLength) iteration
                       charFrequency modes delims
        end
      else after_loop data delims
  end.

(** [_guess_delimiter(data, delimiters)] *)
Definition _guess_delimiter (data delimiters : str) : result (str * bool) :=
  let data := filter nonempty (Py.split LF data) in
  let chunkLength := Nat.min 10 (length data) in
  guess_loop (length data) data delimiters chunkLength 0 chunkLength 0 [] [] [].

(** [Sniffer().sniff(sample, delimiters)] *)
Definition sniff (sample delimiters : str) : result sniffed :=
  ' (quotechar, doublequote, delimiter, skipinitialspace) <-
      _guess_quote_and_delimiter sample delimiters ;;
  ' (delimiter, skipinitialspace) <-
      (if negb (nonempty delimiter) then _guess_delimiter sample delimiters
       else Ok (delimiter, skipinitialspace)) ;;
  if negb (nonempty delimiter)
  then Raise (CsvError "Could not determine delimiter")
  else Ok {| sn_delimiter := delimiter;
             sn_quotechar := if nonempty quotechar then quotechar else [DQUOTE];
             sn_doublequote := doublequote;
             sn_skipinitialspace := skipinitialspace |}.

(** *** [csv.reader]

    The dialect object of the C module.  Its other attributes are the
    same in every dialect the program builds: [quoting = QUOTE_MINIMAL],
    [lineterminator = '\r\n'], no [escapechar], not [strict].  The branches
    of the C code that test [escapechar], [strict] or another [quoting]
    are therefore left out, and with them the three parser states that
    only an escape character leads to. *)
Record dialect : Type := {
  delimiter : ascii;
  quotechar : ascii;
  doublequote : bool;
  skipinitialspace : bool
}.

(** The checks made when a reader or writer is given its dialect. *)
Definition one_char (what : string) (s : str) : result ascii :=
  match s with
  | [c] => Ok c
  | _ => Raise (TypeError (what ++ " must be a 1-character string"))
  end.

Definition dialect_of (d : sniffed) : result dialect :=
  dl <- one_char "delimiter" (sn_delimiter d) ;;
  qc <- one_char "quotechar" (sn_quotechar d) ;;
  Ok {| delimiter := dl; quotechar := qc;
        doublequote := sn_doublequote d;
        skipinitialspace := sn_skipinitialspace d |}.

Inductive ParserState : Type :=
| START_RECORD
| START_FIELD
| IN_FIELD
| IN_QUOTED_FIELD
| QUOTE_IN_QUOTED_FIELD
| EAT_CRNL.

Definition state_eqb (a b : ParserState) : bool :=
  match a, b with
  | START_RECORD, START_RECORD | START_FIELD, START_FIELD
  | IN_FIELD, IN_FIELD | IN_QUOTED_FIELD, IN_QUOTED_FIELD
  | QUOTE_IN_QUOTED_FIELD, QUOTE_IN_QUOTED_FIELD | EAT_CRNL, EAT_CRNL => true
  | _, _ => false
  end.

(** The reader object: the fields of the record being read, the field
    being read with its length, and the state of the parser. *)
Record ReaderObj : Type := {
  fields : list str;
  field : str;
  field_len : N;
  state : ParserState
}.

(** [csv.field_size_limit()], never changed by the program *)
Definition field_limit : N := 131072.

Definition parse_reset : ReaderObj :=
  {| fields := []; field := []; field_len := 0; state := START_RECORD |}.

Definition set_state (self : ReaderObj) (s : ParserState) : ReaderObj :=
  {| fields := fields self; field := field self;
     field_len := field_len self; state := s |}.

Definition parse_save_field (self : ReaderObj) : ReaderObj :=
  {| fields := fields self ++ [field self]; field := []; field_len := 0;
     state := state self |}.

Definition parse_add_char (self : ReaderObj) (c : ascii) : result ReaderObj :=
  if (field_limit <=? field_len self)%N
  then Raise (CsvError "field larger than field limit (131072)")
  else Ok {| fields := fields self; field := field self ++ [c];
             field_len := field_len self + 1; state := state self |}.

(** What the parser is fed: a character of the line, or the mark [EOL]
    that follows the last character of every line. *)
Inductive pchar : Type :=
| Ch (c : ascii)
| EOL.

Definition is_newline (c : pchar) : bool :=
  match c with
  | Ch c => Ascii.eqb c LF || Ascii.eqb c CR
  | EOL => false
  end.

Definition is_char (x : ascii) (c : pchar) : bool :=
  match c with
  | Ch c => Ascii.eqb c x
  | EOL => false
  end.

Definition after_line (c : pchar) : ParserState :=
  match c with
  | EOL => START_RECORD
  | Ch _ => EAT_CRNL
  end.

(** [case START_FIELD] of [parse_process_char] *)
Definition start_field (d : dialect) (self : ReaderObj) (c : pchar)
  : result ReaderObj :=
  match c with
  | EOL => Ok (set_state (parse_save_field self) (after_line c))
  | Ch ch =>
      if is_newline c then Ok (set_state (parse_save_field self) (after_line c))
      else if Ascii.eqb ch (quotechar d) then Ok (set_state self IN_QUOTED_FIELD)
      else if Ascii.eqb ch SPACE && skipinitialspace d then Ok self
      else if Ascii.eqb ch (delimiter d) then Ok (parse_save_field self)
      else
        self' <- parse_add_char self ch ;;
        Ok (set_state self' IN_FIELD)
  end.

Definition parse_process_char (d : dialect) (self : ReaderObj) (c : pchar)
  : result ReaderObj :=
  match state self with
  | START_RECORD =>
      match c with
      | EOL => Ok self
      | Ch _ =>
          if is_newline c then Ok (set_state self EAT_CRNL)
          else start_field d (set_state self START_FIELD) c
      end
  | START_FIELD => start_field d self c
  | IN_FIELD =>
      match c with
      | EOL => Ok (set_state (parse_save_field self) (after_line c))
      | Ch ch =>
          if is_newline c then Ok (set_state (parse_save_field self) (after_line c))
          else if Ascii.eqb ch (delimiter d)
          then Ok (set_state (parse_save_field self) START_FIELD)
          else parse_add_char self ch
      end
  | IN_QUOTED_FIELD =>
      match c with
      | EOL => Ok self
      | Ch ch =>
          if Ascii.eqb ch (quotechar d) then
            if doublequote d then Ok (set_state self QUOTE_IN_QUOTED_FIELD)
            else Ok (set_state self IN_FIELD)
          else parse_add_char self ch
      end
  | QUOTE_IN_QUOTED_FIELD =>
      match c with
      | EOL => Ok (set_state (parse_save_field self) (after_line c))
      | Ch ch =>
          if Ascii.eqb ch (quotechar d) then
            self' <- parse_add_char self ch ;;
            Ok (set_state self' IN_QUOTED_FIELD)
          else if Ascii.eqb ch (delimiter d)
          then Ok (set_state (parse_save_field self) START_FIELD)
          else if is_newline c
          then Ok (set_state (parse_save_field self) (after_line c))
          else
            self' <- parse_add_char self ch ;;
            Ok (set_state self' IN_FIELD)
      end
  | EAT_CRNL =>
      match c with
      | EOL => Ok (set_state self START_RECORD)
      | Ch _ =>
          if is_newline c then Ok self
          else Raise (CsvError "new-line character seen in unquoted field")
      end
  end.

(** The characters of one line, then [EOL]. *)
Fixpoint parse_chars (d : dialect) (self : ReaderObj) (line : str)
  : result ReaderObj :=
  match line with
  | [] => parse_process_char d self EOL
  | c :: line' =>
      self' <- parse_process_char d self (Ch c) ;;
      parse_chars d self' line'
  end.

(** [[row for row in reader]] over the lines still to come.  A record is
    complete when a line ends with the parser back in [START_RECORD]; the
    next one starts from [parse_reset].  When the lines run out inside a
    record, what was read of it is the last row. *)
Fixpoint read_rows (d : dialect) (self : ReaderObj) (lines : list str)
  : result (list (list str)) :=
  match lines with
  | [] =>
      if negb (field_len self =? 0)%N || state_eqb (state self) IN_QUOTED_FIELD
      then Ok [fields (parse_save_field self)]
      else Ok []
  | line :: rest =>
      self' <- parse_chars d self line ;;
      if state_eqb (state self') START_RECORD then
        rows <- read_rows d parse_reset rest ;;
        Ok (fields self' :: rows)
      else read_rows d self' rest
  end.

(** [[row for row in csv.reader(lines, dialect)]] *)
Definition reader (lines : list str) (d : sniffed) : result (list (list str)) :=
  dl <- dialect_of d ;;
  read_rows dl parse_reset lines.

(** *** [csv.writer] *)

(** The writer object: the record being built and the number of fields
    joined into it. *)
Record WriterObj : Type := {
  rec : str;
  num_fields : nat
}.

Definition join_reset : WriterObj := {| rec := []; num_fields := 0 |}.

Definition lineterminator : str := [CR; LF].

(** [ADDCH(c)]: the character is stored in the copy phase only. *)
Definition ADDCH (copy_phase : bool) (r : str) (c : ascii) : str :=
  if copy_phase then r ++ [c] else r.

(** The loop over the characters of the field in [join_append_data]. *)
Fixpoint join_chars (d : dialect) (copy_phase : bool) (data : str)
         (r : str) (quoted : bool) : result (str * bool) :=
  match data with
  | [] => Ok (r, quoted)
  | c :: data' =>
      if Ascii.eqb c (delimiter d) || Ascii.eqb c (quotechar d)
         || Py.contains c lineterminator
      then
        if Ascii.eqb c (quotechar d) then
          if doublequote d
          then join_chars d copy_phase data'
                 (ADDCH copy_phase (ADDCH copy_phase r (quotechar d)) c) true
          else Raise (CsvError "need to escape, but no escapechar set")
        else join_chars d copy_phase data' (ADDCH copy_phase r c) true
      else join_chars d copy_phase data' (ADDCH copy_phase r c) quoted
  end.

(** [join_append_data(self, field, &quoted, copy_phase)]; [None] is the
    null field. *)
Definition join_append_data (d : dialect) (self : WriterObj)
           (fld : option str) (quoted copy_phase : bool)
  : result (str * bool) :=
  let r := rec self in
  let r := if (0 <? num_fields self)%nat then ADDCH copy_phase r (delimiter d) else r in
  let r := if copy_phase && quoted then ADDCH copy_phase r (quotechar d) else r in
  ' (r, quoted) <- join_chars d copy_phase
                     (match fld with Some data => data | None => [] end)
                     r quoted ;;
  let r := if quoted then ADDCH copy_phase r (quotechar d) else r in
  Ok (r, quoted).

(** [join_append(self, field, quoted)]: a counting pass that settles
    [quoted], then the copying pass. *)
Definition join_append (d : dialect) (self : WriterObj) (fld : option str)
           (quoted : bool) : result WriterObj :=
  ' (_, quoted) <- join_append_data d self fld quoted false ;;
  ' (r, _) <- join_append_data d self fld quoted true ;;
  Ok {| rec := r; num_fields := S (num_fields self) |}.

Fixpoint join_fields (d : dialect) (self : WriterObj) (row : list str)
  : result WriterObj :=
  match row with
  | [] => Ok self
  | fld :: row' =>
      self' <- join_append d self (Some fld) false ;;
      join_fields d self' row'
  end.

(** [writer.writerow(row)]: the text handed to the file's [write]. *)
Definition writerow (d : dialect) (row : list str) : result str :=
  self <- join_fields d join_reset row ;;
  self <- (if (0 <? num_fields self)%nat && negb (nonempty (rec self))
           then join_append d {| rec := rec self;
                                 num_fields := num_fields self - 1 |}
                            None true
           else Ok self) ;;
  Ok (rec self ++ lineterminator).

(** [csv.writer(f, delimiter=sep, quoting=csv.QUOTE_MINIMAL)]: the
    [excel] dialect with its delimiter replaced. *)
Definition excel (sep : ascii) : dialect :=
  {| delimiter := sep; quotechar := DQUOTE; doublequote := true;
     skipinitialspace := false |}.

Definition writer_dialect (sep : str) : result dialect :=
  dl <- one_char "delimiter" sep ;;
  Ok (excel dl).

End Csv.

(** ** The part of [argparse] the program uses

    A parser whose arguments are all optional ones, with the actions
    [store] (one argument), [store_true] (none) and [help].  The default
    settings apply: the prefix character is [-], abbreviations are
    allowed, an error ends the program.  What the parser prints (the help
    text, the usage line and the error message) is not modelled, only
    which of the two it prints and the exit status that follows. *)

Module Argparse.

(** The value [_get_values] makes of the argument strings of a [store]
    action: the one string, converted by the action's [type]; or, when
    the strings are not exactly one, the list of them (the list is empty
    when the only string was [--], which [_get_values] removes). *)
Inductive value : Type :=
| Value (s : str)
| Values (l : list str).

Inductive ArgumentError : Type :=
| ambiguous_option (arg_string : str)
| ignored_explicit_argument (explicit_arg : str)
| expected_one_argument
| unrecognized_arguments (extras : list str).

Section Parser.
Context {Namespace : Type}.

(** An action, by what its [__call__] does to the namespace. *)
Inductive Action : Type :=
| store (setattr : value -> Namespace -> Namespace)
| store_true (setattr : Namespace -> Namespace)
| help.

(** The parser: its actions with their option strings, in the order in
    which they were added, and the namespace of the defaults. *)
Record ArgumentParser : Type := {
  actions : list (list str * Action);
  defaults : Namespace
}.

(** How [parse_args] ends: it returns the namespace; or it prints the help
    and raises [SystemExit(0)]; or it prints the usage and an error message
    and raises [SystemExit(2)]. *)
Inductive parsed : Type :=
| Parsed (namespace : Namespace)
| PrintedHelp
| Error (e : ArgumentError).

(** [self._option_string_actions], in insertion order *)
Definition _option_string_actions (self : ArgumentParser)
  : list (str * Action) :=
  flat_map (fun a : list str * Action => map (fun s => (s, snd a)) (fst a))
           (actions self).

(** The number of argument strings the action takes ([nargs]). *)
Definition nargs (action : Action) : nat :=
  match action with
  | store _ => 1
  | store_true _ | help => 0
  end.

(** [s.split('=', 1)] when ['=' in s] *)
Fixpoint split_eq (s : str) : option (str * str) :=
  match s with
  | [] => None
  | c :: s' =>
      if Ascii.eqb c "=" then Some ([], s')
      else match split_eq s' with
           | Some (a, b) => Some (c :: a, b)
           | None => None
           end
  end.

(** The class [\d], and the pattern [^-\d+$|^-\d*\.\d+$] of
    [_negative_number_matcher]; [$] is the end of the string or the
    position before a newline that ends it. *)
Definition isdigit (c : ascii) : bool :=
  let n := N_of_ascii c in ((48 <=? n) && (n <=? 57))%N.

Fixpoint skip_digits (s : str) : str :=
  match s with
  | c :: s' => if isdigit c then skip_digits s' else s
  | [] => []
  end.

Definition at_end (s : str) : bool :=
  match s with
  | [] => true
  | [c] => Ascii.eqb c LF
  | _ => false
  end.

Definition _negative_number_matcher (s : str) : bool :=
  match s with
  | c :: t =>
      Ascii.eqb c "-" &&
      (let r := skip_digits t in
       (length r <? length t)%nat && at_end r
       || match r with
          | dot :: u =>
              Ascii.eqb dot "." &&
              (let v := skip_digits u in (length v <? length u)%nat && at_end v)
          | [] => false
          end)
  | [] => false
  end.

(** [self._has_negative_number_optionals]: an option string that looks
    like a negative number was added. *)
Definition _has_negative_number_optionals (self : ArgumentParser) : bool :=
  existsb (fun e : str * Action => _negative_number_matcher (fst e))
          (_option_string_actions self).

(** An option tuple [(action, option_string, explicit_arg)]. *)
Definition option_tuple : Type := option Action * str * option str.

(** [_get_option_tuples(option_string)], for a string of two characters
    or more that starts with the prefix character. *)
Definition _get_option_tuples (self : ArgumentParser) (option_string : str)
  : list option_tuple :=
  match option_string with
  | c0 :: c1 :: rest =>
      if Ascii.eqb c1 "-" then
        let '(option_prefix, explicit_arg) :=
          match split_eq option_string with
          | Some (a, b) => (a, Some b)
          | None => (option_string, None)
          end in
        flat_map (fun e : str * Action =>
                    if Py.startswith option_prefix (fst e)
                    then [(Some (snd e), fst e, explicit_arg)] else [])
                 (_option_string_actions self)
      else
        let short_option_prefix := [c0; c1] in
        let short_explicit_arg := rest in
        flat_map (fun e : str * Action =>
                    if Csv.str_eqb (fst e) short_option_prefix
                    then [(Some (snd e), fst e, Some short_explicit_arg)]
                    else if Py.startswith option_string (fst e)
                    then [(Some (snd e), fst e, None)] else [])
                 (_option_string_actions self)
  | _ => []
  end.

(** What [_parse_optional(arg_string)] makes of an argument string: [None]
    (a positional argument), an option tuple, or the error of an
    ambiguous abbreviation. *)
Inductive classified : Type :=
| Positional
| Optional (t : option_tuple)
| Ambiguous.

Definition _parse_optional (self : ArgumentParser) (arg_string : str)
  : classified :=
  match arg_string with
  | [] => Positional
  | c :: _ =>
      if negb (Ascii.eqb c "-") then Positional else
      match Py.get Csv.str_eqb arg_string (_option_string_actions self) with
      | Some action => Optional (Some action, arg_string, None)
      | None =>
          if (length arg_string =? 1)%nat then Positional else
          match (match split_eq arg_string with
                 | Some (option_string, explicit_arg) =>
                     match Py.get Csv.str_eqb option_string
                                  (_option_string_actions self) with
                     | Some action => Some (Some action, option_string, Some explicit_arg)
                     | None => None
                     end
                 | None => None
                 end) with
          | Some t => Optional t
          | None =>
              match _get_option_tuples self arg_string with
              | _ :: _ :: _ => Ambiguous
              | [t] => Optional t
              | [] =>
                  if _negative_number_matcher arg_string
                     && negb (_has_negative_number_optionals self)
                  then Positional
                  else if Py.contains SPACE arg_string then Positional
                  else Optional (None, arg_string, None)
              end
          end
      end
  end.

(** The letters of [arg_strings_pattern]: [O] for an option (kept with
    its tuple), [A] for an argument, [-] for the string [--]. *)
Inductive pattern : Type :=
| O (t : option_tuple)
| A
| Dashes.

(** The first loop of [_parse_known_args]: every string after [--] is an
    argument. *)
Fixpoint arg_strings_pattern (self : ArgumentParser) (arg_strings : list str)
  : ArgumentError + list (str * pattern) :=
  match arg_strings with
  | [] => inr []
  | arg_string :: rest =>
      if Csv.str_eqb arg_string (lit "--")
      then inr ((arg_string, Dashes) :: map (fun s => (s, A)) rest)
      else
        match _parse_optional self arg_string with
        | Ambiguous => inl (ambiguous_option arg_string)
        | c =>
            match arg_strings_pattern self rest with
            | inl e => inl e
            | inr ps =>
                inr ((arg_string,
                      match c with Optional t => O t | _ => A end) :: ps)
            end
        end
  end.

(** What the [while True] loop of [consume_optional] settles when the
    option came with an explicit argument: the actions to take, each with
    its argument strings; the last action may still have to take its
    argument strings from those that follow. *)
Inductive matched : Type :=
| Taken (action_tuples : list (Action * list str))
| Following (action_tuples : list (Action * list str)) (action : Action)
| Refused (e : ArgumentError).

Definition second_is_prefix (option_string : str) : bool :=
  match option_string with
  | _ :: c :: _ => Ascii.eqb c "-"
  | _ => false
  end.

Fixpoint explicit_loop (self : ArgumentParser) (action : Action)
         (option_string explicit_arg : str)
         (action_tuples : list (Action * list str)) : matched :=
  match nargs action with
  | 0 =>
      match explicit_arg with
      | c :: new_explicit_arg =>
          if second_is_prefix option_string
          then Refused (ignored_explicit_argument explicit_arg)
          else
            let action_tuples := action_tuples ++ [(action, [])] in
            let option_string := firstn 1 option_string ++ [c] in
            match Py.get Csv.str_eqb option_string
                         (_option_string_actions self) with
            | Some action =>
                match new_explicit_arg with
                | [] => Following action_tuples action
                | _ :: _ =>
                    explicit_loop self action option_string new_explicit_arg
                                  action_tuples
                end
            | None => Refused (ignored_explicit_argument explicit_arg)
            end
      | [] => Refused (ignored_explicit_argument explicit_arg)
      end
  | _ => Taken (action_tuples ++ [(action, [explicit_arg])])
  end.

(** [arg_strings.remove('--')], nothing done when [--] is not there *)
Fixpoint remove_dashes (arg_strings : list str) : list str :=
  match arg_strings with
  | [] => []
  | s :: rest =>
      if Csv.str_eqb s (lit "--") then rest else s :: remove_dashes rest
  end.

(** [_get_values(action, arg_strings)] for a [store] action *)
Definition _get_values (arg_strings : list str) : value :=
  match remove_dashes arg_strings with
  | [s] => Value s
  | l => Values l
  end.

(** [take_action] over the action tuples; [None] when [help] ended the
    program. *)
Fixpoint take_actions (action_tuples : list (Action * list str))
         (namespace : Namespace) : option Namespace :=
  match action_tuples with
  | [] => Some namespace
  | (action, arg_strings) :: rest =>
      match action with
      | store setattr =>
          take_actions rest (setattr (_get_values arg_strings) namespace)
      | store_true setattr => take_actions rest (setattr namespace)
      | help => None
      end
  end.

(** The [while start_index <= max_option_string_index] loop and what
    follows it.  There are no positional actions, so every string that is
    neither an option nor the argument of one goes to [extras]. *)
Fixpoint consume (self : ArgumentParser) (rest : list (str * pattern))
         (namespace : Namespace) (extras : list str) : parsed :=
  match rest with
  | [] =>
      if Csv.nonempty extras then Error (unrecognized_arguments extras)
      else Parsed namespace
  | (arg_string, A) :: rest' | (arg_string, Dashes) :: rest'
  | (arg_string, O (None, _, _)) :: rest' =>
      consume self rest' namespace (extras ++ [arg_string])
  | (arg_string, O (Some action, option_string, explicit_arg)) :: rest' =>
      match (match explicit_arg with
             | Some e => explicit_loop self action option_string e []
             | None => Following [] action
             end) with
      | Refused e => Error e
      | Taken action_tuples =>
          match take_actions action_tuples namespace with
          | Some namespace => consume self rest' namespace extras
          | None => PrintedHelp
          end
      | Following action_tuples action =>
          match nargs action with
          | 0 =>
              match take_actions (action_tuples ++ [(action, [])]) namespace with
              | Some namespace => consume self rest' namespace extras
              | None => PrintedHelp
              end
          | _ =>
              match rest' with
              | (s, A) :: rest'' =>
                  match take_actions (action_tuples ++ [(action, [s])])
                                     namespace with
                  | Some namespace => consume self rest'' namespace extras
                  | None => PrintedHelp
                  end
              | _ => Error expected_one_argument
              end
          end
      end
  end.

(** [parser.parse_args(args)] *)
Definition parse_args (self : ArgumentParser) (args : list str) : parsed :=
  match arg_strings_pattern self args with
  | inl e => Error e
  | inr ps => consume self ps (defaults self) []
  end.

End Parser.

Arguments Action : clear implicits.
Arguments ArgumentParser : clear implicits.
Arguments parsed : clear implicits.

End Argparse.


(** ** UTF-8 *)

(** The encoding of a code point below U+0100: one byte below U+0080, two
    bytes from there on. *)
Definition utf8_char (c : ascii) : list Byte.byte :=
  let n := N_of_ascii c in
  if (n <? 128)%N then [byte_of_ascii c]
  else [byte_of_ascii (ascii_of_N (192 + n / 64));
        byte_of_ascii (ascii_of_N (128 + n mod 64))].

(** [text.encode('utf-8')] *)
Definition utf8_encode (text : str) : list Byte.byte := flat_map utf8_char text.

(** [data.decode('utf-8')] for the encodings of code points below U+0100;
    [None] for any other byte sequence. *)
Fixpoint utf8_decode (data : list Byte.byte) : option str :=
  match data with
  | [] => Some []
  | b :: data' =>
      let n := N_of_ascii (ascii_of_byte b) in
      if (n <? 128)%N then
        option_map (cons (ascii_of_byte b)) (utf8_decode data')
      else
        match data' with
        | b2 :: data'' =>
            let m := N_of_ascii (ascii_of_byte b2) in
            if ((n =? 194) || (n =? 195))%N && (128 <=? m)%N && (m <? 192)%N
            then option_map (cons (ascii_of_N ((n - 192) * 64 + (m - 128))))
                            (utf8_decode data'')
            else None
        | [] => None
        end
  end.

(** ** [src/main.py] *)

Definition CANDIDATE_DELIMS : list str := [[","]; [";"]; ["|"]].

(** The pattern [\s{2,}]. *)
Definition two_or_more_spaces : Re.re := Re.at_least 2 Py.isspace.

(** [[ln for ln in text.strip().splitlines() if ln.strip()]], the lines
    the function keeps. *)
Definition retained_lines (text : str) : list str :=
  filter (fun ln => Csv.nonempty (Py.strip ln)) (Py.splitlines (Py.strip text)).

(** ['\n'.join(lines[:20])] *)
Definition sample_of (lines : list str) : str := Py.join [LF] (firstn 20 lines).

(** Strategy 1: [[ln.split('\t') for ln in lines]] *)
Definition tab_rows (lines : list str) : list (list str) :=
  map (Py.split TAB) lines.

(** Strategy 2, the body of the [try]. *)
Definition sniffed_rows (lines : list str) (sample : str)
  : result (list (list str)) :=
  dialect <- Csv.sniff sample (Py.join [] CANDIDATE_DELIMS) ;;
  Csv.reader lines dialect.

(** Strategy 3: the [for ln in lines] loop. *)
Definition aligned_row (ln : str) : list str :=
  map Py.strip (Re.split two_or_more_spaces (Py.strip ln)).

Definition aligned_rows (lines : list str) : list (list str) :=
  map aligned_row lines.

Definition parse_text_to_rows (text : str) : result (list (list str)) :=
  let lines := retained_lines text in
  if negb (Csv.nonempty lines) then Ok [] else
  let sample := sample_of lines in
  if Py.contains TAB sample then Ok (tab_rows lines) else
  try_except (sniffed_rows lines sample)
             (Ok (aligned_rows lines)).

(** The text that [write_rows] hands to the file, row by row. *)
Fixpoint write_text (d : Csv.dialect) (rows : list (list str)) : result str :=
  match rows with
  | [] => Ok []
  | r :: rows' =>
      line <- Csv.writerow d r ;;
      text <- write_text d rows' ;;
      Ok (line ++ text)
  end.

(** [write_rows(rows, out_path, sep)]: the bytes of the file written.  The
    file is opened with [newline=''] and [encoding='utf-8']: the text goes
    out unchanged, encoded as UTF-8. *)
Definition write_rows (rows : list (list str)) (sep : str)
  : result (list Byte.byte) :=
  d <- Csv.writer_dialect sep ;;
  text <- write_text d rows ;;
  Ok (utf8_encode text).

(** ** The command line of [src/main.py] *)

(** [args]: the attributes of the namespace.  [inp] and [out] were
    converted by [Path], [sep] by [str]. *)
Record Namespace : Type := {
  inp : Argparse.value;
  out : Argparse.value;
  sep : Argparse.value;
  tsv : bool;
  quiet : bool
}.

Definition set_inp (v : Argparse.value) (ns : Namespace) : Namespace :=
  {| inp := v; out := out ns; sep := sep ns; tsv := tsv ns; quiet := quiet ns |}.
Definition set_out (v : Argparse.value) (ns : Namespace) : Namespace :=
  {| inp := inp ns; out := v; sep := sep ns; tsv := tsv ns; quiet := quiet ns |}.
Definition set_sep (v : Argparse.value) (ns : Namespace) : Namespace :=
  {| inp := inp ns; out := out ns; sep := v; tsv := tsv ns; quiet := quiet ns |}.
Definition set_tsv (ns : Namespace) : Namespace :=
  {| inp := inp ns; out := out ns; sep := sep ns; tsv := true; quiet := quiet ns |}.
Definition set_quiet (ns : Namespace) : Namespace :=
  {| inp := inp ns; out := out ns; sep := sep ns; tsv := tsv ns; quiet := true |}.

(** [_build_parser()]: [-h/--help], which [ArgumentParser] adds itself,
    then the five arguments of the program with their defaults. *)
Definition _build_parser : Argparse.ArgumentParser Namespace :=
  {| Argparse.actions :=
       [ ([lit "-h"; lit "--help"], Argparse.help);
         ([lit "--in"], Argparse.store set_inp);
         ([lit "--out"], Argparse.store set_out);
         ([lit "--sep"], Argparse.store set_sep);
         ([lit "--tsv"], Argparse.store_true set_tsv);
         ([lit "--quiet"], Argparse.store_true set_quiet) ];
     Argparse.defaults :=
       {| inp := Argparse.Value (lit "input.txt");
          out := Argparse.Value (lit "output.csv");
          sep := Argparse.Value (lit ",");
          tsv := false;
          quiet := false |} |}.

(** ** [main] and the world it runs in

    The file system answers three calls of the program; what it answers is
    given with the run.  A path is the string [Path] was made of.  Writing
    to the file once it is open, closing it, resolving the path of the
    output and printing are taken to succeed. *)

(** What [args.inp.read_text(encoding='utf-8')] does: it raises
    [FileNotFoundError], or another exception (the path is a directory or
    may not be read, the bytes are not UTF-8, ...), or returns the text. *)
Inductive read_result : Type :=
| FileNotFoundError
| OtherException
| Text (text : str).

Record World : Type := {
  read_text : str -> read_result;
  (** [out_path.parent.mkdir(parents=True, exist_ok=True)] returns *)
  mkdir : str -> bool;
  (** [out_path.open('w', newline='', encoding='utf-8')] returns *)
  open_w : str -> bool
}.

(** What the program prints. *)
Inductive message : Type :=
| help_text                              (* the help of the parser *)
| usage_error (e : Argparse.ArgumentError)  (* the usage line and the error *)
| Input_file_not_found (inp : Argparse.value)
| Error_reading_input
| Error_writing_output
| rows_written (n : nat) (out : str).

(** What a run does to the world: the parent directories of the path
    were made; the file was opened for writing, and so exists and is
    empty; it was closed holding [data]; a message went to [sys.stdout] or
    to [sys.stderr]. *)
Inductive event : Type :=
| made_parents (out : str)
| opened (out : str)
| closed (out : str) (data : list Byte.byte)
| stdout (m : message)
| stderr (m : message).

(** How a run ends: [main] returns a status, or [parse_args] raises
    [SystemExit], or another exception leaves [main]. *)
Inductive status : Type :=
| Returned (code : Z)
| SystemExit (code : Z)
| Uncaught.

Record run : Type := {
  effects : list event;
  ending : status
}.

(** [for r in rows: w.writerow(r)]: the text written so far, and whether
    a row raised. *)
Fixpoint writerows (d : Csv.dialect) (rows : list (list str)) (written : str)
  : str * bool :=
  match rows with
  | [] => (written, true)
  | r :: rows' =>
      match Csv.writerow d r with
      | Ok line => writerows d rows' (written ++ line)
      | Raise _ => (written, false)
      end
  end.

(** [write_rows(rows, out_path, sep)] in the world: its effects, and
    whether it returned.  [out_path] and [sep] are values of the
    namespace: a list has no attribute [parent] and is no delimiter. *)
Definition write_rows_in (w : World) (rows : list (list str))
           (out_path sep : Argparse.value) : list event * bool :=
  match out_path with
  | Argparse.Values _ => ([], false)
  | Argparse.Value p =>
      if negb (mkdir w p) then ([], false)
      else if negb (open_w w p) then ([made_parents p], false)
      else
        match (match sep with
               | Argparse.Value s => Csv.writer_dialect s
               | Argparse.Values _ =>
                   Raise (TypeError "delimiter must be string, not list")
               end) with
        | Raise _ => ([made_parents p; opened p; closed p []], false)
        | Ok d =>
            let '(text, ok) := writerows d rows [] in
            ([made_parents p; opened p; closed p (utf8_encode text)], ok)
        end
  end.

(** [args.inp.read_text(encoding='utf-8')]: a list has no attribute
    [read_text]. *)
Definition read_input (w : World) (inp : Argparse.value) : read_result :=
  match inp with
  | Argparse.Value p => read_text w p
  | Argparse.Values _ => OtherException
  end.

(** [main(argv)] *)
Definition main (w : World) (argv : list str) : run :=
  match Argparse.parse_args _build_parser argv with
  | Argparse.PrintedHelp =>
      {| effects := [stdout help_text]; ending := SystemExit 0 |}
  | Argparse.Error e =>
      {| effects := [stderr (usage_error e)]; ending := SystemExit 2 |}
  | Argparse.Parsed args =>
      let sep := if tsv args then Argparse.Value [TAB] else sep args in
      match read_input w (inp args) with
      | FileNotFoundError =>
          {| effects := [stderr (Input_file_not_found (inp args))];
             ending := Returned 2 |}
      | OtherException =>
          {| effects := [stderr Error_reading_input]; ending := Returned 3 |}
      | Text text =>
          match parse_text_to_rows text with
          | Raise _ => {| effects := []; ending := Uncaught |}
          | Ok rows =>
              let '(written, ok) := write_rows_in w rows (out args) sep in
              if negb ok then
                {| effects := written ++ [stderr Error_writing_output];
                   ending := Returned 4 |}
              else if quiet args then
                {| effects := written; ending := Returned 0 |}
              else
                match out args with
                | Argparse.Value p =>
                    {| effects := written ++ [stdout (rows_written (length rows) p)];
                       ending := Returned 0 |}
                | Argparse.Values _ =>
                    {| effects := written; ending := Uncaught |}
                end
          end
      end
  end.

(** ** Invariants and specifications used in the proofs *)

(** All characters the reader holds (the fields read so far and the field
    being read) satisfy [P]. *)
Definition reader_chars (P : ascii -> Prop) (self : Csv.ReaderObj) : Prop :=
  Forall (Forall P) (Csv.fields self) /\ Forall P (Csv.field self).

(** *** The aligned fallback

    [SplitRuns s cells]: [cells] are the pieces of [s] between its maximal
    runs of two or more whitespace characters.  A piece has no two
    adjacent whitespace characters; a separator is all whitespace, at
    least two characters long, and cannot be extended on either side. *)
Fixpoint has_ws_pair (s : str) : bool :=
  match s with
  | [] => false
  | c1 :: s' =>
      match s' with
      | [] => false
      | c2 :: _ => Py.isspace c1 && Py.isspace c2 || has_ws_pair s'
      end
  end.

Definition starts_with_ws (s : str) : bool :=
  match s with
  | [] => false
  | c :: _ => Py.isspace c
  end.

Definition ends_with_ws (s : str) : bool := starts_with_ws (rev s).

Inductive SplitRuns : str -> list str -> Prop :=
| SplitRuns_last (s : str) :
    has_ws_pair s = false -> SplitRuns s [s]
| SplitRuns_cons (cell sep rest : str) (cells : list str) :
    has_ws_pair cell = false ->
    ends_with_ws cell = false ->
    forallb Py.isspace sep = true ->
    2 <= length sep ->
    starts_with_ws rest = false ->
    SplitRuns rest cells ->
    SplitRuns (cell ++ sep ++ rest) (cell :: cells).

(** The fallback as the specification words it: the separators are runs of
    two or more space characters (U+0020) and nothing else. *)
Definition two_or_more_space_chars : Re.re := Re.at_least 2 (Ascii.eqb SPACE).

Definition spec_aligned_row (ln : str) : list str :=
  map Py.strip (Re.split two_or_more_space_chars (Py.strip ln)).

(** Where the pattern [\s{2,}] matches at the start of [s], the text after
    the match. *)
Definition ws2_rest (s : str) : option str :=
  match s with
  | c1 :: c2 :: s' =>
      if Py.isspace c1 && Py.isspace c2 then Some (Py.lstrip s') else None
  | _ => None
  end.

(** *** The serializer

    A cell is quoted when it contains the delimiter, the quote character,
    CR or LF; inside the quotes every quote character is doubled. *)
Definition needs_quote (sep : ascii) (cell : str) : bool :=
  existsb (fun c => Ascii.eqb c sep || Ascii.eqb c DQUOTE
                    || Ascii.eqb c CR || Ascii.eqb c LF) cell.

Definition double_quotes (cell : str) : str :=
  flat_map (fun c => if Ascii.eqb c DQUOTE then [DQUOTE; DQUOTE] else [c]) cell.

Definition render_cell (sep : ascii) (cell : str) : str :=
  if needs_quote sep cell then [DQUOTE] ++ double_quotes cell ++ [DQUOTE]
  else cell.

(** A row as the specification words it: the rendered cells joined by the
    delimiter, then the line terminator. *)
Definition spec_render_row (sep : ascii) (row : list str) : str :=
  Py.join [sep] (map (render_cell sep) row) ++ [CR; LF].

Definition spec_serialize (sep : ascii) (rows : list (list str)) : list Byte.byte :=
  utf8_encode (concat (map (spec_render_row sep) rows)).

(** A row as the writer renders it: a row that is one empty cell is
    written as a pair of quotes. *)
Definition render_row (sep : ascii) (row : list str) : str :=
  match row with
  | [[]] => [DQUOTE; DQUOTE; CR; LF]
  | _ => spec_render_row sep row
  end.

(** *** The reader on lines without quotes

    The row the reader makes of a line that holds no quote character: the
    pieces between the delimiters, each without its leading spaces when
    [skipinitialspace] is set. *)
Fixpoint lstrip_spaces (s : str) : str :=
  match s with
  | [] => []
  | c :: s' => if Ascii.eqb c SPACE then lstrip_spaces s' else s
  end.

Definition skip_initial (skip : bool) (s : str) : str :=
  if skip then lstrip_spaces s else s.

Definition plain_row (d : Csv.dialect) (line : str) : list str :=
  map (skip_initial (Csv.skipinitialspace d)) (Py.split (Csv.delimiter d) line).

(** A character the reader treats as ordinary wherever it stands in a
    line: not the quote character of the dialect, not CR, not LF. *)
Definition plain_char (d : Csv.dialect) (c : ascii) : bool :=
  negb (Ascii.eqb c (Csv.quotechar d) || Ascii.eqb c LF || Ascii.eqb c CR).

(** No field of the row is longer than the reader allows. *)
Definition fits (row : list str) : Prop :=
  Forall (fun cell => (N.of_nat (length cell) <= Csv.field_limit)%N) row.

(** *** The frequency tables of [_guess_delimiter]

    One pass of [tally_line] over a line moves the table of a character
    from [mf] to [meta_bump freq mf], with [freq] the number of times the
    character occurs in the line; [tally_step] is what that pass does for
    one character.  [meta_const k j] is the table of a character that
    occurred [k] times in each of [j] lines. *)
Definition meta_bump (freq : nat) (mf : list (nat * Z)) : list (nat * Z) :=
  Py.set Nat.eqb freq (Csv.get_or Nat.eqb freq 0%Z mf + 1)%Z mf.

Definition tally_step (line : str) (cf : list (ascii * list (nat * Z)))
           (char : ascii) : list (ascii * list (nat * Z)) :=
  Py.set Ascii.eqb char
         (meta_bump (Py.count char line) (Csv.get_or Ascii.eqb char [] cf)) cf.

Definition meta_const (k j : nat) : list (nat * Z) :=
  match j with
  | O => []
  | S _ => [(k, Z.of_nat j)]
  end.

(** The test a mode passes to become a candidate delimiter. *)
Definition passes (delimiters : str) (total consistency : Z)
           (kv : ascii * (nat * Z)) : bool :=
  (0 <? fst (snd kv))%nat && (0 <? snd (snd kv))%Z
  && (consistency * total <=? 100 * snd (snd kv))%Z
  && Py.contains (fst kv) delimiters.

(** A text without a quote character of either kind. *)
Definition quote_free (s : str) : Prop :=
  Forall (fun c => Csv.quote_class c = false) s.

(** *** The round trip

    A cell that goes through the writer and the reader unchanged: it holds
    no delimiter, no quote character of either kind and no line boundary,
    has no whitespace at either end, and is not longer than the reader
    allows. *)
Definition cell_char_ok (D c : ascii) : bool :=
  negb (Ascii.eqb c D || Csv.quote_class c || Py.is_linebreak c).

Definition plain_cell (D : ascii) (cell : str) : bool :=
  forallb (cell_char_ok D) cell
  && negb (starts_with_ws cell) && negb (ends_with_ws cell)
  && (N.of_nat (length cell) <=? Csv.field_limit)%N.

(** A line with a character at each end that is not whitespace. *)
Definition solid (l : str) : Prop :=
  l <> [] /\ starts_with_ws l = false /\ ends_with_ws l = false.

(** A row of such cells that is neither empty nor a lone empty cell. *)
Definition plain_table_row (D : ascii) (row : list str) : bool :=
  match row with
  | [] => false
  | [[]] => false
  | _ => forallb (plain_cell D) row
  end.

(** *** The consistency thresholds in floating point

    [consistency = 1.0], then [consistency -= 0.01] while
    [consistency >= threshold = 0.9], in IEEE binary64 as Python computes
    it; and the test [v[1]/total >= consistency] on floats next to the test
    on hundredths that [add_delims] makes. *)
Fixpoint float_consistencies (fuel : nat) (consistency : float) : list float :=
  match fuel with
  | O => []
  | S fuel' =>
      if PrimFloat.leb 0.9%float consistency
      then consistency
             :: float_consistencies fuel' (PrimFloat.sub consistency 0.01%float)
      else []
  end.

Definition float_of_Z (z : Z) : float := PrimFloat.of_uint63 (Uint63.of_Z z).

Definition thresholds_agree (total v : Z) : bool :=
  forallb
    (fun p : float * Z =>
       Bool.eqb (PrimFloat.leb (fst p)
                               (PrimFloat.div (float_of_Z v) (float_of_Z total)))
                (snd p * total <=? 100 * v)%Z)
    (combine (float_consistencies 100 1.0%float) Csv.consistencies).

(** *** The reader inside a record

    A state of the parser other than the two between records, and a
    character that is neither LF nor CR. *)
Definition in_record (s : Csv.ParserState) : Prop :=
  s <> Csv.START_RECORD /\ s <> Csv.EAT_CRNL.

Definition not_newline (c : ascii) : Prop :=
  Ascii.eqb c LF = false /\ Ascii.eqb c CR = false.

(** The reader counts the characters of the field it reads, and no field
    it holds is longer than the limit. *)
Definition reader_sized (self : Csv.ReaderObj) : Prop :=
  Csv.field_len self = N.of_nat (length (Csv.field self))
  /\ (Csv.field_len self <= Csv.field_limit)%N
  /\ fits (Csv.fields self).

(** The reader between two characters: the fields saved, the field being
    read, and the state. *)
Definition reading (fs : list str) (cur : str) (s : Csv.ParserState)
  : Csv.ReaderObj :=
  {| Csv.fields := fs; Csv.field := cur;
     Csv.field_len := N.of_nat (length cur); Csv.state := s |}.

(** *** The groups of the sniffer's patterns

    A pattern is [narrow] when it matches at most one character; in the
    patterns of [_guess_quote_and_delimiter] every group is narrow. *)
Fixpoint narrow (r : Re.re) : bool :=
  match r with
  | Re.Eps | Re.Bol | Re.Eol | Re.Chr _ => true
  | Re.Opt a | Re.Group _ a => narrow a
  | Re.Alt a b => narrow a && narrow b
  | _ => false
  end.

Fixpoint groups_narrow (r : Re.re) : bool :=
  match r with
  | Re.Seq a b | Re.Alt a b => groups_narrow a && groups_narrow b
  | Re.Opt a => groups_narrow a
  | Re.Group _ a => narrow a && groups_narrow a
  | _ => true
  end.

(** Every group holds at most one character, and that one satisfies [P]. *)
Definition caps_ok (P : ascii -> Prop) (env : Re.captures) : Prop :=
  Forall (fun kv => length (snd kv) <= 1 /\ Forall P (snd kv)) env.

(** A key of one character that satisfies [P]; for a delimiter, one that
    is also among the delimiters asked for. *)
Definition one_char_key (P : ascii -> Prop) (key : str) : Prop :=
  exists c, key = [c] /\ P c.

Definition good_key (delimiters : str) (P : ascii -> Prop) (key : str) : Prop :=
  exists c, key = [c] /\ Py.contains c delimiters = true /\ P c.

(** The tables [quotes] and [delims] of [_guess_quote_and_delimiter] hold
    such keys only. *)
Definition tally_inv (P : ascii -> Prop) (delimiters : str)
           (acc : list (str * Z) * list (str * Z) * Z) : Prop :=
  (forall key, In key (map fst (fst (fst acc))) -> one_char_key P key)
  /\ (forall key, In key (map fst (snd (fst acc))) -> good_key delimiters P key).

(** *** The candidates of [_guess_delimiter]

    [occurs data c]: the character occurs in a line of the sample.  A
    frequency above zero in the tables, a mode with a frequency above zero
    and a candidate delimiter all belong to characters that occur. *)
Definition occurs (data : list str) (c : ascii) : Prop :=
  exists ln, In ln data /\ 0 < Py.count c ln.

Definition freq_inv (data : list str) (cf : list (ascii * list (nat * Z))) : Prop :=
  forall c items, In (c, items) cf ->
                  forall f, In f (map fst items) -> 0 < f -> occurs data c.

Definition modes_inv (data : list str) (modes : list (ascii * (nat * Z))) : Prop :=
  forall c v, In (c, v) modes -> 0 < fst v -> occurs data c.

Definition delims_inv (data : list str) (delimiters : str)
           (delims : list (ascii * (nat * Z))) : Prop :=
  forall c, In c (map fst delims) ->
            Py.contains c delimiters = true /\ occurs data c.

(** *** What the strategies keep of a line

    The text without its whitespace characters. *)
Definition squeeze (s : str) : str := filter (fun c => negb (Py.isspace c)) s.

(** *** The round trip of cells that need quotes

    A cell that goes through the writer and the reader unchanged even
    when it holds the delimiter or a quote character: it holds no line
    boundary, has no whitespace at either end, and is not longer than the
    reader allows. *)
Definition quotable_cell (cell : str) : bool :=
  forallb (fun c => negb (Py.is_linebreak c)) cell
  && negb (starts_with_ws cell) && negb (ends_with_ws cell)
  && (N.of_nat (length cell) <=? Csv.field_limit)%N.

Definition quotable_row (row : list str) : bool :=
  Csv.nonempty row && forallb quotable_cell row.

(** The line the writer makes of a row, without its terminator. *)
Definition written_line (sep : ascii) (row : list str) : str :=
  match row with
  | [[]] => [DQUOTE; DQUOTE]
  | _ => Py.join [sep] (map (render_cell sep) row)
  end.

(** *** Command lines made of the options of the program *)

Inductive store_option : Type := opt_in | opt_out | opt_sep.
Inductive flag_option : Type := opt_tsv | opt_quiet.

(** An option as it is given on the command line: with its value in the
    next word ([--sep ;]), with its value in the same word ([--sep=;]),
    or a flag. *)
Inductive given : Type :=
| apart (o : store_option) (v : str)
| joined (o : store_option) (v : str)
| flag (f : flag_option).

Definition option_string (o : store_option) : str :=
  match o with
  | opt_in => lit "--in"
  | opt_out => lit "--out"
  | opt_sep => lit "--sep"
  end.

Definition flag_string (f : flag_option) : str :=
  match f with
  | opt_tsv => lit "--tsv"
  | opt_quiet => lit "--quiet"
  end.

Definition words (g : given) : list str :=
  match g with
  | apart o v => [option_string o; v]
  | joined o v => [option_string o ++ "=" :: v]
  | flag f => [flag_string f]
  end.

Definition setattr (o : store_option)
  : Argparse.value -> Namespace -> Namespace :=
  match o with
  | opt_in => set_inp
  | opt_out => set_out
  | opt_sep => set_sep
  end.

(** What the option does to the namespace. *)
Definition assign (ns : Namespace) (g : given) : Namespace :=
  match g with
  | apart o v | joined o v => setattr o (Argparse._get_values [v]) ns
  | flag opt_tsv => set_tsv ns
  | flag opt_quiet => set_quiet ns
  end.

(** A word that does not start with [-]. *)
Definition plain (v : str) : bool :=
  match v with
  | [] => true
  | c :: _ => negb (Ascii.eqb c "-")
  end.

Definition well_formed (g : given) : bool :=
  match g with
  | apart _ v => plain v
  | _ => true
  end.

(** The option in [arg_strings_pattern]. *)
Definition pattern_of (g : given)
  : list (str * Argparse.pattern (Namespace := Namespace)) :=
  match g with
  | apart o v =>
      [(option_string o,
        Argparse.O (Some (Argparse.store (setattr o)), option_string o, None));
       (v, Argparse.A)]
  | joined o v =>
      [(option_string o ++ "=" :: v,
        Argparse.O (Some (Argparse.store (setattr o)), option_string o, Some v))]
  | flag f =>
      [(flag_string f,
        Argparse.O (Some (Argparse.store_true
                            (match f with
                             | opt_tsv => set_tsv
                             | opt_quiet => set_quiet
                             end)),
                    flag_string f, None))]
  end.

Definition long_options : list str :=
  [lit "--help"; lit "--in"; lit "--out"; lit "--sep"; lit "--tsv"; lit "--quiet"].

(** ** Concrete inputs *)

Definition tab_example : str :=
  lit "x" ++ [TAB] ++ lit " y,1 " ++ [TAB] ++ lit "z" ++ [LF]
  ++ lit "1;2" ++ [TAB] ++ lit "2|3" ++ [TAB] ++ lit "3" ++ [LF].

Definition NBSP : ascii := "160".

Definition prose_example : str :=
  lit "no delimiter here" ++ [LF] ++ lit "just words".

Definition aligned_example : str :=
  lit "Name     Age  City" ++ [LF] ++ lit "Ann Lee  31   New York" ++ [LF].

Definition nbsp_example : str := lit "a" ++ [NBSP; NBSP] ++ lit "b".

Definition roundtrip_rows : list (list str) :=
  [[lit "name"; lit "age"]; [lit "Ann Lee"; lit "31"]].

Definition roundtrip_text : str :=
  lit "name,age" ++ [CR; LF] ++ lit "Ann Lee,31" ++ [CR; LF].

Definition roundtrip_dialect : Csv.sniffed :=
  {| Csv.sn_delimiter := [COMMA]; Csv.sn_quotechar := [DQUOTE];
     Csv.sn_doublequote := false; Csv.sn_skipinitialspace := false |}.

Definition spaced_rows : list (list str) := [[lit "a"; lit " b"]].

Definition spaced_text : str := lit "a, b" ++ [CR; LF].

Definition open_quote_example : str :=
  lit "a," ++ [DQUOTE] ++ lit "b" ++ [LF] ++ lit "c,d".

Definition two_delimiters_example : str :=
  lit "a,b;c;d" ++ [LF] ++ lit "e,f;g;h".

Definition csv_example : str := lit "a,b,c" ++ [LF] ++ lit "1,2,3" ++ [LF].

Definition quoted_commas_example : str :=
  [DQUOTE] ++ lit "a,b" ++ [DQUOTE] ++ lit ",c" ++ [LF]
  ++ [DQUOTE] ++ lit "d,e" ++ [DQUOTE] ++ lit ",f".

Definition chunk_example : str :=
  concat (repeat (lit "a,b;c" ++ [LF]) 10) ++ concat (repeat (lit "ab;c" ++ [LF]) 10).


Definition leading_tab_example : str :=
  [TAB] ++ lit "b" ++ [TAB] ++ lit "c" ++ [LF]
  ++ lit "x" ++ [TAB] ++ lit "y" ++ [TAB] ++ lit "z".

Definition csv_dialect : Csv.sniffed :=
  {| Csv.sn_delimiter := [COMMA]; Csv.sn_quotechar := [DQUOTE];
     Csv.sn_doublequote := false; Csv.sn_skipinitialspace := false |}.

Definition quoted_rows : list (list str) :=
  [[lit "a,b"; lit "c"]; [lit "say " ++ [DQUOTE] ++ lit "hi" ++ [DQUOTE]; lit "d"]].

Definition quoted_text : str :=
  [DQUOTE] ++ lit "a,b" ++ [DQUOTE] ++ lit ",c" ++ [CR; LF]
  ++ [DQUOTE] ++ lit "say " ++ [DQUOTE; DQUOTE] ++ lit "hi" ++ [DQUOTE; DQUOTE; DQUOTE]
  ++ lit ",d" ++ [CR; LF].

Definition quoted_dialect : Csv.sniffed :=
  {| Csv.sn_delimiter := [COMMA]; Csv.sn_quotechar := [DQUOTE];
     Csv.sn_doublequote := true; Csv.sn_skipinitialspace := false |}.

Definition given_example : list given :=
  [apart opt_in (lit "a.txt"); joined opt_sep (lit ";"); flag opt_quiet;
   apart opt_in (lit "b.txt")].

(** A world in which [input.txt] holds [csv_example], no other file is
    there, and every file may be written. *)
Definition example_world : World :=
  {| read_text := fun p => if Csv.str_eqb p (lit "input.txt")
                           then Text csv_example else FileNotFoundError;
     mkdir := fun _ => true;
     open_w := fun _ => true |}.

(** * Properties *)

(** ** Text primitives *)

Section TextLemmas.

Lemma lstrip_all_space (s : str) :
  forallb Py.isspace s = true -> Py.lstrip s = [].
Proof.
  induction s as [|c s IH]; simpl; [reflexivity|].
  intros H. apply andb_prop in H as [Hc Hs]. rewrite Hc. auto.
Qed.

Lemma strip_all_space (s : str) :
  forallb Py.isspace s = true -> Py.strip s = [].
Proof.
  intros H. unfold Py.strip. rewrite (lstrip_all_space s H). reflexivity.
Qed.

Lemma split_nonempty (d : ascii) (s : str) : Py.split d s <> [].
Proof.
  destruct s as [|c s]; simpl; [discriminate|].
  destruct (Ascii.eqb c d); [discriminate|].
  destruct (Py.split d s); discriminate.
Qed.

(** Joining the pieces of a split with the separator gives the text back. *)
Lemma join_split (d : ascii) (s : str) : Py.join [d] (Py.split d s) = s.
Proof.
  induction s as [|c s IH]; simpl; [reflexivity|].
  destruct (Ascii.eqb c d) eqn:E.
  - apply Ascii.eqb_eq in E. subst c.
    pose proof (split_nonempty d s) as Hne.
    destruct (Py.split d s) as [|l ls] eqn:Es; [contradiction|].
    simpl in *. rewrite IH. reflexivity.
  - pose proof (split_nonempty d s) as Hne.
    destruct (Py.split d s) as [|l ls] eqn:Es; [contradiction|].
    simpl in *. destruct ls; simpl in *; rewrite <- IH; reflexivity.
Qed.

(** No piece of a split contains the separator. *)
Lemma split_pieces_free (d : ascii) (s : str) :
  Forall (fun piece => Py.contains d piece = false) (Py.split d s).
Proof.
  induction s as [|c s IH]; simpl.
  - constructor; [reflexivity|constructor].
  - destruct (Ascii.eqb c d) eqn:E.
    + constructor; [reflexivity|exact IH].
    + destruct (Py.split d s) as [|l ls]; simpl.
      * constructor; [|constructor]. simpl.
        rewrite Ascii.eqb_sym, E. reflexivity.
      * inversion IH as [|? ? Hl Hls]; subst.
        constructor; [|exact Hls]. simpl.
        rewrite Ascii.eqb_sym, E. exact Hl.
Qed.

(** A text without the separator is a single piece. *)
Lemma split_without_separator (d : ascii) (s : str) :
  Py.contains d s = false -> Py.split d s = [s].
Proof.
  induction s as [|c s IH]; simpl; [reflexivity|].
  intros H. apply orb_false_elim in H as [Hc Hs].
  rewrite Ascii.eqb_sym, Hc. rewrite (IH Hs). reflexivity.
Qed.

Lemma contains_nil_sample : Py.contains TAB (sample_of []) = false.
Proof. reflexivity. Qed.

End TextLemmas.

(** ** The cascade *)

Lemma parse_text_to_rows_nonempty (text : str) :
  retained_lines text <> [] ->
  parse_text_to_rows text
  = if Py.contains TAB (sample_of (retained_lines text))
    then Ok (tab_rows (retained_lines text))
    else try_except (sniffed_rows (retained_lines text)
                                  (sample_of (retained_lines text)))
                    (Ok (aligned_rows (retained_lines text))).
Proof.
  intros Hne. unfold parse_text_to_rows.
  destruct (retained_lines text); [contradiction|reflexivity].
Qed.

(** ** The tab strategy *)

Lemma parse_text_to_rows_tab (text : str) :
  Py.contains TAB (sample_of (retained_lines text)) = true ->
  parse_text_to_rows text = Ok (tab_rows (retained_lines text)).
Proof.
  intros Htab. unfold parse_text_to_rows.
  destruct (retained_lines text) as [|l ls] eqn:El.
  - rewrite contains_nil_sample in Htab. discriminate.
  - cbn [Csv.nonempty negb]. rewrite Htab. reflexivity.
Qed.

(** C1.  When the sample (the first 20 retained lines joined by newlines)
    contains a tab, the result is every retained line split on tabs, whatever
    else the text contains.  The cells are the exact pieces between the tabs:
    none contains a tab, and joined by tabs they give the line back, so
    nothing was trimmed. *)
Theorem tab_strategy_splits_on_tabs (text : str) :
  Py.contains TAB (sample_of (retained_lines text)) = true ->
  parse_text_to_rows text = Ok (map (Py.split TAB) (retained_lines text))
  /\ Forall (fun row => Forall (fun cell => Py.contains TAB cell = false) row)
            (map (Py.split TAB) (retained_lines text))
  /\ Forall2 (fun ln row => Py.join [TAB] row = ln /\ row <> [])
             (retained_lines text) (map (Py.split TAB) (retained_lines text)).
Proof.
  intros Htab. split; [exact (parse_text_to_rows_tab text Htab)|]. split.
  - apply Forall_forall. intros row Hin. apply in_map_iff in Hin as [ln [<- _]].
    apply split_pieces_free.
  - clear Htab.
    induction (retained_lines text) as [|x xs IH]; simpl; constructor; auto.
    split; [apply join_split | apply split_nonempty].
Qed.

Lemma tab_strategy_splits_on_tabs_witness :
  Py.contains TAB (sample_of (retained_lines tab_example)) = true
  /\ parse_text_to_rows tab_example
     = Ok [[lit "x"; lit " y,1 "; lit "z"]; [lit "1;2"; lit "2|3"; lit "3"]].
Proof.
  split; [reflexivity|].
  exact (proj1 (tab_strategy_splits_on_tabs tab_example eq_refl)).
Defined.

(** C10.  In the tab strategy the split loses nothing: joining the cells of
    each row with one tab gives the retained line back, and a retained line
    without a tab is the single cell of its row. *)
Theorem tab_split_is_lossless (text : str) (rows : list (list str)) :
  Py.contains TAB (sample_of (retained_lines text)) = true ->
  parse_text_to_rows text = Ok rows ->
  map (Py.join [TAB]) rows = retained_lines text
  /\ Forall2 (fun ln row => Py.contains TAB ln = false -> row = [ln])
             (retained_lines text) rows.
Proof.
  intros Htab Hrows.
  rewrite (parse_text_to_rows_tab text Htab) in Hrows. injection Hrows as <-.
  unfold tab_rows. generalize (retained_lines text). intros lines. split.
  - induction lines as [|x xs IH]; simpl; [reflexivity|].
    rewrite join_split, IH. reflexivity.
  - induction lines as [|x xs IH]; simpl; constructor; auto.
    apply split_without_separator.
Qed.

Lemma tab_split_is_lossless_witness :
  Py.contains TAB (sample_of (retained_lines (tab_example ++ lit "end"))) = true
  /\ map (Py.join [TAB])
         [[lit "x"; lit " y,1 "; lit "z"]; [lit "1;2"; lit "2|3"; lit "3"];
          [lit "end"]]
     = retained_lines (tab_example ++ lit "end").
Proof.
  split; [reflexivity|].
  exact (proj1 (tab_split_is_lossless (tab_example ++ lit "end") _ eq_refl eq_refl)).
Defined.

(** ** Empty input *)

Lemma retained_lines_blank (text : str) :
  forallb Py.isspace text = true -> retained_lines text = [].
Proof.
  intros H. unfold retained_lines. rewrite (strip_all_space text H). reflexivity.
Qed.

(** C8.  A text that is empty or all whitespace keeps no line, and the
    result is the empty table; writing no rows writes no bytes. *)
Theorem blank_text_gives_empty_table (text : str) (sep : ascii) :
  forallb Py.isspace text = true ->
  retained_lines text = []
  /\ parse_text_to_rows text = Ok []
  /\ write_rows [] [sep] = Ok [].
Proof.
  intros H. pose proof (retained_lines_blank text H) as Hl.
  split; [exact Hl|]. split; [|reflexivity].
  unfold parse_text_to_rows. rewrite Hl. reflexivity.
Qed.

Lemma blank_text_gives_empty_table_witness :
  forallb Py.isspace [SPACE; LF; TAB; CR; LF; SPACE] = true
  /\ parse_text_to_rows [SPACE; LF; TAB; CR; LF; SPACE] = Ok []
  /\ write_rows [] [COMMA] = Ok [].
Proof.
  split; [reflexivity|].
  exact (proj2 (blank_text_gives_empty_table
                  [SPACE; LF; TAB; CR; LF; SPACE] COMMA eq_refl)).
Defined.

(** ** Characters of the cells come from the lines

    Every operation between the input and a cell only selects characters:
    a property of all characters of the text holds of all characters of
    every cell. *)

Section Chars.
Variable P : ascii -> Prop.
Local Abbreviation reader_chars := (reader_chars P).

Lemma lstrip_chars (s : str) : Forall P s -> Forall P (Py.lstrip s).
Proof.
  induction s as [|c s IH]; simpl; intros H; [constructor|].
  destruct (Py.isspace c); [|exact H].
  inversion H; subst; auto.
Qed.

Lemma strip_chars (s : str) : Forall P s -> Forall P (Py.strip s).
Proof.
  intros H. unfold Py.strip, Py.rstrip.
  apply Forall_rev, lstrip_chars, Forall_rev, lstrip_chars, H.
Qed.

Lemma split_chars (d : ascii) (s : str) :
  Forall P s -> Forall (Forall P) (Py.split d s).
Proof.
  induction s as [|c s IH]; simpl; intros H.
  - repeat constructor.
  - inversion H as [|? ? Hc Hs]; subst. specialize (IH Hs).
    destruct (Ascii.eqb c d); [constructor; [constructor|exact IH]|].
    destruct (Py.split d s) as [|l ls]; [repeat constructor; exact Hc|].
    inversion IH; subst. repeat constructor; assumption.
Qed.

Lemma re_split_chars (r : Re.re) (s : str) :
  Forall P s -> Forall (Forall P) (Re.split r s).
Proof.
  unfold Re.split. generalize (@None ascii) as prev. generalize 0 as skip.
  assert (Hcur : Forall P (@nil ascii)) by constructor. revert Hcur.
  generalize (@nil ascii) as cur.
  induction s as [|c s IH]; simpl; intros cur Hcur skip prev H.
  - repeat constructor; exact Hcur.
  - inversion H as [|? ? Hc Hs]; subst.
    destruct skip as [|k]; [|apply IH; assumption].
    destruct (Re.rmatch r [] prev (c :: s)) as [|[[e p] t] rest].
    + apply IH; [|exact Hs]. apply Forall_app. split; [exact Hcur|repeat constructor; exact Hc].
    + constructor; [exact Hcur|]. apply IH; [constructor|exact Hs].
Qed.

Lemma aligned_row_chars (ln : str) :
  Forall P ln -> Forall (Forall P) (aligned_row ln).
Proof.
  intros H. unfold aligned_row.
  pose proof (re_split_chars two_or_more_spaces _ (strip_chars ln H)) as Hs.
  induction Hs; simpl; constructor; auto using strip_chars.
Qed.

Lemma save_field_chars (self : Csv.ReaderObj) :
  reader_chars self -> reader_chars (Csv.parse_save_field self).
Proof.
  intros [Hf Hc]. split; simpl; [|constructor].
  apply Forall_app. split; [exact Hf|repeat constructor; exact Hc].
Qed.

Lemma set_state_chars (self : Csv.ReaderObj) (s : Csv.ParserState) :
  reader_chars self -> reader_chars (Csv.set_state self s).
Proof. intros H. exact H. Qed.

Lemma add_char_chars (self self' : Csv.ReaderObj) (c : ascii) :
  reader_chars self -> P c -> Csv.parse_add_char self c = Ok self' ->
  reader_chars self'.
Proof.
  intros [Hf Hc] Pc. unfold Csv.parse_add_char.
  destruct (Csv.field_limit <=? Csv.field_len self)%N; [discriminate|].
  intros E. injection E as <-. split; simpl; [exact Hf|].
  apply Forall_app. split; [exact Hc|repeat constructor; exact Pc].
Qed.

Ltac reader_step :=
  repeat match goal with
  | H : Ok _ = Ok _ |- _ => injection H as <-
  | H : Raise _ = Ok _ |- _ => discriminate H
  | H : bind (Csv.parse_add_char ?s ?c) _ = Ok _ |- _ =>
      let E := fresh "E" in
      destruct (Csv.parse_add_char s c) eqn:E; simpl in H;
      [eapply add_char_chars in E; [|eassumption|eassumption]|discriminate H]
  | H : Csv.parse_add_char _ _ = Ok _ |- _ =>
      eapply add_char_chars in H; [|eassumption|eassumption]
  | H : (if ?b then _ else _) = Ok _ |- _ => destruct b
  | |- reader_chars (Csv.set_state _ _) => apply set_state_chars
  | |- reader_chars (Csv.parse_save_field _) => apply save_field_chars
  end; try assumption.

Lemma process_char_chars (d : Csv.dialect) (self self' : Csv.ReaderObj)
      (c : Csv.pchar) :
  reader_chars self ->
  match c with Csv.Ch ch => P ch | Csv.EOL => True end ->
  Csv.parse_process_char d self c = Ok self' ->
  reader_chars self'.
Proof.
  intros Hinv Pc. unfold Csv.parse_process_char, Csv.start_field.
  destruct (Csv.state self), c as [ch|]; intros H; reader_step.
  all: pose proof (set_state_chars self Csv.START_FIELD Hinv); reader_step.
Qed.

Lemma parse_chars_chars (d : Csv.dialect) (line : str) :
  Forall P line ->
  forall self self', reader_chars self ->
  Csv.parse_chars d self line = Ok self' -> reader_chars self'.
Proof.
  induction 1 as [|c line Pc Hline IH]; simpl; intros self self' Hinv H.
  - eapply (process_char_chars d self self' Csv.EOL); [exact Hinv|exact I|exact H].
  - destruct (Csv.parse_process_char d self (Csv.Ch c)) as [s1|] eqn:E;
      simpl in H; [|discriminate].
    eapply IH; [|exact H].
    eapply (process_char_chars d self s1 (Csv.Ch c)); [exact Hinv|exact Pc|exact E].
Qed.

Lemma read_rows_chars (d : Csv.dialect) (lines : list str) :
  Forall (Forall P) lines ->
  forall self rows, reader_chars self ->
  Csv.read_rows d self lines = Ok rows -> Forall (Forall (Forall P)) rows.
Proof.
  induction 1 as [|line lines Hline Hlines IH]; simpl; intros self rows Hinv H.
  - destruct (_ || _); injection H as <-; [|constructor].
    repeat constructor. apply save_field_chars, Hinv.
  - destruct (Csv.parse_chars d self line) as [s1|] eqn:E; simpl in H; [|discriminate].
    pose proof (parse_chars_chars d line Hline _ _ Hinv E) as Hs1.
    destruct (Csv.state_eqb (Csv.state s1) Csv.START_RECORD).
    + destruct (Csv.read_rows d Csv.parse_reset lines) as [rs|] eqn:E2;
        simpl in H; [|discriminate].
      injection H as <-. constructor; [apply Hs1|].
      eapply IH; [|exact E2]. split; constructor.
    + eapply IH; [exact Hs1|exact H].
Qed.

Lemma aligned_rows_chars (lines : list str) :
  Forall (Forall P) lines -> Forall (Forall (Forall P)) (aligned_rows lines).
Proof.
  unfold aligned_rows.
  induction 1; simpl; constructor; auto using aligned_row_chars.
Qed.

Lemma reader_output_chars (lines : list str) (sn : Csv.sniffed)
      (rows : list (list str)) :
  Forall (Forall P) lines ->
  Csv.reader lines sn = Ok rows -> Forall (Forall (Forall P)) rows.
Proof.
  intros Hlines. unfold Csv.reader.
  destruct (Csv.dialect_of sn) as [d|]; simpl; [|discriminate].
  intros E. eapply (read_rows_chars d lines Hlines Csv.parse_reset rows); [|exact E].
  split; constructor.
Qed.

Lemma parse_text_to_rows_chars (text : str) (rows : list (list str)) :
  Forall (Forall P) (retained_lines text) ->
  parse_text_to_rows text = Ok rows -> Forall (Forall (Forall P)) rows.
Proof.
  intros Hlines. unfold parse_text_to_rows.
  destruct (negb (Csv.nonempty (retained_lines text))).
  { intros H. injection H as <-. constructor. }
  destruct (Py.contains TAB _).
  { intros H. injection H as <-. unfold tab_rows.
    induction Hlines; simpl; constructor; auto using split_chars. }
  unfold try_except, sniffed_rows.
  destruct (Csv.sniff _ _) as [sn|]; simpl.
  - destruct (Csv.reader (retained_lines text) sn) as [rs|] eqn:E.
    + intros H. injection H as <-.
      exact (reader_output_chars _ _ _ Hlines E).
    + intros H. injection H as <-. apply aligned_rows_chars, Hlines.
  - intros H. injection H as <-. apply aligned_rows_chars, Hlines.
Qed.

End Chars.

(** No line of [splitlines] contains a line boundary. *)
Lemma splitlines_no_linebreak (s : str) :
  Forall (Forall (fun c => Py.is_linebreak c = false)) (Py.splitlines s).
Proof.
  enough (H : Forall (Forall (fun c => Py.is_linebreak c = false)) (Py.splitlines s)
              /\ forall c, Forall (Forall (fun c => Py.is_linebreak c = false))
                                  (Py.splitlines (c :: s)))
    by apply H.
  induction s as [|a s [IH1 IH2]].
  - split; [constructor|]. intros c. simpl.
    destruct (Py.is_linebreak c) eqn:E; repeat constructor; exact E.
  - split; [apply IH2|]. intros c.
    change (Py.splitlines (c :: a :: s)) with
      (if Py.is_linebreak c
       then [] :: (if Ascii.eqb c CR && Ascii.eqb a LF
                   then Py.splitlines s else Py.splitlines (a :: s))
       else match Py.splitlines (a :: s) with
            | [] => [[c]]
            | l :: ls => (c :: l) :: ls
            end).
    destruct (Py.is_linebreak c) eqn:E.
    + constructor; [constructor|]. destruct (_ && _); [exact IH1|apply IH2].
    + specialize (IH2 a). destruct (Py.splitlines (a :: s)) as [|l ls].
      * repeat constructor; exact E.
      * inversion IH2; subst. repeat constructor; assumption.
Qed.

Lemma retained_lines_no_linebreak (text : str) :
  Forall (Forall (fun c => Py.is_linebreak c = false)) (retained_lines text).
Proof.
  unfold retained_lines. apply Forall_forall. intros ln Hin.
  apply filter_In in Hin as [Hin _].
  pose proof (splitlines_no_linebreak (Py.strip text)) as H.
  rewrite Forall_forall in H. auto.
Qed.

(** C9.  No cell of any returned row contains a line-break character (a
    line boundary of [splitlines]: LF, VT, FF, CR, FS, GS, RS, NEL). *)
Theorem cells_have_no_line_break (text : str) (rows : list (list str)) :
  parse_text_to_rows text = Ok rows ->
  Forall (Forall (Forall (fun c => Py.is_linebreak c = false))) rows.
Proof.
  apply parse_text_to_rows_chars, retained_lines_no_linebreak.
Qed.

Lemma cells_have_no_line_break_witness :
  parse_text_to_rows open_quote_example = Ok [[lit "a"; lit "bc,d"]]
  /\ Forall (Forall (Forall (fun c => Py.is_linebreak c = false)))
            [[lit "a"; lit "bc,d"]].
Proof.
  split; [vm_compute; reflexivity|].
  apply (cells_have_no_line_break open_quote_example).
  vm_compute. reflexivity.
Defined.

(** ** The aligned fallback *)

Lemma star_greedy_isspace_head (env : Re.captures) (s : str) :
  forall prev, exists q tl,
    Re.star_greedy Py.isspace env prev s = (env, q, Py.lstrip s) :: tl.
Proof.
  induction s as [|c s IH]; intros prev; simpl.
  - exists prev, []. reflexivity.
  - destruct (Py.isspace c).
    + destruct (IH (Some c)) as [q [tl E]]. rewrite E.
      exists q, (tl ++ [(env, prev, c :: s)]). reflexivity.
    + exists prev, []. reflexivity.
Qed.

Lemma rmatch_ws2 (prev : option ascii) (s : str) :
  match ws2_rest s with
  | Some t => exists e q tl,
      Re.rmatch two_or_more_spaces [] prev s = (e, q, t) :: tl
  | None => Re.rmatch two_or_more_spaces [] prev s = []
  end.
Proof.
  destruct s as [|c1 [|c2 s]]; simpl; try reflexivity.
  - destruct (Py.isspace c1); reflexivity.
  - destruct (Py.isspace c1); simpl; [|reflexivity].
    destruct (Py.isspace c2); simpl; [|reflexivity].
    destruct (star_greedy_isspace_head [] s (Some c2)) as [q [tl E]].
    rewrite E. simpl. eauto.
Qed.

Lemma split_from_ws2_prev (s : str) (k : nat) (cur : str)
      (prev prev' : option ascii) :
  Re.split_from two_or_more_spaces prev s k cur
  = Re.split_from two_or_more_spaces prev' s k cur.
Proof.
  destruct s as [|c s]; [reflexivity|].
  destruct k as [|k]; [|reflexivity].
  cbn [Re.split_from].
  pose proof (rmatch_ws2 prev (c :: s)) as H1.
  pose proof (rmatch_ws2 prev' (c :: s)) as H2.
  destruct (ws2_rest (c :: s)) as [t|].
  - destruct H1 as [e1 [q1 [tl1 E1]]], H2 as [e2 [q2 [tl2 E2]]].
    rewrite E1, E2. reflexivity.
  - rewrite H1, H2. reflexivity.
Qed.

Lemma split_from_ws2_skip (k : nat) :
  forall (s cur : str) (prev : option ascii),
    k <= length s ->
    Re.split_from two_or_more_spaces prev s k cur
    = Re.split_from two_or_more_spaces None (skipn k s) 0 cur.
Proof.
  induction k as [|k IH]; intros s cur prev Hk.
  - apply split_from_ws2_prev.
  - destruct s as [|c s]; simpl in Hk; [lia|].
    cbn [Re.split_from skipn]. apply IH. lia.
Qed.

Lemma lstrip_decomp (s : str) :
  exists ws, s = ws ++ Py.lstrip s /\ forallb Py.isspace ws = true.
Proof.
  induction s as [|c s [ws [E H]]]; simpl.
  - exists []. split; reflexivity.
  - destruct (Py.isspace c) eqn:Ec.
    + exists (c :: ws). split; [simpl; f_equal; exact E|].
      simpl. rewrite Ec. exact H.
    + exists []. split; reflexivity.
Qed.

Lemma lstrip_starts (s : str) : starts_with_ws (Py.lstrip s) = false.
Proof.
  induction s as [|c s IH]; simpl; [reflexivity|].
  destruct (Py.isspace c) eqn:E; [exact IH|]. simpl. exact E.
Qed.

Lemma ends_with_ws_snoc (s : str) (c : ascii) :
  ends_with_ws (s ++ [c]) = Py.isspace c.
Proof. unfold ends_with_ws. rewrite rev_unit. reflexivity. Qed.

Lemma ends_with_ws_cons (a : ascii) (s : str) :
  s <> [] -> ends_with_ws (a :: s) = ends_with_ws s.
Proof.
  intros Hs. unfold ends_with_ws. simpl.
  destruct (rev s) as [|x xs] eqn:E; [|reflexivity].
  apply (f_equal (@rev ascii)) in E. rewrite rev_involutive in E. contradiction.
Qed.

Lemma has_ws_pair_snoc (s : str) (c : ascii) :
  has_ws_pair (s ++ [c]) = has_ws_pair s || ends_with_ws s && Py.isspace c.
Proof.
  induction s as [|a s IH]; [reflexivity|].
  destruct s as [|b s].
  - simpl. unfold ends_with_ws. simpl. destruct (Py.isspace a && Py.isspace c); reflexivity.
  - change (has_ws_pair ((a :: b :: s) ++ [c]))
      with (Py.isspace a && Py.isspace b || has_ws_pair ((b :: s) ++ [c])).
    rewrite IH. rewrite (ends_with_ws_cons a (b :: s)) by discriminate.
    simpl. destruct (Py.isspace a && Py.isspace b); reflexivity.
Qed.

Lemma split_from_ws2_runs (n : nat) :
  forall (s cur : str) (prev : option ascii),
    length s <= n ->
    has_ws_pair cur = false ->
    (ends_with_ws cur = true -> starts_with_ws s = false) ->
    SplitRuns (cur ++ s) (Re.split_from two_or_more_spaces prev s 0 cur).
Proof.
  induction n as [|n IH]; intros s cur prev Hn Hcur Hend.
  - destruct s; simpl in Hn; [|lia]. rewrite app_nil_r. simpl.
    constructor. exact Hcur.
  - destruct s as [|c1 s1].
    { rewrite app_nil_r. simpl. constructor. exact Hcur. }
    cbn [Re.split_from].
    pose proof (rmatch_ws2 prev (c1 :: s1)) as Hm.
    destruct (ws2_rest (c1 :: s1)) as [t|] eqn:Ews.
    + destruct Hm as [e [q [tl Em]]]. rewrite Em.
      destruct s1 as [|c2 s']; [discriminate|]. simpl in Ews.
      destruct (Py.isspace c1) eqn:E1; [|discriminate].
      destruct (Py.isspace c2) eqn:E2; [|discriminate].
      simpl in Ews. injection Ews as <-.
      destruct (lstrip_decomp s') as [ws [Es Hws]].
      assert (Hlen : length s' = length ws + length (Py.lstrip s')).
      { rewrite Es at 1. apply length_app. }
      assert (Hk : length (c1 :: c2 :: s') - length (Py.lstrip s') - 1
                   = S (length ws)) by (cbn [length]; lia).
      rewrite Hk. rewrite split_from_ws2_skip by (cbn [length]; lia).
      replace (skipn (S (length ws)) (c2 :: s')) with (Py.lstrip s').
      2:{ cbn [skipn]. rewrite Es at 2.
          rewrite skipn_app, Nat.sub_diag, skipn_all. reflexivity. }
      replace (cur ++ c1 :: c2 :: s') with (cur ++ (c1 :: c2 :: ws) ++ Py.lstrip s').
      2:{ simpl. rewrite <- Es. reflexivity. }
      apply SplitRuns_cons.
      * exact Hcur.
      * destruct (ends_with_ws cur); [|reflexivity].
        specialize (Hend eq_refl). simpl in Hend. congruence.
      * simpl. rewrite E1, E2. exact Hws.
      * simpl. lia.
      * apply lstrip_starts.
      * change (Py.lstrip s') with ([] ++ Py.lstrip s') at 1.
        apply IH; [simpl in Hn; lia|reflexivity|discriminate].
    + rewrite Hm.
      replace (cur ++ c1 :: s1) with ((cur ++ [c1]) ++ s1)
        by (rewrite <- app_assoc; reflexivity).
      apply IH; [simpl in Hn; lia| |].
      * rewrite has_ws_pair_snoc, Hcur. simpl.
        destruct (ends_with_ws cur); [|reflexivity].
        specialize (Hend eq_refl). simpl in Hend. rewrite Hend. reflexivity.
      * rewrite ends_with_ws_snoc. intros E1.
        destruct s1 as [|c2 s']; [reflexivity|]. simpl in *.
        rewrite E1 in Ews. simpl in Ews. destruct (Py.isspace c2); [discriminate|reflexivity].
Qed.

(** The pieces [re.split] makes with the pattern [\s{2,}]. *)
Lemma re_split_runs (s : str) : SplitRuns s (Re.split two_or_more_spaces s).
Proof.
  unfold Re.split. apply (split_from_ws2_runs (length s) s [] None);
    [lia|reflexivity|discriminate].
Qed.

Lemma SplitRuns_nonempty (s : str) (cells : list str) :
  SplitRuns s cells -> cells <> [].
Proof. destruct 1; discriminate. Qed.

Lemma lstrip_fixed (s : str) : starts_with_ws s = false -> Py.lstrip s = s.
Proof. destruct s as [|c s]; simpl; [reflexivity|]. intros ->. reflexivity. Qed.

Lemma rstrip_fixed (s : str) : ends_with_ws s = false -> Py.rstrip s = s.
Proof.
  unfold ends_with_ws, Py.rstrip. intros H.
  rewrite (lstrip_fixed _ H). apply rev_involutive.
Qed.

Lemma lstrip_app_nonspace (l m : str) (c : ascii) :
  Py.isspace c = false -> Py.lstrip (l ++ c :: m) = Py.lstrip l ++ c :: m.
Proof.
  intros Hc. induction l as [|a l IH]; simpl.
  - rewrite Hc. reflexivity.
  - destruct (Py.isspace a); [exact IH|reflexivity].
Qed.

Lemma rstrip_ends (s : str) : ends_with_ws (Py.rstrip s) = false.
Proof.
  unfold ends_with_ws, Py.rstrip. rewrite rev_involutive. apply lstrip_starts.
Qed.

Lemma rstrip_starts (s : str) :
  starts_with_ws s = false -> starts_with_ws (Py.rstrip s) = false.
Proof.
  destruct s as [|c s]; [reflexivity|]. simpl. intros Hc.
  unfold Py.rstrip. simpl. rewrite (lstrip_app_nonspace _ [] c Hc).
  rewrite rev_app_distr. simpl. exact Hc.
Qed.

Lemma strip_starts (s : str) : starts_with_ws (Py.strip s) = false.
Proof. apply rstrip_starts, lstrip_starts. Qed.

Lemma strip_ends (s : str) : ends_with_ws (Py.strip s) = false.
Proof. apply rstrip_ends. Qed.

(** A text with no whitespace at either end is left alone by [strip], and
    [strip] leaves no whitespace at either end. *)
Lemma strip_fixed (s : str) :
  starts_with_ws s = false -> ends_with_ws s = false -> Py.strip s = s.
Proof.
  intros Hs He. unfold Py.strip. rewrite (lstrip_fixed s Hs). apply rstrip_fixed, He.
Qed.

Lemma strip_idempotent (s : str) : Py.strip (Py.strip s) = Py.strip s.
Proof. apply strip_fixed; [apply strip_starts|apply strip_ends]. Qed.

Lemma ws2_rest_no_pair (s : str) : has_ws_pair s = false -> ws2_rest s = None.
Proof.
  destruct s as [|c1 [|c2 s]]; simpl; try reflexivity.
  intros H. apply orb_false_elim in H as [-> _]. reflexivity.
Qed.

Lemma has_ws_pair_tail (c : ascii) (s : str) :
  has_ws_pair (c :: s) = false -> has_ws_pair s = false.
Proof.
  destruct s as [|c2 s]; [reflexivity|].
  intros H. change (Py.isspace c && Py.isspace c2 || has_ws_pair (c2 :: s) = false) in H.
  apply orb_false_elim in H as [_ H]. exact H.
Qed.

(** Without two adjacent whitespace characters there is a single piece. *)
Lemma split_from_ws2_one_piece (s : str) :
  has_ws_pair s = false ->
  forall (cur : str) (prev : option ascii),
    Re.split_from two_or_more_spaces prev s 0 cur = [cur ++ s].
Proof.
  induction s as [|c s IH]; intros H cur prev.
  - rewrite app_nil_r. reflexivity.
  - cbn [Re.split_from].
    pose proof (rmatch_ws2 prev (c :: s)) as Hm.
    rewrite (ws2_rest_no_pair _ H) in Hm. rewrite Hm.
    rewrite (IH (has_ws_pair_tail c s H)). rewrite <- app_assoc. reflexivity.
Qed.

Lemma aligned_row_one_cell (ln : str) :
  has_ws_pair (Py.strip ln) = false -> aligned_row ln = [Py.strip ln].
Proof.
  intros H. unfold aligned_row, Re.split.
  rewrite (split_from_ws2_one_piece _ H). simpl. rewrite strip_idempotent. reflexivity.
Qed.

Lemma aligned_row_nonempty (ln : str) : aligned_row ln <> [].
Proof.
  unfold aligned_row.
  pose proof (SplitRuns_nonempty _ _ (re_split_runs (Py.strip ln))) as H.
  destruct (Re.split two_or_more_spaces (Py.strip ln)); [contradiction|discriminate].
Qed.

Lemma aligned_row_trimmed (ln : str) :
  Forall (fun cell => Py.strip cell = cell) (aligned_row ln).
Proof.
  unfold aligned_row. apply Forall_forall. intros cell Hin.
  apply in_map_iff in Hin as [x [<- _]]. apply strip_idempotent.
Qed.

(** Two classes that agree on the characters of a text split it alike. *)
Section Agree.
Variables p q : ascii -> bool.

Lemma star_greedy_agree (env : Re.captures) (s : str) :
  Forall (fun c => p c = q c) s ->
  forall prev, Re.star_greedy p env prev s = Re.star_greedy q env prev s.
Proof.
  induction 1 as [|c s Hc Hs IH]; intros prev; simpl; [reflexivity|].
  rewrite Hc, IH. reflexivity.
Qed.

Lemma at_least_agree (n : nat) :
  forall (env : Re.captures) (prev : option ascii) (s : str),
    Forall (fun c => p c = q c) s ->
    Re.rmatch (Re.at_least n p) env prev s = Re.rmatch (Re.at_least n q) env prev s.
Proof.
  induction n as [|n IH]; intros env prev s H; simpl.
  - apply star_greedy_agree, H.
  - destruct H as [|c s Hc Hs]; [reflexivity|].
    rewrite Hc. destruct (q c); [|reflexivity]. simpl. rewrite (IH _ _ _ Hs). reflexivity.
Qed.

Lemma split_from_agree (n : nat) (s : str) :
  Forall (fun c => p c = q c) s ->
  forall (prev : option ascii) (k : nat) (cur : str),
    Re.split_from (Re.at_least n p) prev s k cur
    = Re.split_from (Re.at_least n q) prev s k cur.
Proof.
  induction 1 as [|c s Hc Hs IH]; intros prev k cur; [reflexivity|].
  cbn [Re.split_from]. destruct k as [|k]; [|apply IH].
  rewrite (at_least_agree n [] prev (c :: s)) by (constructor; assumption).
  destruct (Re.rmatch (Re.at_least n q) [] prev (c :: s)) as [|[[e r] t] tl];
    rewrite IH; reflexivity.
Qed.

End Agree.

Lemma isspace_SPACE (c : ascii) :
  (Py.isspace c = true -> c = SPACE) -> Py.isspace c = Ascii.eqb SPACE c.
Proof.
  intros H. destruct (Py.isspace c) eqn:E.
  - rewrite (H eq_refl). reflexivity.
  - symmetry. apply Ascii.eqb_neq. intros <-. discriminate E.
Qed.

(** On a line whose only whitespace is the space character, the fallback is
    the split on runs of two or more spaces. *)
Lemma aligned_row_spaces_only (ln : str) :
  Forall (fun c => Py.isspace c = true -> c = SPACE) ln ->
  aligned_row ln = spec_aligned_row ln.
Proof.
  intros H. unfold aligned_row, spec_aligned_row, Re.split.
  unfold two_or_more_spaces, two_or_more_space_chars.
  rewrite (split_from_agree Py.isspace (Ascii.eqb SPACE) 2 (Py.strip ln));
    [reflexivity|].
  apply strip_chars. revert H. apply Forall_impl. intros c. apply isspace_SPACE.
Qed.

(** ** The function never raises *)

(** C4.  [parse_text_to_rows] returns a table for every text.  Whatever
    exception the sniffed strategy raises (no delimiter found, or an error
    while sniffing or reading) is absorbed: the result is then the table of
    the aligned fallback, in which every line gives at least one cell, and a
    line without two adjacent whitespace characters gives exactly one. *)
Theorem parse_text_to_rows_never_raises (text : str) (e : exn) :
  (exists rows, parse_text_to_rows text = Ok rows)
  /\ (Py.contains TAB (sample_of (retained_lines text)) = false ->
      sniffed_rows (retained_lines text) (sample_of (retained_lines text)) = Raise e ->
      parse_text_to_rows text = Ok (aligned_rows (retained_lines text)))
  /\ Forall (fun ln =>
               aligned_row ln <> []
               /\ (has_ws_pair (Py.strip ln) = false -> aligned_row ln = [Py.strip ln]))
            (retained_lines text).
Proof.
  split; [|split].
  - unfold parse_text_to_rows.
    destruct (negb _); [eauto|]. destruct (Py.contains _ _); [eauto|].
    destruct (sniffed_rows _ _); simpl; eauto.
  - intros Htab Hraise. unfold parse_text_to_rows.
    destruct (retained_lines text) as [|l ls]; [reflexivity|].
    cbn [Csv.nonempty negb]. rewrite Htab, Hraise. reflexivity.
  - apply Forall_forall. intros ln _. split.
    + apply aligned_row_nonempty.
    + apply aligned_row_one_cell.
Qed.

Lemma parse_text_to_rows_never_raises_witness :
  Py.contains TAB (sample_of (retained_lines prose_example)) = false
  /\ sniffed_rows (retained_lines prose_example)
                  (sample_of (retained_lines prose_example))
     = Raise (CsvError "Could not determine delimiter")
  /\ parse_text_to_rows prose_example
     = Ok [[lit "no delimiter here"]; [lit "just words"]].
Proof.
  split; [reflexivity|]. split; [reflexivity|].
  exact (proj1 (proj2 (parse_text_to_rows_never_raises prose_example
                         (CsvError "Could not determine delimiter")))
               eq_refl eq_refl).
Defined.

(** ** The aligned fallback splits on whitespace runs *)

(** C3, as the code has it.  When the sample has no tab and the sniffed
    strategy raises, every retained line is split at its maximal runs of two
    or more whitespace characters (the class [\s], not the space character
    alone); one whitespace character never splits; every cell is trimmed;
    every line gives at least one cell.  On a line whose only whitespace is
    the space character, this is the split on runs of two or more spaces. *)
Theorem aligned_fallback_splits_on_whitespace_runs (text : str) (e : exn) :
  Py.contains TAB (sample_of (retained_lines text)) = false ->
  sniffed_rows (retained_lines text) (sample_of (retained_lines text)) = Raise e ->
  parse_text_to_rows text = Ok (map aligned_row (retained_lines text))
  /\ Forall (fun ln =>
       (exists pieces, SplitRuns (Py.strip ln) pieces
                       /\ aligned_row ln = map Py.strip pieces)
       /\ aligned_row ln <> []
       /\ Forall (fun cell => Py.strip cell = cell) (aligned_row ln)
       /\ (Forall (fun c => Py.isspace c = true -> c = SPACE) ln ->
           aligned_row ln = spec_aligned_row ln))
     (retained_lines text).
Proof.
  intros Htab Hraise. split.
  - unfold parse_text_to_rows.
    destruct (retained_lines text) as [|l ls]; [reflexivity|].
    cbn [Csv.nonempty negb]. rewrite Htab, Hraise. reflexivity.
  - apply Forall_forall. intros ln _. repeat split.
    + exists (Re.split two_or_more_spaces (Py.strip ln)).
      split; [apply re_split_runs|reflexivity].
    + apply aligned_row_nonempty.
    + apply aligned_row_trimmed.
    + apply aligned_row_spaces_only.
Qed.

Lemma aligned_fallback_splits_on_whitespace_runs_witness :
  Py.contains TAB (sample_of (retained_lines aligned_example)) = false
  /\ sniffed_rows (retained_lines aligned_example)
                  (sample_of (retained_lines aligned_example))
     = Raise (CsvError "Could not determine delimiter")
  /\ parse_text_to_rows aligned_example
     = Ok [[lit "Name"; lit "Age"; lit "City"];
           [lit "Ann Lee"; lit "31"; lit "New York"]].
Proof.
  split; [reflexivity|]. split; [reflexivity|].
  exact (proj1 (aligned_fallback_splits_on_whitespace_runs aligned_example
                  (CsvError "Could not determine delimiter") eq_refl eq_refl)).
Defined.

(** C3 as stated fails.  The line [a], two no-break spaces, [b] has no tab,
    no candidate delimiter and no space character; the specification's
    split on runs of spaces leaves it whole, the code's [\s{2,}] splits it at
    the two no-break spaces. *)
Lemma aligned_fallback_splits_on_nbsp :
  Py.contains TAB (sample_of (retained_lines nbsp_example)) = false
  /\ Csv.sniff (sample_of (retained_lines nbsp_example)) (lit ",;|")
     = Raise (CsvError "Could not determine delimiter")
  /\ Py.contains SPACE nbsp_example = false
  /\ map spec_aligned_row (retained_lines nbsp_example) = [[nbsp_example]]
  /\ parse_text_to_rows nbsp_example = Ok [[lit "a"; lit "b"]].
Proof. repeat split; reflexivity. Qed.

(** ** The serializer *)

Section Writer.
Variable sep : ascii.

Local Abbreviation d := (Csv.excel sep).

Lemma writer_dialect_one_char : Csv.writer_dialect [sep] = Ok d.
Proof. reflexivity. Qed.

Lemma join_chars_count (data : str) :
  forall (r : str) (q : bool),
    Csv.join_chars d false data r q = Ok (r, q || needs_quote sep data).
Proof.
  induction data as [|c data IH]; intros r q; simpl.
  - rewrite orb_false_r. reflexivity.
  - rewrite orb_false_r.
    destruct (Ascii.eqb c sep), (Ascii.eqb c DQUOTE), (Ascii.eqb c CR),
      (Ascii.eqb c LF); simpl; rewrite IH; simpl;
      rewrite ?orb_true_r; reflexivity.
Qed.

Lemma join_chars_copy (data : str) :
  forall (r : str) (q : bool),
    Csv.join_chars d true data r q
    = Ok (r ++ double_quotes data, q || needs_quote sep data).
Proof.
  induction data as [|c data IH]; intros r q; simpl.
  - rewrite orb_false_r, app_nil_r. reflexivity.
  - rewrite orb_false_r.
    destruct (Ascii.eqb c DQUOTE) eqn:EQ.
    + apply Ascii.eqb_eq in EQ. subst c.
      destruct (Ascii.eqb DQUOTE sep); simpl; rewrite IH; simpl;
        rewrite <- !app_assoc, ?orb_true_r; reflexivity.
    + destruct (Ascii.eqb c sep), (Ascii.eqb c CR), (Ascii.eqb c LF);
        simpl; rewrite IH; simpl; rewrite <- !app_assoc, ?orb_true_r;
        reflexivity.
Qed.

Lemma double_quotes_plain (cell : str) :
  needs_quote sep cell = false -> double_quotes cell = cell.
Proof.
  induction cell as [|c cell IH]; simpl; [reflexivity|].
  intros H. apply orb_false_elim in H as [Hc Hcell].
  destruct (Ascii.eqb c DQUOTE).
  - rewrite orb_true_r in Hc. discriminate.
  - simpl. rewrite (IH Hcell). reflexivity.
Qed.

Lemma join_append_field (self : Csv.WriterObj) (fld : str) :
  Csv.join_append d self (Some fld) false
  = Ok {| Csv.rec := Csv.rec self
                     ++ (if (0 <? Csv.num_fields self)%nat then [sep] else [])
                     ++ render_cell sep fld;
          Csv.num_fields := S (Csv.num_fields self) |}.
Proof.
  unfold Csv.join_append, Csv.join_append_data. simpl.
  rewrite join_chars_count. simpl.
  rewrite join_chars_copy. simpl.
  unfold render_cell, Csv.ADDCH.
  destruct (needs_quote sep fld) eqn:E; simpl.
  - destruct (0 <? Csv.num_fields self)%nat; simpl;
      rewrite <- ?app_assoc; simpl; rewrite <- ?app_assoc; reflexivity.
  - rewrite (double_quotes_plain fld E).
    destruct (0 <? Csv.num_fields self)%nat; simpl;
      rewrite <- ?app_assoc; reflexivity.
Qed.

Lemma join_fields_more (row : list str) :
  forall self : Csv.WriterObj,
    (0 < Csv.num_fields self)%nat ->
    Csv.join_fields d self row
    = Ok {| Csv.rec := Csv.rec self
                       ++ flat_map (fun c => sep :: render_cell sep c) row;
            Csv.num_fields := Csv.num_fields self + length row |}.
Proof.
  induction row as [|c row IH]; intros self Hn; simpl.
  - rewrite app_nil_r, Nat.add_0_r. destruct self; reflexivity.
  - rewrite join_append_field. simpl.
    rewrite IH by (simpl; lia). simpl.
    apply Nat.ltb_lt in Hn. rewrite Hn. simpl.
    rewrite <- app_assoc. simpl. rewrite Nat.add_succ_r. reflexivity.
Qed.

Lemma join_flat (x : str) (xs : list str) :
  Py.join [sep] (x :: xs) = x ++ flat_map (fun y => sep :: y) xs.
Proof.
  revert x. induction xs as [|y ys IH]; intros x.
  - simpl. rewrite app_nil_r. reflexivity.
  - change (Py.join [sep] (x :: y :: ys)) with (x ++ [sep] ++ Py.join [sep] (y :: ys)).
    rewrite IH. reflexivity.
Qed.

Lemma flat_map_render (row : list str) :
  flat_map (fun c => sep :: render_cell sep c) row
  = flat_map (fun y => sep :: y) (map (render_cell sep) row).
Proof. induction row as [|c row IH]; simpl; [|rewrite IH]; reflexivity. Qed.

Lemma render_cell_empty (cell : str) : render_cell sep cell = [] -> cell = [].
Proof.
  unfold render_cell. destruct (needs_quote sep cell); [discriminate|auto].
Qed.

(** One row, as the writer renders it. *)
Lemma writerow_renders (row : list str) :
  Csv.writerow d row = Ok (render_row sep row).
Proof.
  unfold Csv.writerow. destruct row as [|c row]; [reflexivity|].
  cbn [Csv.join_fields]. rewrite join_append_field. cbn [bind].
  rewrite join_fields_more by (simpl; lia). cbn [bind].
  cbn [Csv.rec Csv.num_fields Csv.join_reset Nat.ltb Nat.leb app].
  rewrite flat_map_render, <- join_flat.
  change (0 <? 1 + length row)%nat with true. cbn [andb].
  destruct (Py.join [sep] (render_cell sep c :: map (render_cell sep) row))
    as [|x xs] eqn:E.
  - rewrite join_flat in E. apply app_eq_nil in E as [Ec Er].
    apply render_cell_empty in Ec. subst c.
    destruct row; [reflexivity|discriminate].
  - cbn [Csv.nonempty negb bind Csv.rec].
    unfold render_row, spec_render_row. cbn [map]. rewrite E.
    destruct c as [|a c]; [|reflexivity].
    destruct row; [discriminate|reflexivity].
Qed.

Lemma write_text_renders (rows : list (list str)) :
  write_text d rows = Ok (concat (map (render_row sep) rows)).
Proof.
  induction rows as [|r rows IH]; simpl; [reflexivity|].
  rewrite writerow_renders, IH. reflexivity.
Qed.

End Writer.

(** C7, as the code has it.  For every table and one-character delimiter
    the bytes written are the UTF-8 encoding of the rows in order, each row
    being its cells joined by the delimiter and followed by CR LF.  A cell is
    written between quotes, with its quote characters doubled, exactly when
    it contains the delimiter, a quote character, CR or LF; and a row that
    consists of one empty cell is written as a pair of quotes. *)
Theorem write_rows_renders_rows (rows : list (list str)) (sep : ascii) :
  write_rows rows [sep] = Ok (utf8_encode (concat (map (render_row sep) rows))).
Proof.
  unfold write_rows. rewrite writer_dialect_one_char. cbn [bind].
  rewrite write_text_renders. reflexivity.
Qed.

(** C7 as stated fails.  The one cell of the row [['']] contains no
    delimiter, quote or line break, so it should be written unquoted and the
    row be an empty line; the writer writes a pair of quotes. *)
Lemma write_rows_quotes_lone_empty_cell :
  needs_quote COMMA [] = false
  /\ spec_serialize COMMA [[[]]] = map byte_of_ascii [CR; LF]
  /\ write_rows [[[]]] [COMMA] = Ok (map byte_of_ascii [DQUOTE; DQUOTE; CR; LF]).
Proof. repeat split; reflexivity. Qed.

(** ** The reader on lines without quotes *)

Section PlainLines.
Variable d : Csv.dialect.
Hypothesis delimiter_not_space : Csv.delimiter d <> SPACE.

Lemma skip_initial_nil : skip_initial (Csv.skipinitialspace d) [] = [].
Proof. destruct (Csv.skipinitialspace d); reflexivity. Qed.

Lemma split_cons_delim (s : str) :
  Py.split (Csv.delimiter d) (Csv.delimiter d :: s)
  = [] :: Py.split (Csv.delimiter d) s.
Proof. simpl. rewrite Ascii.eqb_refl. reflexivity. Qed.

Lemma split_cons_other (c : ascii) (s : str) :
  Ascii.eqb c (Csv.delimiter d) = false ->
  Py.split (Csv.delimiter d) (c :: s)
  = (c :: hd [] (Py.split (Csv.delimiter d) s))
      :: tl (Py.split (Csv.delimiter d) s).
Proof.
  intros E. simpl. rewrite E.
  pose proof (split_nonempty (Csv.delimiter d) s) as H.
  destruct (Py.split (Csv.delimiter d) s); [contradiction|reflexivity].
Qed.

Lemma split_hd_tl (s : str) :
  Py.split (Csv.delimiter d) s
  = hd [] (Py.split (Csv.delimiter d) s) :: tl (Py.split (Csv.delimiter d) s).
Proof.
  pose proof (split_nonempty (Csv.delimiter d) s) as H.
  destruct (Py.split (Csv.delimiter d) s); [contradiction|reflexivity].
Qed.

Lemma of_nat_length_snoc (cur : str) (c : ascii) :
  (N.of_nat (length cur) + 1)%N = N.of_nat (length (cur ++ [c])).
Proof. rewrite length_app. simpl. lia. Qed.

(** Reading the rest of a line: [A] at the start of a field, [B] inside an
    unquoted field that holds [cur]. *)
Lemma parse_chars_plain (rest : str) :
  Forall (fun c => plain_char d c = true) rest ->
  (forall fs,
      fits (plain_row d rest) ->
      Csv.parse_chars d
        {| Csv.fields := fs; Csv.field := []; Csv.field_len := 0;
           Csv.state := Csv.START_FIELD |} rest
      = Ok {| Csv.fields := fs ++ plain_row d rest; Csv.field := [];
              Csv.field_len := 0; Csv.state := Csv.START_RECORD |})
  /\ (forall fs cur,
      (N.of_nat (length (cur ++ hd [] (Py.split (Csv.delimiter d) rest)))
       <= Csv.field_limit)%N ->
      fits (map (skip_initial (Csv.skipinitialspace d))
                (tl (Py.split (Csv.delimiter d) rest))) ->
      Csv.parse_chars d
        {| Csv.fields := fs; Csv.field := cur;
           Csv.field_len := N.of_nat (length cur);
           Csv.state := Csv.IN_FIELD |} rest
      = Ok {| Csv.fields :=
                fs ++ (cur ++ hd [] (Py.split (Csv.delimiter d) rest))
                   :: map (skip_initial (Csv.skipinitialspace d))
                          (tl (Py.split (Csv.delimiter d) rest));
              Csv.field := []; Csv.field_len := 0;
              Csv.state := Csv.START_RECORD |}).
Proof.
  induction 1 as [|c rest Hc Hrest [IHA IHB]].
  - split.
    + intros fs _. unfold plain_row. simpl. rewrite skip_initial_nil. reflexivity.
    + intros fs cur _ _. simpl. rewrite app_nil_r. reflexivity.
  - unfold plain_char in Hc. apply negb_true_iff in Hc.
    apply orb_false_elim in Hc as [Hc Hcr]. apply orb_false_elim in Hc as [Hq Hlf].
    split.
    + intros fs Hfit. cbn [Csv.parse_chars Csv.parse_process_char Csv.state].
      unfold Csv.start_field. cbn [Csv.is_newline]. rewrite Hlf, Hcr, Hq. cbn [orb].
      destruct (Ascii.eqb c SPACE && Csv.skipinitialspace d) eqn:Esk.
      * apply andb_prop in Esk as [Esp Esk]. apply Ascii.eqb_eq in Esp. subst c.
        cbn [bind]. unfold plain_row in *.
        assert (Ed : Ascii.eqb SPACE (Csv.delimiter d) = false).
        { apply Ascii.eqb_neq. intros E. apply delimiter_not_space. symmetry. exact E. }
        rewrite (split_cons_other SPACE rest Ed) in *.
        rewrite Esk in *. cbn [map skip_initial lstrip_spaces] in *.
        rewrite Ascii.eqb_refl in *.
        rewrite IHA.
        -- rewrite (split_hd_tl rest) at 1. reflexivity.
        -- rewrite (split_hd_tl rest). exact Hfit.
      * destruct (Ascii.eqb c (Csv.delimiter d)) eqn:Ed.
        -- apply Ascii.eqb_eq in Ed. subst c. cbn [bind].
           unfold plain_row in *. rewrite split_cons_delim in *.
           cbn [map] in *. rewrite skip_initial_nil in *.
           unfold Csv.parse_save_field. cbn [Csv.fields Csv.field Csv.state].
           inversion Hfit; subst.
           rewrite IHA by assumption. rewrite <- app_assoc. reflexivity.
        -- unfold Csv.parse_add_char. cbn [Csv.field_len].
           change (Csv.field_limit <=? 0)%N with false. cbn [bind Csv.set_state
             Csv.fields Csv.field Csv.field_len Csv.state app].
           unfold plain_row in *. rewrite (split_cons_other c rest Ed) in *.
           cbn [map] in *.
           assert (Ef : skip_initial (Csv.skipinitialspace d)
                          (c :: hd [] (Py.split (Csv.delimiter d) rest))
                        = c :: hd [] (Py.split (Csv.delimiter d) rest)).
           { destruct (Csv.skipinitialspace d); [|reflexivity]. simpl.
             rewrite andb_true_r in Esk. rewrite Esk. reflexivity. }
           rewrite Ef in *. inversion Hfit; subst.
           exact (IHB fs [c] ltac:(assumption) ltac:(assumption)).
    + intros fs cur Hlen Hfit.
      cbn [Csv.parse_chars Csv.parse_process_char Csv.state].
      cbn [Csv.is_newline]. rewrite Hlf, Hcr. cbn [orb].
      destruct (Ascii.eqb c (Csv.delimiter d)) eqn:Ed.
      * apply Ascii.eqb_eq in Ed. subst c. cbn [bind].
        rewrite split_cons_delim in *. cbn [hd tl] in *.
        unfold Csv.parse_save_field, Csv.set_state.
        cbn [Csv.fields Csv.field Csv.state Csv.field_len].
        rewrite IHA by exact Hfit. unfold plain_row.
        rewrite <- (app_assoc fs [cur]), (app_nil_r cur). reflexivity.
      * rewrite (split_cons_other c rest Ed) in *. cbn [hd tl] in *.
        unfold Csv.parse_add_char. cbn [Csv.field_len Csv.fields Csv.field Csv.state].
        assert (Hlt : (Csv.field_limit <=? N.of_nat (length cur))%N = false).
        { apply N.leb_gt. rewrite length_app in Hlen. simpl in Hlen. lia. }
        rewrite Hlt. cbn [bind]. rewrite (of_nat_length_snoc cur c).
        rewrite IHB.
        -- rewrite <- app_assoc. reflexivity.
        -- rewrite <- app_assoc. exact Hlen.
        -- exact Hfit.
Qed.

(** A non-empty line without quotes is read as one row. *)
Lemma parse_chars_line (line : str) :
  line <> [] ->
  Forall (fun c => plain_char d c = true) line ->
  fits (plain_row d line) ->
  Csv.parse_chars d Csv.parse_reset line
  = Ok {| Csv.fields := plain_row d line; Csv.field := [];
          Csv.field_len := 0; Csv.state := Csv.START_RECORD |}.
Proof.
  intros Hne Hplain Hfit.
  destruct (parse_chars_plain line Hplain) as [HA _].
  specialize (HA [] Hfit). cbn [app] in HA. rewrite <- HA.
  destruct line as [|c rest]; [contradiction|].
  inversion Hplain as [|? ? Hc _]; subst.
  unfold plain_char in Hc. apply negb_true_iff in Hc.
  apply orb_false_elim in Hc as [Hc Hcr]. apply orb_false_elim in Hc as [_ Hlf].
  cbn [Csv.parse_chars Csv.parse_process_char Csv.state Csv.parse_reset
       Csv.is_newline]. rewrite Hlf, Hcr. reflexivity.
Qed.

Lemma read_rows_plain (lines : list str) :
  Forall (fun ln => ln <> []
                    /\ Forall (fun c => plain_char d c = true) ln
                    /\ fits (plain_row d ln)) lines ->
  Csv.read_rows d Csv.parse_reset lines = Ok (map (plain_row d) lines).
Proof.
  induction 1 as [|ln lines [Hne [Hplain Hfit]] Hlines IH]; [reflexivity|].
  cbn [Csv.read_rows map]. rewrite (parse_chars_line ln Hne Hplain Hfit).
  cbn [bind Csv.state Csv.state_eqb Csv.fields]. rewrite IH. reflexivity.
Qed.

End PlainLines.

(** ** No pattern of the program matches the empty string *)

Lemma star_greedy_shorter (p : ascii -> bool) (env : Re.captures) (s : str) :
  forall prev th, In th (Re.star_greedy p env prev s) -> length (snd th) <= length s.
Proof.
  induction s as [|c s IH]; intros prev th Hin; simpl in Hin.
  - destruct Hin as [<-|[]]. simpl. lia.
  - destruct (p c).
    + apply in_app_or in Hin as [Hin|[<-|[]]]; [|simpl; lia].
      specialize (IH _ _ Hin). simpl. lia.
    + destruct Hin as [<-|[]]. simpl. lia.
Qed.

Lemma star_lazy_shorter (p : ascii -> bool) (env : Re.captures) (s : str) :
  forall prev th, In th (Re.star_lazy p env prev s) -> length (snd th) <= length s.
Proof.
  induction s as [|c s IH]; intros prev th Hin; simpl in Hin.
  - destruct Hin as [<-|[]]. simpl. lia.
  - destruct Hin as [<-|Hin]; [simpl; lia|].
    destruct (p c); [|destruct Hin]. specialize (IH _ _ Hin). simpl. lia.
Qed.

(** A match never ends before it starts. *)
Lemma rmatch_shorter (r : Re.re) :
  forall env prev s th,
    In th (Re.rmatch r env prev s) -> length (snd th) <= length s.
Proof.
  induction r as [|p| | |a IHa b IHb|a IHa b IHb|a IHa|p|p|name a IHa|name];
    intros env prev s th Hin; simpl in Hin.
  - destruct Hin as [<-|[]]. simpl. lia.
  - destruct s as [|c s]; [destruct Hin|].
    destruct (p c); [|destruct Hin]. destruct Hin as [<-|[]]. simpl. lia.
  - destruct (Re.at_bol prev); [|destruct Hin]. destruct Hin as [<-|[]]. simpl. lia.
  - destruct (Re.at_eol s); [|destruct Hin]. destruct Hin as [<-|[]]. simpl. lia.
  - apply in_flat_map in Hin as [[[e1 p1] t1] [H1 H2]].
    specialize (IHa _ _ _ _ H1). specialize (IHb _ _ _ _ H2). simpl in IHa. lia.
  - apply in_app_or in Hin as [Hin|Hin]; eauto.
  - apply in_app_or in Hin as [Hin|[<-|[]]]; [eauto|simpl; lia].
  - eapply star_greedy_shorter; eauto.
  - eapply star_lazy_shorter; eauto.
  - apply in_map_iff in Hin as [[[e1 p1] t1] [<- H1]].
    exact (IHa _ _ _ _ H1).
  - destruct (Py.get String.eqb name env) as [t|]; [|destruct Hin].
    destruct (Py.startswith t s); [|destruct Hin].
    destruct Hin as [<-|[]]. simpl. rewrite length_skipn. lia.
Qed.

Lemma rmatch_Seq (a b : Re.re) (env : Re.captures) (prev : option ascii) (s : str) :
  Re.rmatch (Re.Seq a b) env prev s
  = flat_map (fun th : Re.thread => let '(e, p, t) := th in Re.rmatch b e p t)
             (Re.rmatch a env prev s).
Proof. reflexivity. Qed.

Lemma seq_chr_consumes (p : ascii -> bool) (b : Re.re) :
  forall env prev s th,
    In th (Re.rmatch (Re.Seq (Re.Chr p) b) env prev s) ->
    length (snd th) < length s.
Proof.
  intros env prev s th Hin. simpl in Hin.
  destruct s as [|c s]; [destruct Hin|].
  destruct (p c); [|destruct Hin]. simpl in Hin. rewrite app_nil_r in Hin.
  apply rmatch_shorter in Hin. simpl. lia.
Qed.

Lemma seq_group_chr_consumes (name : string) (p : ascii -> bool) (b : Re.re) :
  forall env prev s th,
    In th (Re.rmatch (Re.Seq (Re.Group name (Re.Chr p)) b) env prev s) ->
    length (snd th) < length s.
Proof.
  intros env prev s th Hin. simpl in Hin.
  destruct s as [|c s]; [destruct Hin|].
  destruct (p c); [|destruct Hin]. simpl in Hin. rewrite app_nil_r in Hin.
  apply rmatch_shorter in Hin. simpl. lia.
Qed.

(** Every match of a pattern of [_guess_quote_and_delimiter] takes at
    least one character, and every match of [\s{2,}] at least two: the scans
    of [findall] and [split] always move on. *)
Lemma restrs_consume (r : Re.re) :
  In r Csv.restrs ->
  forall env prev s th,
    In th (Re.rmatch r env prev s) -> length (snd th) < length s.
Proof.
  intros Hr env prev s th Hin.
  unfold Csv.restrs, Re.cat in Hr. cbn [fold_right] in Hr.
  destruct Hr as [<-|[<-|[<-|[<-|[]]]]].
  - exact (seq_group_chr_consumes _ _ _ _ _ _ _ Hin).
  - rewrite rmatch_Seq in Hin.
    apply in_flat_map in Hin as [[[e1 p1] t1] [H1 H2]].
    apply rmatch_shorter in H1.
    apply (seq_group_chr_consumes "quote" Csv.quote_class) in H2.
    simpl in H1. lia.
  - exact (seq_group_chr_consumes _ _ _ _ _ _ _ Hin).
  - rewrite rmatch_Seq in Hin.
    apply in_flat_map in Hin as [[[e1 p1] t1] [H1 H2]].
    apply rmatch_shorter in H1.
    apply (seq_group_chr_consumes "quote" Csv.quote_class) in H2.
    simpl in H1. lia.
Qed.

Lemma two_or_more_spaces_consumes (env : Re.captures) (prev : option ascii)
      (s : str) (th : Re.thread) :
  In th (Re.rmatch two_or_more_spaces env prev s) ->
  length (snd th) + 2 <= length s.
Proof.
  unfold two_or_more_spaces. cbn [Re.at_least]. intros Hin.
  rewrite rmatch_Seq in Hin.
  apply in_flat_map in Hin as [[[e1 p1] t1] [H1 H2]].
  apply (seq_chr_consumes Py.isspace (Re.Star Py.isspace)) in H2.
  simpl in H1. destruct s as [|c1 s]; [destruct H1|].
  destruct (Py.isspace c1); [|destruct H1]. destruct H1 as [E|[]].
  injection E as <- <- <-. simpl in *. lia.
Qed.

(** ** The sniffer on a sample without quotes *)

Lemma star_greedy_rest (P : ascii -> Prop) (p : ascii -> bool)
      (env : Re.captures) (s : str) :
  Forall P s ->
  forall prev th, In th (Re.star_greedy p env prev s) -> Forall P (snd th).
Proof.
  induction 1 as [|c s Hc Hs IH]; intros prev th Hin; simpl in Hin.
  - destruct Hin as [<-|[]]. constructor.
  - destruct (p c).
    + apply in_app_or in Hin as [Hin|[<-|[]]]; [eapply IH; exact Hin|].
      constructor; assumption.
    + destruct Hin as [<-|[]]. constructor; assumption.
Qed.

Lemma star_lazy_rest (P : ascii -> Prop) (p : ascii -> bool)
      (env : Re.captures) (s : str) :
  Forall P s ->
  forall prev th, In th (Re.star_lazy p env prev s) -> Forall P (snd th).
Proof.
  induction 1 as [|c s Hc Hs IH]; intros prev th Hin; simpl in Hin.
  - destruct Hin as [<-|[]]. constructor.
  - destruct Hin as [<-|Hin]; [constructor; assumption|].
    destruct (p c); [eapply IH; exact Hin|destruct Hin].
Qed.

Lemma Forall_skipn_str (P : ascii -> Prop) (n : nat) (s : str) :
  Forall P s -> Forall P (skipn n s).
Proof.
  revert s. induction n as [|n IH]; intros s H; [exact H|].
  destruct H; simpl; [constructor|apply IH; assumption].
Qed.

(** What is left of the text after a match keeps every property of its
    characters. *)
Lemma rmatch_rest (P : ascii -> Prop) (r : Re.re) :
  forall env prev s th,
    Forall P s -> In th (Re.rmatch r env prev s) -> Forall P (snd th).
Proof.
  induction r as [|p| | |a IHa b IHb|a IHa b IHb|a IHa|p|p|name a IHa|name];
    intros env prev s th Hs Hin; simpl in Hin.
  - destruct Hin as [<-|[]]. exact Hs.
  - destruct Hs as [|c s Hc Hs]; [destruct Hin|].
    destruct (p c); [|destruct Hin]. destruct Hin as [<-|[]]. exact Hs.
  - destruct (Re.at_bol prev); [|destruct Hin]. destruct Hin as [<-|[]]. exact Hs.
  - destruct (Re.at_eol s); [|destruct Hin]. destruct Hin as [<-|[]]. exact Hs.
  - apply in_flat_map in Hin as [[[e1 p1] t1] [H1 H2]].
    eapply IHb; [|exact H2]. exact (IHa _ _ _ _ Hs H1).
  - apply in_app_or in Hin as [Hin|Hin]; eauto.
  - apply in_app_or in Hin as [Hin|[<-|[]]]; eauto.
  - eapply star_greedy_rest; eauto.
  - eapply star_lazy_rest; eauto.
  - apply in_map_iff in Hin as [[[e1 p1] t1] [<- H1]].
    exact (IHa _ _ _ _ Hs H1).
  - destruct (Py.get String.eqb name env) as [t|]; [|destruct Hin].
    destruct (Py.startswith t s); [|destruct Hin].
    destruct Hin as [<-|[]]. apply Forall_skipn_str, Hs.
Qed.

Lemma flat_map_nil {A B : Type} (f : A -> list B) (l : list A) :
  (forall x, In x l -> f x = []) -> flat_map f l = [].
Proof.
  induction l as [|x l IH]; intros H; simpl; [reflexivity|].
  rewrite (H x (or_introl eq_refl)), IH; [reflexivity|].
  intros y Hy. apply H. right. exact Hy.
Qed.

Lemma seq_no_match (a b : Re.re) (s : str) :
  quote_free s ->
  (forall env prev t, quote_free t -> Re.rmatch b env prev t = []) ->
  forall env prev, Re.rmatch (Re.Seq a b) env prev s = [].
Proof.
  intros Hs Hb env prev. simpl. apply flat_map_nil.
  intros [[e p] t] Hin. apply Hb.
  exact (rmatch_rest _ a env prev s _ Hs Hin).
Qed.

Lemma quote_group_no_match (rest : Re.re) (s : str) :
  quote_free s ->
  forall env prev, Re.rmatch (Re.Seq Csv.g_quote rest) env prev s = [].
Proof.
  intros Hs env prev. simpl.
  destruct Hs as [|c s Hc Hs]; [reflexivity|]. rewrite Hc. reflexivity.
Qed.

Lemma restrs_no_match (r : Re.re) (s : str) :
  In r Csv.restrs -> quote_free s ->
  forall env prev, Re.rmatch r env prev s = [].
Proof.
  intros Hr Hs. unfold Csv.restrs, Re.cat in Hr. cbn [fold_right] in Hr.
  destruct Hr as [<-|[<-|[<-|[<-|[]]]]].
  - apply seq_no_match; [exact Hs|]. intros e p t Ht.
    apply seq_no_match; [exact Ht|]. intros e' p' t' Ht'.
    apply quote_group_no_match, Ht'.
  - apply seq_no_match; [exact Hs|]. intros e p t Ht.
    apply quote_group_no_match, Ht.
  - apply seq_no_match; [exact Hs|]. intros e p t Ht.
    apply seq_no_match; [exact Ht|]. intros e' p' t' Ht'.
    apply quote_group_no_match, Ht'.
  - apply seq_no_match; [exact Hs|]. intros e p t Ht.
    apply quote_group_no_match, Ht.
Qed.

Lemma findall_no_quote (r : Re.re) (s : str) :
  In r Csv.restrs -> quote_free s -> Re.findall r s = [].
Proof.
  intros Hr. unfold Re.findall. generalize (@None ascii) as prev.
  induction s as [|c s IH]; intros prev Hs; simpl.
  - rewrite (restrs_no_match r [] Hr Hs). reflexivity.
  - rewrite (restrs_no_match r (c :: s) Hr Hs). apply IH.
    inversion Hs; assumption.
Qed.

(** Without a quote in the sample, no pattern of
    [_guess_quote_and_delimiter] matches. *)
Lemma guess_quote_no_quote (data delimiters : str) :
  quote_free data ->
  Csv._guess_quote_and_delimiter data delimiters = Ok ([], false, [], false).
Proof.
  intros Hq. unfold Csv._guess_quote_and_delimiter, Csv.restrs.
  cbn [Csv.first_matches].
  rewrite !findall_no_quote; try exact Hq; try reflexivity;
    unfold Csv.restrs; simpl; auto.
Qed.

(** The sniffer then rests on [_guess_delimiter], and the quote character
    of the dialect is the default one. *)
Lemma sniff_no_quote (data delimiters : str) :
  quote_free data ->
  Csv.sniff data delimiters
  = match Csv._guess_delimiter data delimiters with
    | Ok (dl, sk) =>
        if negb (Csv.nonempty dl)
        then Raise (CsvError "Could not determine delimiter")
        else Ok {| Csv.sn_delimiter := dl; Csv.sn_quotechar := [DQUOTE];
                   Csv.sn_doublequote := false; Csv.sn_skipinitialspace := sk |}
    | Raise e => Raise e
    end.
Proof.
  intros Hq. unfold Csv.sniff. rewrite (guess_quote_no_quote _ _ Hq).
  cbn [bind Csv.nonempty negb].
  destruct (Csv._guess_delimiter data delimiters) as [[dl sk]|e]; reflexivity.
Qed.

(** ** Decoding what was encoded *)

Lemma utf8_decode_char (c : ascii) (data : list Byte.byte) :
  utf8_decode (utf8_char c ++ data) = option_map (cons c) (utf8_decode data).
Proof.
  destruct c as [[] [] [] [] [] [] [] []]; reflexivity.
Qed.

Lemma utf8_decode_encode (text : str) : utf8_decode (utf8_encode text) = Some text.
Proof.
  induction text as [|c text IH]; [reflexivity|].
  unfold utf8_encode in *. cbn [flat_map].
  rewrite utf8_decode_char, IH. reflexivity.
Qed.

(** ** Lines of a text written row by row *)

Lemma join_chars_all (P : ascii -> Prop) (sep : str) (parts : list str) :
  Forall P sep -> Forall (Forall P) parts -> Forall P (Py.join sep parts).
Proof.
  intros Hsep. induction 1 as [|x rest Hx Hrest IH]; simpl; [constructor|].
  destruct rest; [exact Hx|].
  apply Forall_app. split; [exact Hx|]. apply Forall_app. split; [exact Hsep|exact IH].
Qed.

Lemma join_cons2 (sep x y : str) (rest : list str) :
  Py.join sep (x :: y :: rest) = x ++ sep ++ Py.join sep (y :: rest).
Proof. reflexivity. Qed.

Lemma split_app_sep (d : ascii) (piece s : str) :
  Py.contains d piece = false ->
  Py.split d (piece ++ d :: s) = piece :: Py.split d s.
Proof.
  induction piece as [|c piece IH]; intros H; simpl.
  - rewrite Ascii.eqb_refl. reflexivity.
  - simpl in H. apply orb_false_elim in H as [Hc Hp].
    rewrite Ascii.eqb_sym, Hc. rewrite (IH Hp). reflexivity.
Qed.

(** Splitting what was joined gives the pieces back. *)
Lemma split_join (d : ascii) (parts : list str) :
  parts <> [] ->
  Forall (fun piece => Py.contains d piece = false) parts ->
  Py.split d (Py.join [d] parts) = parts.
Proof.
  intros Hne H. induction H as [|x rest Hx Hrest IH]; [contradiction|].
  destruct rest as [|y rest].
  - simpl. apply split_without_separator, Hx.
  - rewrite join_cons2. cbn [app]. rewrite (split_app_sep d x _ Hx).
    rewrite IH by discriminate. reflexivity.
Qed.

Lemma splitlines_line (l s : str) :
  Forall (fun c => Py.is_linebreak c = false) l ->
  Py.splitlines (l ++ CR :: LF :: s) = l :: Py.splitlines s.
Proof.
  induction 1 as [|c l Hc Hl IH].
  - reflexivity.
  - cbn [app Py.splitlines]. rewrite Hc. cbn [Py.splitlines] in IH.
    rewrite IH. reflexivity.
Qed.

Lemma splitlines_one (l : str) :
  l <> [] -> Forall (fun c => Py.is_linebreak c = false) l ->
  Py.splitlines l = [l].
Proof.
  intros Hne H. induction H as [|c l Hc Hl IH]; [contradiction|].
  cbn [Py.splitlines]. rewrite Hc.
  destruct l as [|c2 l]; [reflexivity|].
  rewrite IH by discriminate. reflexivity.
Qed.

Lemma splitlines_join (ls : list str) :
  Forall (fun l => l <> [] /\ Forall (fun c => Py.is_linebreak c = false) l) ls ->
  Py.splitlines (Py.join [CR; LF] ls) = ls.
Proof.
  induction 1 as [|l rest [Hne Hl] Hrest IH]; [reflexivity|].
  destruct rest as [|l2 rest].
  - simpl. apply splitlines_one; assumption.
  - rewrite join_cons2. cbn [app]. rewrite (splitlines_line l _ Hl).
    f_equal. exact IH.
Qed.

Lemma concat_terminated (ls : list str) :
  ls <> [] ->
  concat (map (fun l => l ++ [CR; LF]) ls) = Py.join [CR; LF] ls ++ [CR; LF].
Proof.
  induction ls as [|l rest IH]; [contradiction|]. intros _.
  destruct rest as [|l2 rest].
  - simpl. rewrite app_nil_r. reflexivity.
  - rewrite join_cons2.
    change (concat (map (fun l => l ++ [CR; LF]) (l :: l2 :: rest)))
      with ((l ++ [CR; LF])
            ++ concat (map (fun l => l ++ [CR; LF]) (l2 :: rest))).
    rewrite IH by discriminate. rewrite <- !app_assoc. reflexivity.
Qed.

Lemma starts_with_ws_app (a b : str) :
  a <> [] -> starts_with_ws (a ++ b) = starts_with_ws a.
Proof. destruct a; [contradiction|reflexivity]. Qed.

Lemma ends_with_ws_app (a b : str) :
  b <> [] -> ends_with_ws (a ++ b) = ends_with_ws b.
Proof.
  intros Hb. unfold ends_with_ws. rewrite rev_app_distr.
  apply starts_with_ws_app. intros E.
  apply (f_equal (@rev ascii)) in E. rewrite rev_involutive in E. contradiction.
Qed.

Lemma join_solid (sep : str) (ls : list str) :
  ls <> [] -> Forall solid ls -> solid (Py.join sep ls).
Proof.
  intros Hne H. induction H as [|l rest [Hl [Hs He]] Hrest IH]; [contradiction|].
  destruct rest as [|l2 rest]; [repeat split; assumption|].
  destruct (IH ltac:(discriminate)) as [Jne [Js Je]].
  rewrite join_cons2. repeat split.
  - destruct l; [contradiction|discriminate].
  - rewrite starts_with_ws_app by exact Hl. exact Hs.
  - rewrite ends_with_ws_app.
    + rewrite ends_with_ws_app by exact Jne. exact Je.
    + destruct sep; [exact Jne|discriminate].
Qed.

Lemma rstrip_snoc_space (s : str) (c : ascii) :
  Py.isspace c = true -> Py.rstrip (s ++ [c]) = Py.rstrip s.
Proof.
  intros Hc. unfold Py.rstrip. rewrite rev_unit. simpl. rewrite Hc. reflexivity.
Qed.

Lemma strip_terminated (body : str) :
  solid body -> Py.strip (body ++ [CR; LF]) = body.
Proof.
  intros [Hne [Hs He]]. unfold Py.strip.
  rewrite lstrip_fixed by (rewrite starts_with_ws_app; assumption).
  change (body ++ [CR; LF]) with (body ++ [CR] ++ [LF]). rewrite app_assoc.
  rewrite rstrip_snoc_space by reflexivity.
  rewrite rstrip_snoc_space by reflexivity.
  apply rstrip_fixed, He.
Qed.

(** The lines kept from a text made of solid lines, each followed by
    CR LF, are those lines. *)
Lemma retained_lines_terminated (ls : list str) :
  Forall (fun l => solid l /\ Forall (fun c => Py.is_linebreak c = false) l) ls ->
  retained_lines (concat (map (fun l => l ++ [CR; LF]) ls)) = ls.
Proof.
  intros H. destruct ls as [|l0 rest]; [reflexivity|].
  set (ls := l0 :: rest) in *.
  assert (Hsolid : Forall solid ls).
  { revert H. apply Forall_impl. intros l [Hl _]. exact Hl. }
  unfold retained_lines. rewrite concat_terminated by discriminate.
  rewrite strip_terminated by (apply join_solid; [discriminate|exact Hsolid]).
  rewrite splitlines_join.
  2:{ revert H. apply Forall_impl. intros l [[Hl _] Hb]. split; assumption. }
  apply forallb_filter_id. apply forallb_forall. intros l Hin.
  rewrite Forall_forall in Hsolid. destruct (Hsolid l Hin) as [Hne [Hs He]].
  rewrite (strip_fixed l Hs He). destruct l; [contradiction|reflexivity].
Qed.

(** ** The round trip *)

Section RoundTrip.
Variable D : ascii.
Hypothesis D_candidate : In D [COMMA; SEMICOLON; PIPE].

Lemma candidate_not_space : Py.isspace D = false.
Proof. destruct D_candidate as [<-|[<-|[<-|[]]]]; reflexivity. Qed.

Lemma candidate_not_quote : Csv.quote_class D = false.
Proof. destruct D_candidate as [<-|[<-|[<-|[]]]]; reflexivity. Qed.

Lemma candidate_not_linebreak : Py.is_linebreak D = false.
Proof. destruct D_candidate as [<-|[<-|[<-|[]]]]; reflexivity. Qed.

Lemma candidate_neq_SPACE : D <> SPACE.
Proof. destruct D_candidate as [<-|[<-|[<-|[]]]]; discriminate. Qed.

Lemma plain_cell_props (cell : str) :
  plain_cell D cell = true ->
  Forall (fun c => cell_char_ok D c = true) cell
  /\ starts_with_ws cell = false /\ ends_with_ws cell = false
  /\ (N.of_nat (length cell) <= Csv.field_limit)%N.
Proof.
  unfold plain_cell. intros H.
  apply andb_prop in H as [H Hfit]. apply andb_prop in H as [H He].
  apply andb_prop in H as [Hc Hs].
  repeat split.
  - apply Forall_forall. rewrite forallb_forall in Hc. exact Hc.
  - apply negb_true_iff, Hs.
  - apply negb_true_iff, He.
  - apply N.leb_le, Hfit.
Qed.

Lemma cell_char_ok_props (c : ascii) :
  cell_char_ok D c = true ->
  Ascii.eqb c D = false /\ Csv.quote_class c = false /\ Py.is_linebreak c = false.
Proof.
  unfold cell_char_ok. intros H. apply negb_true_iff in H.
  apply orb_false_elim in H as [H Hb]. apply orb_false_elim in H as [Hd Hq].
  repeat split; assumption.
Qed.

Lemma linebreak_CR_LF (c : ascii) :
  Py.is_linebreak c = false -> Ascii.eqb c CR = false /\ Ascii.eqb c LF = false.
Proof.
  intros H. split; apply Ascii.eqb_neq; intros ->; discriminate H.
Qed.

Lemma plain_cell_unquoted (cell : str) :
  plain_cell D cell = true -> render_cell D cell = cell.
Proof.
  intros H. destruct (plain_cell_props cell H) as [Hc _].
  unfold render_cell.
  assert (E : needs_quote D cell = false).
  { clear H. unfold needs_quote.
    induction Hc as [|c cell Hok Hcell IH]; [reflexivity|].
    simpl. rewrite IH, orb_false_r.
    destruct (cell_char_ok_props c Hok) as [Hd [Hq Hb]].
    destruct (linebreak_CR_LF c Hb) as [Hcr Hlf].
    unfold Csv.quote_class in Hq. apply orb_false_elim in Hq as [Hdq _].
    rewrite Hd, Hdq, Hcr, Hlf. reflexivity. }
  rewrite E. reflexivity.
Qed.

Lemma plain_cell_no_delimiter (cell : str) :
  plain_cell D cell = true -> Py.contains D cell = false.
Proof.
  intros H. destruct (plain_cell_props cell H) as [Hc _]. clear H.
  induction Hc as [|c cell Hok Hcell IH]; [reflexivity|].
  simpl. rewrite IH, orb_false_r.
  destruct (cell_char_ok_props c Hok) as [Hd _]. rewrite Ascii.eqb_sym. exact Hd.
Qed.

Lemma plain_cell_keeps_start (sk : bool) (cell : str) :
  plain_cell D cell = true -> skip_initial sk cell = cell.
Proof.
  intros H. destruct (plain_cell_props cell H) as [_ [Hs _]].
  destruct sk; [|reflexivity]. destruct cell as [|c cell]; [reflexivity|].
  simpl in *. destruct (Ascii.eqb c SPACE) eqn:E; [|reflexivity].
  apply Ascii.eqb_eq in E. subst c. discriminate Hs.
Qed.

Lemma plain_table_row_props (row : list str) :
  plain_table_row D row = true ->
  row <> [] /\ row <> [[]] /\ Forall (fun cell => plain_cell D cell = true) row.
Proof.
  intros H. repeat split.
  - intros ->. discriminate H.
  - intros ->. discriminate H.
  - apply Forall_forall. intros cell Hin.
    assert (Hall : forallb (plain_cell D) row = true).
    { destruct row as [|[|a c] [|c2 r]]; try discriminate H; exact H. }
    rewrite forallb_forall in Hall. auto.
Qed.

(** The written line of a row ends where its last cell ends. *)
Lemma join_row_ends (row : list str) :
  Forall (fun cell => plain_cell D cell = true) row ->
  ends_with_ws ([D] ++ Py.join [D] row) = false.
Proof.
  induction 1 as [|c rest Hc Hrest IH].
  - unfold ends_with_ws. simpl. apply candidate_not_space.
  - destruct (plain_cell_props c Hc) as [_ [_ [He _]]].
    destruct rest as [|c2 rest].
    + simpl. destruct c as [|a c].
      * unfold ends_with_ws. simpl. apply candidate_not_space.
      * change (D :: a :: c) with ([D] ++ a :: c).
        rewrite ends_with_ws_app by discriminate. exact He.
    + rewrite join_cons2. rewrite app_assoc.
      rewrite ends_with_ws_app by discriminate. exact IH.
Qed.

Lemma row_line_solid (row : list str) :
  plain_table_row D row = true -> solid (Py.join [D] row).
Proof.
  intros H. destruct (plain_table_row_props row H) as [Hne [Hne1 Hcells]].
  destruct row as [|c rest]; [contradiction|].
  inversion Hcells as [|? ? Hc Hrest]; subst.
  destruct (plain_cell_props c Hc) as [_ [Hs [He _]]].
  destruct rest as [|c2 rest].
  - simpl. repeat split; try assumption. intros ->. contradiction.
  - rewrite join_cons2. repeat split.
    + destruct c; discriminate.
    + destruct c as [|a c]; [simpl; apply candidate_not_space|exact Hs].
    + rewrite ends_with_ws_app by discriminate. apply join_row_ends, Hrest.
Qed.

Lemma row_line_chars (P : ascii -> Prop) (row : list str) :
  P D -> (forall c, cell_char_ok D c = true -> P c) ->
  plain_table_row D row = true -> Forall P (Py.join [D] row).
Proof.
  intros HD HP H. destruct (plain_table_row_props row H) as [_ [_ Hcells]].
  apply join_chars_all; [repeat constructor; exact HD|].
  revert Hcells. apply Forall_impl. intros cell Hc.
  destruct (plain_cell_props cell Hc) as [Hchars _].
  revert Hchars. apply Forall_impl. exact HP.
Qed.

Lemma row_rendered (row : list str) :
  plain_table_row D row = true ->
  render_row D row = Py.join [D] row ++ [CR; LF].
Proof.
  intros H. destruct (plain_table_row_props row H) as [Hne [Hne1 Hcells]].
  assert (E : map (render_cell D) row = row).
  { clear H Hne Hne1. induction Hcells as [|c rest Hc Hrest IH]; [reflexivity|].
    simpl. rewrite IH, (plain_cell_unquoted c Hc). reflexivity. }
  unfold render_row, spec_render_row. rewrite E.
  destruct row as [|[|a c] [|c2 r]]; try reflexivity; contradiction.
Qed.

Lemma row_read_back (d : Csv.dialect) (row : list str) :
  Csv.delimiter d = D ->
  plain_table_row D row = true ->
  plain_row d (Py.join [D] row) = row /\ fits row.
Proof.
  intros Hd H. destruct (plain_table_row_props row H) as [Hne [_ Hcells]].
  unfold plain_row. rewrite Hd. rewrite split_join.
  - split.
    + clear H Hne. induction Hcells as [|c rest Hc Hrest IH]; [reflexivity|].
      simpl. rewrite IH, (plain_cell_keeps_start _ c Hc). reflexivity.
    + revert Hcells. apply Forall_impl. intros cell Hc.
      apply (plain_cell_props cell Hc).
  - exact Hne.
  - revert Hcells. apply Forall_impl. apply plain_cell_no_delimiter.
Qed.

End RoundTrip.

Lemma sample_quote_free (lines : list str) :
  Forall quote_free lines -> quote_free (sample_of lines).
Proof.
  intros H. unfold sample_of. apply join_chars_all; [repeat constructor|].
  rewrite <- (firstn_skipn 20 lines) in H. apply Forall_app in H. apply H.
Qed.

(** C6, as the code has it.  Take a table whose rows are neither empty nor a
    lone empty cell and whose cells hold no delimiter [D], no quote
    character of either kind and no line boundary, have no whitespace at
    either end and are at most 131072 characters long.  Write it with
    delimiter [D], decode the bytes, and parse the text: if the sample has no
    tab and the sniffer settles on [D], the lines kept are the written
    lines and the table comes back as it was. *)
Theorem written_table_is_read_back
        (rows : list (list str)) (D : ascii) (bytes : list Byte.byte)
        (text : str) (sn : Csv.sniffed) :
  In D [COMMA; SEMICOLON; PIPE] ->
  forallb (plain_table_row D) rows = true ->
  write_rows rows [D] = Ok bytes ->
  utf8_decode bytes = Some text ->
  Py.contains TAB (sample_of (retained_lines text)) = false ->
  Csv.sniff (sample_of (retained_lines text)) (Py.join [] CANDIDATE_DELIMS) = Ok sn ->
  Csv.sn_delimiter sn = [D] ->
  retained_lines text = map (Py.join [D]) rows
  /\ parse_text_to_rows text = Ok rows.
Proof.
  intros HD Hrows Hwrite Hdecode Htab Hsniff Hdelim.
  assert (Hrow : Forall (fun row => plain_table_row D row = true) rows).
  { apply Forall_forall. rewrite forallb_forall in Hrows. exact Hrows. }
  (* the text written *)
  unfold write_rows in Hwrite. rewrite writer_dialect_one_char in Hwrite.
  cbn [bind] in Hwrite. rewrite write_text_renders in Hwrite.
  cbn [bind] in Hwrite. injection Hwrite as <-.
  rewrite utf8_decode_encode in Hdecode. injection Hdecode as <-.
  assert (Etext : concat (map (render_row D) rows)
                  = concat (map (fun l => l ++ [CR; LF]) (map (Py.join [D]) rows))).
  { rewrite map_map. f_equal. apply map_ext_in. intros row Hin.
    rewrite Forall_forall in Hrow. apply (row_rendered D row (Hrow row Hin)). }
  rewrite Etext in *.
  (* the lines kept *)
  assert (Elines : retained_lines
                     (concat (map (fun l => l ++ [CR; LF]) (map (Py.join [D]) rows)))
                   = map (Py.join [D]) rows).
  { apply retained_lines_terminated. apply Forall_forall. intros l Hin.
    apply in_map_iff in Hin as [row [<- Hin]]. rewrite Forall_forall in Hrow.
    split; [apply (row_line_solid D HD), Hrow, Hin|].
    apply (row_line_chars D); [apply (candidate_not_linebreak D HD)| |apply Hrow, Hin].
    intros c Hc. apply (cell_char_ok_props D c Hc). }
  split; [exact Elines|].
  unfold parse_text_to_rows. rewrite Elines in *.
  destruct rows as [|row0 rows']; [reflexivity|].
  set (rows := row0 :: rows') in *.
  change (negb (Csv.nonempty (map (Py.join [D]) rows))) with false. cbv iota.
  rewrite Htab. unfold sniffed_rows. rewrite Hsniff. cbn [bind].
  (* the dialect *)
  rewrite sniff_no_quote in Hsniff.
  2:{ apply sample_quote_free. apply Forall_forall. intros l Hin.
      apply in_map_iff in Hin as [row [<- Hin]]. rewrite Forall_forall in Hrow.
      apply (row_line_chars D); [apply (candidate_not_quote D HD)| |apply Hrow, Hin].
      intros c Hc. apply (cell_char_ok_props D c Hc). }
  destruct (Csv._guess_delimiter _ _) as [[dl sk]|]; [|discriminate].
  destruct (negb (Csv.nonempty dl)); [discriminate|].
  injection Hsniff as <-. cbn [Csv.sn_delimiter] in Hdelim. subst dl.
  unfold Csv.reader, Csv.dialect_of. cbn [Csv.sn_delimiter Csv.sn_quotechar
    Csv.sn_doublequote Csv.sn_skipinitialspace Csv.one_char bind].
  set (d := {| Csv.delimiter := D; Csv.quotechar := DQUOTE;
               Csv.doublequote := false; Csv.skipinitialspace := sk |}).
  rewrite (read_rows_plain d (candidate_neq_SPACE D HD)).
  - unfold try_except. f_equal. rewrite map_map.
    rewrite <- (map_id rows) at 2. apply map_ext_in. intros row Hin.
    rewrite Forall_forall in Hrow.
    apply (row_read_back D d row eq_refl (Hrow row Hin)).
  - apply Forall_forall. intros l Hin.
    apply in_map_iff in Hin as [row [<- Hin]]. rewrite Forall_forall in Hrow.
    specialize (Hrow row Hin).
    destruct (row_line_solid D HD row Hrow) as [Hne _].
    destruct (row_read_back D d row eq_refl Hrow) as [Eback Hfit].
    split; [exact Hne|]. split; [|rewrite Eback; exact Hfit].
    apply (row_line_chars D); [| |exact Hrow].
    + destruct HD as [<-|[<-|[<-|[]]]]; reflexivity.
    + intros c Hc. destruct (cell_char_ok_props D c Hc) as [_ [Hq Hb]].
      destruct (linebreak_CR_LF c Hb) as [Hcr Hlf].
      unfold Csv.quote_class in Hq. apply orb_false_elim in Hq as [Hdq _].
      unfold plain_char. cbn [Csv.quotechar d]. rewrite Hdq, Hlf, Hcr. reflexivity.
Qed.

Lemma written_table_is_read_back_witness :
  forallb (plain_table_row COMMA) roundtrip_rows = true
  /\ write_rows roundtrip_rows [COMMA] = Ok (utf8_encode roundtrip_text)
  /\ utf8_decode (utf8_encode roundtrip_text) = Some roundtrip_text
  /\ Py.contains TAB (sample_of (retained_lines roundtrip_text)) = false
  /\ Csv.sniff (sample_of (retained_lines roundtrip_text))
               (Py.join [] CANDIDATE_DELIMS) = Ok roundtrip_dialect
  /\ parse_text_to_rows roundtrip_text = Ok roundtrip_rows.
Proof.
  repeat (split; [reflexivity|]).
  exact (proj2 (written_table_is_read_back
                  roundtrip_rows COMMA (utf8_encode roundtrip_text)
                  roundtrip_text roundtrip_dialect
                  (or_introl eq_refl) eq_refl eq_refl eq_refl eq_refl eq_refl
                  eq_refl)).
Defined.

(** C6 as stated fails.  The cells of the row [['a', ' b']] hold no
    delimiter and no quote; written with a comma the row is the line
    [a, b].  The sample has no tab and the sniffer settles on the comma, with
    [skipinitialspace] set because a space follows every comma of the first
    line: the reader drops the space and the second cell comes back as
    [b]. *)
Lemma written_space_is_not_read_back :
  write_rows spaced_rows [COMMA] = Ok (utf8_encode spaced_text)
  /\ utf8_decode (utf8_encode spaced_text) = Some spaced_text
  /\ Py.contains TAB (sample_of (retained_lines spaced_text)) = false
  /\ Csv.sniff (sample_of (retained_lines spaced_text))
               (Py.join [] CANDIDATE_DELIMS)
     = Ok {| Csv.sn_delimiter := [COMMA]; Csv.sn_quotechar := [DQUOTE];
             Csv.sn_doublequote := false; Csv.sn_skipinitialspace := true |}
  /\ parse_text_to_rows spaced_text = Ok [[lit "a"; lit "b"]]
  /\ [[lit "a"; lit "b"]] <> spaced_rows.
Proof. repeat (split; [reflexivity|]). discriminate. Qed.

(** ** The number of rows *)

(** Every row the reader returns uses up at least one line. *)
Lemma read_rows_length (d : Csv.dialect) (lines : list str) :
  (forall self rows,
      Csv.read_rows d self lines = Ok rows -> length rows <= S (length lines))
  /\ (forall rows,
      Csv.read_rows d Csv.parse_reset lines = Ok rows ->
      length rows <= length lines).
Proof.
  induction lines as [|line rest [IH1 IH2]].
  - split.
    + intros self rows H. simpl in H. destruct (_ || _); injection H as <-; simpl; lia.
    + intros rows H. simpl in H. injection H as <-. simpl. lia.
  - assert (Hstep : forall self rows,
               Csv.read_rows d self (line :: rest) = Ok rows ->
               length rows <= S (length rest)).
    { intros self rows H. cbn [Csv.read_rows] in H.
      destruct (Csv.parse_chars d self line) as [s1|]; [|discriminate].
      cbn [bind] in H. destruct (Csv.state_eqb _ _).
      - destruct (Csv.read_rows d Csv.parse_reset rest) as [rs|] eqn:E; [|discriminate].
        cbn [bind] in H. injection H as <-. simpl. apply le_n_S. exact (IH2 rs eq_refl).
      - exact (IH1 s1 rows H). }
    split.
    + intros self rows H. simpl. apply le_S. exact (Hstep self rows H).
    + intros rows H. exact (Hstep _ rows H).
Qed.

Lemma reader_length (lines : list str) (sn : Csv.sniffed) (rows : list (list str)) :
  Csv.reader lines sn = Ok rows -> length rows <= length lines.
Proof.
  unfold Csv.reader. destruct (Csv.dialect_of sn) as [d|]; [|discriminate].
  cbn [bind]. apply (read_rows_length d lines).
Qed.

(** A line that holds no quote character ends its record: between its
    characters the parser is at the start of a field or inside an unquoted
    one, and the end of the line takes it back to [START_RECORD]. *)
Lemma process_plain_char (d : Csv.dialect) (self self' : Csv.ReaderObj) (c : ascii) :
  plain_char d c = true ->
  Csv.state self = Csv.START_RECORD \/ Csv.state self = Csv.START_FIELD
  \/ Csv.state self = Csv.IN_FIELD ->
  Csv.parse_process_char d self (Csv.Ch c) = Ok self' ->
  Csv.state self' = Csv.START_FIELD \/ Csv.state self' = Csv.IN_FIELD.
Proof.
  unfold plain_char. intros Hc Hst H. apply negb_true_iff in Hc.
  apply orb_false_elim in Hc as [Hc Hcr]. apply orb_false_elim in Hc as [Hq Hlf].
  unfold Csv.parse_process_char, Csv.start_field, Csv.parse_add_char in H.
  cbn [Csv.is_newline] in H. rewrite Hlf, Hcr, ?Hq in H. cbn [orb] in H.
  destruct Hst as [E|[E|E]]; rewrite E in H; cbn [Csv.state Csv.set_state] in H;
    rewrite ?Hq in H;
    repeat match type of H with
           | (if ?b then _ else _) = Ok _ => destruct b
           | bind (if ?b then _ else _) _ = Ok _ => destruct b; cbn [bind] in H
           end;
    try discriminate H; injection H as <-; cbn; auto.
Qed.

Lemma process_plain_eol (d : Csv.dialect) (self : Csv.ReaderObj) :
  Csv.state self = Csv.START_FIELD \/ Csv.state self = Csv.IN_FIELD ->
  exists self', Csv.parse_process_char d self Csv.EOL = Ok self'
                /\ Csv.state self' = Csv.START_RECORD.
Proof.
  intros [E|E]; unfold Csv.parse_process_char; rewrite E; cbn; eauto.
Qed.

Lemma parse_chars_plain_state (d : Csv.dialect) (line : str) :
  Forall (fun c => plain_char d c = true) line ->
  forall self self',
    Csv.state self = Csv.START_FIELD \/ Csv.state self = Csv.IN_FIELD ->
    Csv.parse_chars d self line = Ok self' ->
    Csv.state self' = Csv.START_RECORD.
Proof.
  induction 1 as [|c line Hc Hline IH]; intros self self' Hst H.
  - cbn [Csv.parse_chars] in H.
    destruct (process_plain_eol d self Hst) as [s1 [E1 E2]].
    rewrite E1 in H. injection H as <-. exact E2.
  - cbn [Csv.parse_chars] in H.
    destruct (Csv.parse_process_char d self (Csv.Ch c)) as [s1|] eqn:E; [|discriminate].
    cbn [bind] in H. apply (IH s1 self'); [|exact H].
    apply (process_plain_char d self s1 c Hc); [|exact E]. tauto.
Qed.

Lemma read_rows_plain_length (d : Csv.dialect) (lines : list str) :
  Forall (fun ln => ln <> [] /\ Forall (fun c => plain_char d c = true) ln) lines ->
  forall rows,
    Csv.read_rows d Csv.parse_reset lines = Ok rows -> length rows = length lines.
Proof.
  induction 1 as [|ln lines [Hne Hplain] Hlines IH]; intros rows H.
  - injection H as <-. reflexivity.
  - cbn [Csv.read_rows] in H.
    destruct (Csv.parse_chars d Csv.parse_reset ln) as [s1|] eqn:E; [|discriminate].
    cbn [bind] in H.
    assert (Es : Csv.state s1 = Csv.START_RECORD).
    { destruct ln as [|c ln]; [contradiction|]. cbn [Csv.parse_chars] in E.
      inversion Hplain as [|? ? Hc Hrest]; subst.
      destruct (Csv.parse_process_char d Csv.parse_reset (Csv.Ch c)) as [s0|] eqn:E0;
        [|discriminate].
      cbn [bind] in E. apply (parse_chars_plain_state d ln Hrest s0 s1); [|exact E].
      apply (process_plain_char d Csv.parse_reset s0 c Hc); [|exact E0].
      left. reflexivity. }
    rewrite Es in H. cbn [Csv.state_eqb] in H.
    destruct (Csv.read_rows d Csv.parse_reset lines) as [rs|] eqn:E2; [|discriminate].
    cbn [bind] in H. injection H as <-. simpl. f_equal. apply IH. reflexivity.
Qed.

(** At the end of a line the parser is between two records or inside a
    quoted field. *)
Lemma process_eol_state (d : Csv.dialect) (self self' : Csv.ReaderObj) :
  Csv.parse_process_char d self Csv.EOL = Ok self' ->
  Csv.state self' = Csv.START_RECORD \/ Csv.state self' = Csv.IN_QUOTED_FIELD.
Proof.
  unfold Csv.parse_process_char, Csv.start_field.
  destruct (Csv.state self) eqn:E; intros H; injection H as <-; cbn; auto.
Qed.

Lemma parse_chars_end_state (d : Csv.dialect) (line : str) :
  forall self self',
    Csv.parse_chars d self line = Ok self' ->
    Csv.state self' = Csv.START_RECORD \/ Csv.state self' = Csv.IN_QUOTED_FIELD.
Proof.
  induction line as [|c line IH]; intros self self' H; cbn [Csv.parse_chars] in H.
  - exact (process_eol_state d self self' H).
  - destruct (Csv.parse_process_char d self (Csv.Ch c)) as [s1|]; [|discriminate].
    exact (IH s1 self' H).
Qed.

(** The reader returns at least one row when it is given a line, or is
    inside a quoted field. *)
Lemma read_rows_some (d : Csv.dialect) (lines : list str) :
  forall self rows,
    lines <> [] \/ Csv.state self = Csv.IN_QUOTED_FIELD ->
    Csv.read_rows d self lines = Ok rows -> rows <> [].
Proof.
  induction lines as [|line rest IH]; intros self rows Hst H; cbn [Csv.read_rows] in H.
  - destruct Hst as [Hne|Hq]; [contradiction|]. rewrite Hq in H.
    cbn [Csv.state_eqb] in H. rewrite orb_true_r in H. injection H as <-. discriminate.
  - destruct (Csv.parse_chars d self line) as [s1|] eqn:E; [|discriminate].
    cbn [bind] in H.
    destruct (parse_chars_end_state d line self s1 E) as [Es|Es]; rewrite Es in H;
      cbn [Csv.state_eqb] in H.
    + destruct (Csv.read_rows d Csv.parse_reset rest); [|discriminate].
      cbn [bind] in H. injection H as <-. discriminate.
    + apply (IH s1 rows); [right; exact Es|exact H].
Qed.

Lemma retained_lines_nonempty (text : str) :
  Forall (fun ln => ln <> []) (retained_lines text).
Proof.
  apply Forall_forall. intros ln Hin. unfold retained_lines in Hin.
  apply filter_In in Hin as [_ H]. intros ->. discriminate H.
Qed.

Lemma aligned_rows_length (lines : list str) :
  length (aligned_rows lines) = length lines.
Proof. apply length_map. Qed.

(** C2, as the code has it.  The table never has more rows than the text
    has non-blank lines; it has at least one row when there is such a line,
    and none for a blank text.  There is one row per line when the tab
    strategy applies, when the sniffed strategy raises (the aligned fallback
    then makes the table), and when the sniffed strategy applies and no line
    holds the quote character of the dialect.  Otherwise a quoted field
    left open at the end of a line carries the row over to the next line,
    and the rows may be fewer. *)
Theorem row_count_at_most_line_count (text : str) (rows : list (list str)) :
  parse_text_to_rows text = Ok rows ->
  length rows <= length (retained_lines text)
  /\ (retained_lines text <> [] -> rows <> [])
  /\ (forallb Py.isspace text = true -> rows = [])
  /\ (Py.contains TAB (sample_of (retained_lines text)) = true ->
      length rows = length (retained_lines text))
  /\ (forall e,
        sniffed_rows (retained_lines text) (sample_of (retained_lines text))
        = Raise e ->
        length rows = length (retained_lines text))
  /\ (forall sn,
        Csv.sniff (sample_of (retained_lines text)) (Py.join [] CANDIDATE_DELIMS)
        = Ok sn ->
        Forall (fun ln => forall q, In q (Csv.sn_quotechar sn) ->
                                    Py.contains q ln = false)
               (retained_lines text) ->
        length rows = length (retained_lines text)).
Proof.
  intros H.
  assert (Hblank : forallb Py.isspace text = true -> rows = []).
  { intros Hb. unfold parse_text_to_rows in H.
    rewrite (retained_lines_blank text Hb) in H. injection H as <-. reflexivity. }
  assert (Hsome : retained_lines text <> [] -> rows <> []).
  { intros Hlines. rewrite (parse_text_to_rows_nonempty text Hlines) in H.
    destruct (Py.contains TAB _).
    - injection H as <-. unfold tab_rows.
      destruct (retained_lines text); [contradiction|discriminate].
    - unfold try_except in H.
      destruct (sniffed_rows _ _) as [rs|] eqn:Esn.
      + injection H as <-. unfold sniffed_rows in Esn.
        destruct (Csv.sniff _ _) as [sn|]; [|discriminate]. cbn [bind] in Esn.
        unfold Csv.reader in Esn.
        destruct (Csv.dialect_of sn) as [d|]; [|discriminate]. cbn [bind] in Esn.
        exact (read_rows_some d _ _ _ (or_introl Hlines) Esn).
      + injection H as <-. unfold aligned_rows.
        destruct (retained_lines text); [contradiction|discriminate]. }
  pose proof (retained_lines_nonempty text) as Hne.
  pose proof (retained_lines_no_linebreak text) as Hnb.
  unfold parse_text_to_rows in H.
  destruct (retained_lines text) as [|l0 ls] eqn:El.
  { injection H as <-. repeat split; auto. }
  rewrite <- El in *. rewrite El in H at 1. cbn [Csv.nonempty negb] in H.
  destruct (Py.contains TAB (sample_of (retained_lines text))) eqn:Etab.
  { injection H as <-. unfold tab_rows. rewrite length_map.
    repeat split; auto. }
  unfold try_except in H.
  destruct (sniffed_rows (retained_lines text) (sample_of (retained_lines text)))
    as [rs|e0] eqn:Esn.
  2:{ injection H as <-. rewrite aligned_rows_length. repeat split; auto. }
  injection H as <-. unfold sniffed_rows in Esn.
  destruct (Csv.sniff _ _) as [sn0|] eqn:Esniff; [|discriminate].
  cbn [bind] in Esn. pose proof (reader_length _ _ _ Esn) as Hle.
  repeat split; auto; try discriminate.
  intros sn Hsn Hq. injection Hsn as <-.
  unfold Csv.reader, Csv.dialect_of in Esn.
  destruct (Csv.sn_delimiter sn0) as [|dl [|? ?]]; try discriminate.
  destruct (Csv.sn_quotechar sn0) as [|qc [|? ?]]; try discriminate.
  cbn [Csv.one_char bind] in Esn.
  eapply read_rows_plain_length; [|exact Esn].
  apply Forall_forall. intros ln Hin.
  rewrite Forall_forall in Hne, Hnb, Hq.
  split; [apply Hne, Hin|].
  specialize (Hq ln Hin qc (or_introl eq_refl)).
  specialize (Hnb ln Hin). clear - Hq Hnb.
  induction Hnb as [|c ln Hc Hln IH]; [constructor|].
  simpl in Hq. apply orb_false_elim in Hq as [Hqc Hq].
  constructor; [|apply IH, Hq].
  unfold plain_char. cbn [Csv.quotechar]. rewrite Ascii.eqb_sym, Hqc.
  assert (Ascii.eqb c LF = false) as -> by (apply Ascii.eqb_neq; intros ->; discriminate Hc).
  assert (Ascii.eqb c CR = false) as -> by (apply Ascii.eqb_neq; intros ->; discriminate Hc).
  reflexivity.
Qed.

Lemma row_count_at_most_line_count_witness :
  parse_text_to_rows two_delimiters_example
  = Ok [[lit "a"; lit "b;c;d"]; [lit "e"; lit "f;g;h"]]
  /\ length [[lit "a"; lit "b;c;d"]; [lit "e"; lit "f;g;h"]]
     <= length (retained_lines two_delimiters_example).
Proof.
  split; [vm_compute; reflexivity|].
  refine (proj1 (row_count_at_most_line_count two_delimiters_example
                   [[lit "a"; lit "b;c;d"]; [lit "e"; lit "f;g;h"]] _)).
  vm_compute. reflexivity.
Defined.

(** C2 as stated fails.  The text has two non-blank lines; the sniffer
    settles on the comma, and the quote the first line opens is never
    closed, so the reader takes the second line into the same field: one
    row. *)
Lemma open_quote_merges_lines :
  length (retained_lines open_quote_example) = 2
  /\ Py.contains TAB (sample_of (retained_lines open_quote_example)) = false
  /\ parse_text_to_rows open_quote_example = Ok [[lit "a"; lit "bc,d"]].
Proof. repeat split; vm_compute; reflexivity. Qed.

(** ** Dictionaries *)

Section DictLemmas.
Context {K V : Type} (eqk : K -> K -> bool).
Hypothesis eqk_spec : forall a b, eqk a b = true <-> a = b.

Lemma eqk_refl (a : K) : eqk a a = true.
Proof. apply eqk_spec. reflexivity. Qed.

Lemma eqk_neq (a b : K) : a <> b -> eqk a b = false.
Proof.
  intros H. destruct (eqk a b) eqn:E; [|reflexivity].
  apply eqk_spec in E. contradiction.
Qed.

Lemma get_set_same (k : K) (v : V) (d : list (K * V)) :
  Py.get eqk k (Py.set eqk k v d) = Some v.
Proof.
  induction d as [|[k' v'] d IH]; simpl.
  - rewrite eqk_refl. reflexivity.
  - destruct (eqk k k') eqn:E; simpl; rewrite E; [reflexivity|exact IH].
Qed.

Lemma get_set_other (k k' : K) (v : V) (d : list (K * V)) :
  k <> k' -> Py.get eqk k (Py.set eqk k' v d) = Py.get eqk k d.
Proof.
  intros Hne. induction d as [|[k2 v2] d IH]; simpl.
  - rewrite (eqk_neq _ _ Hne). reflexivity.
  - destruct (eqk k' k2) eqn:E; simpl.
    + destruct (eqk k k2) eqn:E2; [|reflexivity].
      apply eqk_spec in E, E2. subst. contradiction.
    + destruct (eqk k k2); [reflexivity|exact IH].
Qed.

Lemma get_In (k : K) (v : V) (d : list (K * V)) :
  Py.get eqk k d = Some v -> In (k, v) d.
Proof.
  induction d as [|[k' v'] d IH]; simpl; [discriminate|].
  destruct (eqk k k') eqn:E.
  - intros H. injection H as <-. apply eqk_spec in E. subst. left. reflexivity.
  - intros H. right. exact (IH H).
Qed.

Lemma In_get (k : K) (v : V) (d : list (K * V)) :
  In (k, v) d -> exists v', Py.get eqk k d = Some v'.
Proof.
  induction d as [|[k' v'] d IH]; simpl; [intros []|].
  intros [H|H].
  - injection H as -> ->. rewrite eqk_refl. eauto.
  - destruct (eqk k k'); eauto.
Qed.

Lemma NoDup_In_get (k : K) (v : V) (d : list (K * V)) :
  NoDup (map fst d) -> In (k, v) d -> Py.get eqk k d = Some v.
Proof.
  induction d as [|[k' v'] d IH]; simpl; [intros _ []|].
  intros Hnd [H|H].
  - injection H as -> ->. rewrite eqk_refl. reflexivity.
  - inversion Hnd as [|? ? Hnotin Hnd']; subst.
    destruct (eqk k k') eqn:E.
    + apply eqk_spec in E. subst. exfalso. apply Hnotin.
      apply (in_map fst) in H. exact H.
    + exact (IH Hnd' H).
Qed.

Lemma In_set_keys (x k : K) (v : V) (d : list (K * V)) :
  In x (map fst (Py.set eqk k v d)) -> x = k \/ In x (map fst d).
Proof.
  induction d as [|[k' v'] d IH]; simpl.
  - intros [H|[]]. left. symmetry. exact H.
  - destruct (eqk k k'); simpl; [auto|].
    intros [H|H]; [auto|]. destruct (IH H); auto.
Qed.

Lemma set_keys_NoDup (k : K) (v : V) (d : list (K * V)) :
  NoDup (map fst d) -> NoDup (map fst (Py.set eqk k v d)).
Proof.
  induction d as [|[k' v'] d IH]; simpl; intros Hnd.
  - constructor; [intros []|constructor].
  - inversion Hnd as [|? ? Hnotin Hnd']; subst.
    destruct (eqk k k') eqn:E; simpl; [exact Hnd|].
    constructor; [|exact (IH Hnd')].
    intros Hin. apply In_set_keys in Hin as [->|Hin]; [|contradiction].
    rewrite eqk_refl in E. discriminate.
Qed.

Lemma set_values (P : V -> Prop) (k : K) (v : V) (d : list (K * V)) :
  Forall (fun e => P (snd e)) d -> P v ->
  Forall (fun e => P (snd e)) (Py.set eqk k v d).
Proof.
  intros Hd Hv. induction Hd as [|[k' v'] d Hx Hd IH]; simpl.
  - repeat constructor. exact Hv.
  - destruct (eqk k k'); constructor; auto.
Qed.

Lemma set_nonempty (k : K) (v : V) (d : list (K * V)) : Py.set eqk k v d <> [].
Proof. destruct d as [|[k' v'] d]; simpl; [|destruct (eqk k k')]; discriminate. Qed.

End DictLemmas.

(** ** The frequency tables of [_guess_delimiter] *)

Lemma ascii_chars_NoDup : NoDup Csv.ascii_chars.
Proof.
  apply (NoDup_map_inv nat_of_ascii).
  replace (map nat_of_ascii Csv.ascii_chars) with (seq 0 127)
    by (vm_compute; reflexivity).
  apply seq_NoDup.
Qed.

Lemma candidate_in_ascii_chars (c : ascii) :
  In c [COMMA; SEMICOLON; PIPE] -> In c Csv.ascii_chars.
Proof.
  unfold Csv.ascii_chars.
  intros [<-|[<-|[<-|[]]]].
  - apply (in_map ascii_of_nat (seq 0 127) 44), in_seq. lia.
  - apply (in_map ascii_of_nat (seq 0 127) 59), in_seq. lia.
  - apply (in_map ascii_of_nat (seq 0 127) 124), in_seq. lia.
Qed.

Lemma tally_line_fold (cf : list (ascii * list (nat * Z))) (line : str) :
  Csv.tally_line cf line = fold_left (tally_step line) Csv.ascii_chars cf.
Proof. reflexivity. Qed.

Lemma get_or_set_same (c : ascii) (v : list (nat * Z))
      (cf : list (ascii * list (nat * Z))) :
  Csv.get_or Ascii.eqb c [] (Py.set Ascii.eqb c v cf) = v.
Proof. unfold Csv.get_or. rewrite (get_set_same _ Ascii.eqb_eq). reflexivity. Qed.

Lemma get_or_set_other (c c' : ascii) (v : list (nat * Z))
      (cf : list (ascii * list (nat * Z))) :
  c <> c' ->
  Csv.get_or Ascii.eqb c [] (Py.set Ascii.eqb c' v cf)
  = Csv.get_or Ascii.eqb c [] cf.
Proof.
  intros H. unfold Csv.get_or. rewrite (get_set_other _ Ascii.eqb_eq) by exact H.
  reflexivity.
Qed.

(** A pass over distinct characters touches the table of each once. *)
Lemma tally_fold_get (line : str) (chars : list ascii) :
  NoDup chars ->
  forall (cf : list (ascii * list (nat * Z))) (c : ascii),
    In c chars ->
    Csv.get_or Ascii.eqb c [] (fold_left (tally_step line) chars cf)
    = meta_bump (Py.count c line) (Csv.get_or Ascii.eqb c [] cf).
Proof.
  assert (Hout : forall chars cf c,
             ~ In c chars ->
             Csv.get_or Ascii.eqb c [] (fold_left (tally_step line) chars cf)
             = Csv.get_or Ascii.eqb c [] cf).
  { clear. induction chars as [|a chars IH]; intros cf c Hnotin; [reflexivity|].
    cbn [fold_left]. rewrite IH by (intros H; apply Hnotin; right; exact H).
    unfold tally_step. apply get_or_set_other.
    intros ->. apply Hnotin. left. reflexivity. }
  induction 1 as [|a chars Hnotin Hnd IH]; intros cf c Hin; [destruct Hin|].
  cbn [fold_left]. destruct Hin as [->|Hin].
  - rewrite Hout by exact Hnotin. unfold tally_step. apply get_or_set_same.
  - rewrite (IH _ c Hin). f_equal. unfold tally_step. apply get_or_set_other.
    intros ->. contradiction.
Qed.

Lemma tally_line_get (cf : list (ascii * list (nat * Z))) (line : str) (c : ascii) :
  In c Csv.ascii_chars ->
  Csv.get_or Ascii.eqb c [] (Csv.tally_line cf line)
  = meta_bump (Py.count c line) (Csv.get_or Ascii.eqb c [] cf).
Proof. rewrite tally_line_fold. apply tally_fold_get, ascii_chars_NoDup. Qed.

Lemma meta_bump_nonempty (freq : nat) (mf : list (nat * Z)) : meta_bump freq mf <> [].
Proof. apply set_nonempty. Qed.

Lemma tally_line_invariant (cf : list (ascii * list (nat * Z))) (line : str) :
  NoDup (map fst cf) /\ Forall (fun e => snd e <> []) cf ->
  NoDup (map fst (Csv.tally_line cf line))
  /\ Forall (fun e => snd e <> []) (Csv.tally_line cf line).
Proof.
  rewrite tally_line_fold. revert cf.
  induction Csv.ascii_chars as [|a chars IH]; intros cf H; [exact H|].
  cbn [fold_left]. apply IH. destruct H as [Hnd Hne]. unfold tally_step. split.
  - apply (set_keys_NoDup _ Ascii.eqb_eq), Hnd.
  - apply (set_values Ascii.eqb (fun v => v <> [])); [exact Hne|].
    apply meta_bump_nonempty.
Qed.

Lemma fold_left_cons {A B : Type} (f : A -> B -> A) (x : B) (l : list B) (a : A) :
  fold_left f (x :: l) a = fold_left f l (f a x).
Proof. reflexivity. Qed.

Lemma tally_chunk_invariant (chunk : list str) :
  forall cf : list (ascii * list (nat * Z)),
    NoDup (map fst cf) /\ Forall (fun e => snd e <> []) cf ->
    NoDup (map fst (fold_left Csv.tally_line chunk cf))
    /\ Forall (fun e => snd e <> []) (fold_left Csv.tally_line chunk cf).
Proof.
  induction chunk as [|ln chunk IH]; intros cf H; [exact H|].
  rewrite fold_left_cons. apply IH. apply tally_line_invariant. exact H.
Qed.

Lemma meta_bump_const (k j : nat) : meta_bump k (meta_const k j) = meta_const k (S j).
Proof.
  destruct j as [|j]; [reflexivity|].
  unfold meta_bump, meta_const, Csv.get_or. cbn [Py.get Py.set].
  rewrite Nat.eqb_refl. f_equal. f_equal. lia.
Qed.

(** A character that occurs [k] times in every line of the chunk. *)
Lemma tally_chunk_const (c : ascii) (k : nat) (chunk : list str) :
  In c Csv.ascii_chars ->
  Forall (fun ln => Py.count c ln = k) chunk ->
  forall (cf : list (ascii * list (nat * Z))) (j : nat),
    Csv.get_or Ascii.eqb c [] cf = meta_const k j ->
    Csv.get_or Ascii.eqb c [] (fold_left Csv.tally_line chunk cf)
    = meta_const k (j + length chunk).
Proof.
  intros Hc. induction 1 as [|ln chunk Hln Hchunk IH]; intros cf j Hcf.
  - rewrite Nat.add_0_r. exact Hcf.
  - rewrite fold_left_cons. rewrite (IH _ (S j)).
    + f_equal. simpl. lia.
    + rewrite (tally_line_get cf ln c Hc), Hln, Hcf. apply meta_bump_const.
Qed.

Lemma tally_chunk_entry (c : ascii) (k : nat) (chunk : list str) :
  In c Csv.ascii_chars -> chunk <> [] ->
  Forall (fun ln => Py.count c ln = k) chunk ->
  Py.get Ascii.eqb c (fold_left Csv.tally_line chunk [])
  = Some [(k, Z.of_nat (length chunk))].
Proof.
  intros Hc Hne Hk.
  pose proof (tally_chunk_const c k chunk Hc Hk [] 0 eq_refl) as H.
  cbn [Nat.add] in H. unfold Csv.get_or in H.
  destruct chunk as [|ln chunk]; [contradiction|]. cbn [length meta_const] in *.
  destruct (Py.get Ascii.eqb c _) as [v|]; [|discriminate]. rewrite H. reflexivity.
Qed.

(** ** The thresholds of the consistency loop

    The loop variable takes ten values in floating point, and for every
    total of at most 20 lines and every count from 1 to the total the
    floating-point test gives what the test on hundredths gives. *)
Lemma float_consistencies_ten :
  length (float_consistencies 100 1.0%float) = length Csv.consistencies.
Proof. vm_compute. reflexivity. Qed.

Lemma thresholds_agree_up_to_20 :
  forallb (fun total =>
             forallb (fun v => thresholds_agree (Z.of_nat total) (Z.of_nat v))
                     (seq 1 total))
          (seq 1 20) = true.
Proof. vm_compute. reflexivity. Qed.

(** ** The modes and the candidate delimiters *)

Lemma update_mode_ok (modes : list (ascii * (nat * Z))) (c : ascii)
      (items : list (nat * Z)) :
  items <> [] ->
  exists modes', Csv.update_mode modes (c, items) = Ok modes'
                 /\ (modes' = modes \/ exists v, modes' = Py.set Ascii.eqb c v modes).
Proof.
  intros Hne. destruct items as [|i items]; [contradiction|].
  unfold Csv.update_mode.
  destruct (_ && _); [eauto|].
  destruct (1 <? length (i :: items))%nat; cbn [Csv.max_by bind]; eauto.
Qed.

Lemma update_mode_zero (modes : list (ascii * (nat * Z))) (c : ascii) (x : Z) :
  Csv.update_mode modes (c, [(0, x)]) = Ok modes.
Proof. reflexivity. Qed.

Lemma update_mode_constant (modes : list (ascii * (nat * Z))) (c : ascii)
      (k : nat) (x : Z) :
  0 < k -> Csv.update_mode modes (c, [(k, x)]) = Ok (Py.set Ascii.eqb c (k, x) modes).
Proof. destruct k as [|k]; [lia|reflexivity]. Qed.

(** A character whose table says it occurred in no line gets no mode. *)
Lemma update_modes_skipped (cf : list (ascii * list (nat * Z))) :
  Forall (fun e => snd e <> []) cf ->
  forall modes0, exists modes,
    Csv.update_modes cf modes0 = Ok modes
    /\ forall c,
        (forall items, In (c, items) cf -> exists x, items = [(0, x)]) ->
        Py.get Ascii.eqb c modes = Py.get Ascii.eqb c modes0.
Proof.
  induction 1 as [|[c1 items1] rest Hne Hrest IH]; intros modes0.
  - exists modes0. split; [reflexivity|]. reflexivity.
  - cbn [snd] in Hne.
    destruct (update_mode_ok modes0 c1 items1 Hne) as [modes1 [E1 Hshape]].
    destruct (IH modes1) as [modes [E Hget]].
    exists modes. split.
    + cbn [Csv.update_modes]. rewrite E1. exact E.
    + intros c Hc. rewrite Hget by (intros items Hin; apply Hc; right; exact Hin).
      destruct (Ascii.eqb c c1) eqn:Ec.
      * apply Ascii.eqb_eq in Ec. subst c1.
        destruct (Hc items1 (or_introl eq_refl)) as [x ->].
        rewrite update_mode_zero in E1. injection E1 as <-. reflexivity.
      * apply Ascii.eqb_neq in Ec.
        destruct Hshape as [->|[v ->]]; [reflexivity|].
        apply (get_set_other _ Ascii.eqb_eq). exact Ec.
Qed.

(** A character that occurred [k > 0] times in every line gets the mode
    [(k, number of lines)]. *)
Lemma update_modes_constant (D : ascii) (k : nat) (x : Z)
      (cf : list (ascii * list (nat * Z))) :
  0 < k ->
  NoDup (map fst cf) ->
  Forall (fun e => snd e <> []) cf ->
  In (D, [(k, x)]) cf ->
  forall modes0 modes,
    Csv.update_modes cf modes0 = Ok modes ->
    Py.get Ascii.eqb D modes = Some (k, x).
Proof.
  intros Hk. induction cf as [|[c1 items1] rest IH]; intros Hnd Hne Hin modes0 modes H;
    [destruct Hin|].
  inversion Hnd as [|? ? Hnotin Hnd']; subst.
  inversion Hne as [|? ? Hne1 Hne']; subst.
  cbn [Csv.update_modes] in H.
  destruct Hin as [Heq|Hin].
  - injection Heq as -> ->. rewrite (update_mode_constant _ _ _ _ Hk) in H.
    cbn [bind] in H.
    destruct (update_modes_skipped rest Hne' (Py.set Ascii.eqb D (k, x) modes0))
      as [modes' [E Hget]].
    rewrite E in H. injection H as <-. rewrite Hget.
    + apply (get_set_same _ Ascii.eqb_eq).
    + intros items Hin. exfalso. apply Hnotin.
      apply (in_map fst) in Hin. exact Hin.
  - destruct (Csv.update_mode modes0 (c1, items1)) as [modes1|]; [|discriminate].
    cbn [bind] in H. exact (IH Hnd' Hne' Hin modes1 modes H).
Qed.

Lemma add_delims_cons (delimiters : str) (total consistency : Z)
      (kv : ascii * (nat * Z)) (modeList delims : list (ascii * (nat * Z))) :
  Csv.add_delims delimiters total consistency (kv :: modeList) delims
  = Csv.add_delims delimiters total consistency modeList
      (if passes delimiters total consistency kv
       then Py.set Ascii.eqb (fst kv) (snd kv) delims else delims).
Proof. destruct kv as [k v]. reflexivity. Qed.

(** When only the character [D] passes the test, the candidates are [D]
    alone, or none if no mode passes. *)
Lemma add_delims_shape (D : ascii) (delimiters : str) (total consistency : Z)
      (modeList : list (ascii * (nat * Z))) :
  (forall kv, In kv modeList ->
              passes delimiters total consistency kv = true -> fst kv = D) ->
  forall acc,
    acc = [] \/ (exists v, acc = [(D, v)]) ->
    (exists v, Csv.add_delims delimiters total consistency modeList acc = [(D, v)])
    \/ (acc = []
        /\ forall kv, In kv modeList ->
                      passes delimiters total consistency kv = false).
Proof.
  induction modeList as [|kv rest IH]; intros Honly acc Hacc.
  - destruct Hacc as [->|[v ->]]; [right|left; exists v; reflexivity].
    split; [reflexivity|intros kv []].
  - rewrite add_delims_cons.
    assert (Hrest : forall kv0, In kv0 rest ->
              passes delimiters total consistency kv0 = true -> fst kv0 = D).
    { intros kv0 Hin. apply Honly. right. exact Hin. }
    destruct (passes delimiters total consistency kv) eqn:Ep.
    + rewrite (Honly kv (or_introl eq_refl) Ep).
      destruct (IH Hrest (Py.set Ascii.eqb D (snd kv) acc)) as [Hl|[Hr _]].
      * right. exists (snd kv).
        destruct Hacc as [->|[v ->]]; simpl; [|rewrite Ascii.eqb_refl]; reflexivity.
      * left. exact Hl.
      * exfalso. exact (set_nonempty _ _ _ _ Hr).
    + destruct (IH Hrest acc Hacc) as [Hl|[Hr Hnone]]; [left; exact Hl|].
      right. split; [exact Hr|]. intros kv0 [<-|Hin]; [exact Ep|auto].
Qed.

Lemma build_delims_first (delimiters : str) (total : Z)
      (modeList : list (ascii * (nat * Z))) (D : ascii) (v : nat * Z) :
  Csv.add_delims delimiters total 100 modeList [] = [(D, v)] ->
  Csv.build_delims delimiters total modeList [] = [(D, v)].
Proof.
  intros H. unfold Csv.build_delims, Csv.consistencies.
  cbn [fold_left Csv.nonempty]. rewrite H. reflexivity.
Qed.

Lemma count_zero (c : ascii) (s : str) :
  Py.contains c s = false -> Py.count c s = 0.
Proof.
  induction s as [|x s IH]; [reflexivity|]. simpl. intros H.
  apply orb_false_elim in H as [Hx Hs]. rewrite Ascii.eqb_sym, Hx. exact (IH Hs).
Qed.

Lemma candidates_contains (c : ascii) :
  Py.contains c (Py.join [] CANDIDATE_DELIMS) = true ->
  In c [COMMA; SEMICOLON; PIPE].
Proof.
  cbn. rewrite orb_false_r. intros H.
  apply orb_prop in H as [H|H]; [apply Ascii.eqb_eq in H; subst; auto|].
  apply orb_prop in H as [H|H]; apply Ascii.eqb_eq in H; subst; auto.
Qed.

(** The first pass of the loop of [_guess_delimiter] settles on [D] when
    [D] occurs the same number of times, at least once, in every line and
    the other candidates occur in none. *)
Lemma guess_loop_single (D : ascii) (k : nat) (data : list str) (fuel : nat) :
  0 < fuel ->
  In D [COMMA; SEMICOLON; PIPE] ->
  0 < k ->
  data <> [] ->
  Forall (fun ln => Py.count D ln = k) data ->
  Forall (fun ln => forall E, In E [COMMA; SEMICOLON; PIPE] -> E <> D ->
                              Py.contains E ln = false) data ->
  Csv.guess_loop fuel data (Py.join [] CANDIDATE_DELIMS)
                 (Nat.min 10 (length data)) 0 (Nat.min 10 (length data)) 0
                 [] [] []
  = Ok ([D], Csv.initial_space D data).
Proof.
  intros Hfuel HD Hk Hne Hcount Hothers.
  destruct fuel as [|fuel]; [lia|clear Hfuel].
  set (m := Nat.min 10 (length data)).
  set (chunk := firstn (m - 0) (skipn 0 data)).
  assert (Hchunk_len : length chunk = m).
  { unfold chunk. rewrite Nat.sub_0_r. cbn [skipn]. rewrite length_firstn. lia. }
  assert (Hm : 0 < m).
  { unfold m. destruct data; [contradiction|]. simpl. lia. }
  assert (Hchunk_ne : chunk <> []).
  { intros E. rewrite E in Hchunk_len. simpl in Hchunk_len. lia. }
  assert (Hchunk_in : forall ln, In ln chunk -> In ln data).
  { intros ln Hin. unfold chunk in Hin. cbn [skipn] in Hin.
    rewrite <- (firstn_skipn (m - 0) data). apply in_or_app. left. exact Hin. }
  assert (Hchunk_count : Forall (fun ln => Py.count D ln = k) chunk).
  { apply Forall_forall. intros ln Hin. rewrite Forall_forall in Hcount. auto. }
  set (cf := fold_left Csv.tally_line chunk []).
  destruct (tally_chunk_invariant chunk []) as [Hnd Hitems];
    [split; constructor|]. fold cf in Hnd, Hitems.
  assert (HcfD : Py.get Ascii.eqb D cf = Some [(k, Z.of_nat m)]).
  { unfold cf. rewrite <- Hchunk_len.
    apply tally_chunk_entry; [apply candidate_in_ascii_chars, HD|exact Hchunk_ne|].
    exact Hchunk_count. }
  assert (HcfE : forall E, In E [COMMA; SEMICOLON; PIPE] -> E <> D ->
                           forall items, In (E, items) cf -> exists x, items = [(0, x)]).
  { intros E HE Hneq items Hin.
    assert (Hget : Py.get Ascii.eqb E cf = Some [(0, Z.of_nat (length chunk))]).
    { unfold cf. apply tally_chunk_entry;
        [apply candidate_in_ascii_chars, HE|exact Hchunk_ne|].
      apply Forall_forall. intros ln Hl. apply count_zero.
      rewrite Forall_forall in Hothers. apply (Hothers ln (Hchunk_in ln Hl) E HE Hneq). }
    rewrite (NoDup_In_get _ Ascii.eqb_eq E items cf Hnd Hin) in Hget.
    injection Hget as ->. eauto. }
  destruct (update_modes_skipped cf Hitems []) as [modes [Emodes Hskip]].
  assert (HmD : Py.get Ascii.eqb D modes = Some (k, Z.of_nat m)).
  { apply (update_modes_constant D k (Z.of_nat m) cf Hk Hnd Hitems
             (get_In _ Ascii.eqb_eq D _ cf HcfD) [] modes Emodes). }
  set (total := Z.of_nat (Nat.min (m * 1) (length data))).
  assert (Htotal : total = Z.of_nat m).
  { unfold total. f_equal. unfold m. lia. }
  destruct (add_delims_shape D (Py.join [] CANDIDATE_DELIMS) total 100 modes)
    with (acc := @nil (ascii * (nat * Z))) as [[v Hv]|[_ Hnone]].
  { intros [c w] Hin Hp. cbn [fst].
    unfold passes in Hp. cbn [fst snd] in Hp.
    apply andb_prop in Hp as [_ Hc]. apply candidates_contains in Hc.
    destruct (ascii_dec c D) as [E|Hneq]; [exact E|]. exfalso.
    destruct (In_get _ Ascii.eqb_eq c w modes Hin) as [w' Hw'].
    rewrite (Hskip c (HcfE c Hc Hneq)) in Hw'. discriminate Hw'. }
  { left. reflexivity. }
  - cbn [Csv.guess_loop].
    replace (0 <? length data)%nat with true
      by (symmetry; apply Nat.ltb_lt; destruct data; [contradiction|simpl; lia]).
    fold m chunk cf. rewrite Emodes. cbn [bind]. fold total.
    rewrite (build_delims_first _ _ _ D v Hv). reflexivity.
  - exfalso.
    pose proof (Hnone (D, (k, Z.of_nat m))
                      (get_In _ Ascii.eqb_eq D _ modes HmD)) as Hp.
    unfold passes in Hp. cbn [fst snd] in Hp. rewrite Htotal in Hp.
    replace (0 <? k)%nat with true in Hp by (symmetry; apply Nat.ltb_lt; exact Hk).
    replace (0 <? Z.of_nat m)%Z with true in Hp by (symmetry; apply Z.ltb_lt; lia).
    replace (100 * Z.of_nat m <=? 100 * Z.of_nat m)%Z with true in Hp
      by (symmetry; apply Z.leb_le; lia).
    cbn [andb] in Hp.
    destruct HD as [<-|[<-|[<-|[]]]]; discriminate Hp.
Qed.

(** The fuel of the loop: [len(data)] passes are enough, more change
    nothing. *)
Lemma guess_loop_fuel (data : list str) (delimiters : str) (chunkLength : nat) :
  0 < chunkLength ->
  forall fuel1 fuel2 start iteration charFrequency modes delims,
    length data - start <= fuel1 ->
    length data - start <= fuel2 ->
    Csv.guess_loop fuel1 data delimiters chunkLength start (start + chunkLength)
                   iteration charFrequency modes delims
    = Csv.guess_loop fuel2 data delimiters chunkLength start (start + chunkLength)
                     iteration charFrequency modes delims.
Proof.
  intros Hc. induction fuel1 as [|fuel1 IH];
    intros [|fuel2] start iteration cf modes delims H1 H2.
  - reflexivity.
  - cbn [Csv.guess_loop].
    replace (start <? length data)%nat with false
      by (symmetry; apply Nat.ltb_ge; lia). reflexivity.
  - cbn [Csv.guess_loop].
    replace (start <? length data)%nat with false
      by (symmetry; apply Nat.ltb_ge; lia). reflexivity.
  - cbn [Csv.guess_loop]. destruct (start <? length data)%nat eqn:E; [|reflexivity].
    apply Nat.ltb_lt in E.
    destruct (Csv.update_modes _ modes) as [modes'|]; [|reflexivity].
    cbn [bind].
    destruct (Csv.build_delims _ _ modes' delims) as [|[dl v] [|? ?]];
      try reflexivity; apply IH; lia.
Qed.

Lemma guess_delimiter_fuel (data delimiters : str) (fuel : nat) :
  length (filter Csv.nonempty (Py.split LF data)) <= fuel ->
  Csv.guess_loop fuel (filter Csv.nonempty (Py.split LF data)) delimiters
                 (Nat.min 10 (length (filter Csv.nonempty (Py.split LF data)))) 0
                 (Nat.min 10 (length (filter Csv.nonempty (Py.split LF data)))) 0
                 [] [] []
  = Csv._guess_delimiter data delimiters.
Proof.
  unfold Csv._guess_delimiter.
  generalize (filter Csv.nonempty (Py.split LF data)) as lines.
  intros lines Hfuel. destruct (Nat.eq_dec (length lines) 0) as [E|E].
  - destruct lines; [|discriminate]. destruct fuel; reflexivity.
  - apply (guess_loop_fuel lines delimiters (Nat.min 10 (length lines)));
      [lia|rewrite Nat.sub_0_r; exact Hfuel|rewrite Nat.sub_0_r; apply le_n].
Qed.

(** ** One delimiter, the same number of times on every line *)

Lemma split_length (d : ascii) (s : str) :
  length (Py.split d s) = S (Py.count d s).
Proof.
  induction s as [|c s IH]; [reflexivity|]. simpl.
  destruct (Ascii.eqb c d); simpl; [rewrite IH; reflexivity|].
  pose proof (split_nonempty d s) as Hne.
  destruct (Py.split d s); [contradiction|exact IH].
Qed.

Lemma lstrip_spaces_length (s : str) : length (lstrip_spaces s) <= length s.
Proof.
  induction s as [|c s IH]; simpl; [lia|].
  destruct (Ascii.eqb c SPACE); simpl; lia.
Qed.

Lemma fits_skip_initial (sk : bool) (row : list str) :
  fits row -> fits (map (skip_initial sk) row).
Proof.
  unfold fits. induction 1 as [|cell row Hc Hrow IH]; simpl; constructor; [|exact IH].
  destruct sk; [|exact Hc]. simpl.
  pose proof (lstrip_spaces_length cell). lia.
Qed.

Lemma filter_nonempty_id (ls : list str) :
  Forall (fun ln => ln <> []) ls -> filter Csv.nonempty ls = ls.
Proof.
  induction 1 as [|l ls Hl Hls IH]; [reflexivity|].
  simpl. destruct l; [contradiction|]. simpl. rewrite IH. reflexivity.
Qed.

Lemma linebreak_free_no_LF (ln : str) :
  Forall (fun c => Py.is_linebreak c = false) ln -> Py.contains LF ln = false.
Proof.
  induction 1 as [|c ln Hc Hln IH]; [reflexivity|].
  unfold Py.contains in *. cbn [existsb]. rewrite IH, orb_false_r.
  apply Ascii.eqb_neq. intros <-. discriminate Hc.
Qed.

(** The sniffer on the sample of such lines. *)
Lemma sniff_single (D : ascii) (k : nat) (lines : list str) :
  In D [COMMA; SEMICOLON; PIPE] ->
  0 < k ->
  lines <> [] ->
  Forall (fun ln => ln <> []) lines ->
  Forall (Forall (fun c => Py.is_linebreak c = false)) lines ->
  Forall (fun ln => Py.count D ln = k) lines ->
  Forall (fun ln => forall E, In E [COMMA; SEMICOLON; PIPE] -> E <> D ->
                              Py.contains E ln = false) lines ->
  Forall quote_free lines ->
  exists sk,
    Csv.sniff (sample_of lines) (Py.join [] CANDIDATE_DELIMS)
    = Ok {| Csv.sn_delimiter := [D]; Csv.sn_quotechar := [DQUOTE];
            Csv.sn_doublequote := false; Csv.sn_skipinitialspace := sk |}.
Proof.
  intros HD Hk Hne Hnonempty Hnb Hcount Hothers Hquote.
  rewrite sniff_no_quote by (apply sample_quote_free, Hquote).
  unfold Csv._guess_delimiter, sample_of.
  set (ls := firstn 20 lines).
  assert (Hsub : forall P : str -> Prop, Forall P lines -> Forall P ls).
  { intros P H. rewrite <- (firstn_skipn 20 lines) in H.
    apply Forall_app in H. apply H. }
  assert (Hls : ls <> []).
  { unfold ls. destruct lines; [contradiction|discriminate]. }
  rewrite split_join.
  2: exact Hls.
  2:{ apply Hsub in Hnb. revert Hnb. apply Forall_impl. apply linebreak_free_no_LF. }
  rewrite (filter_nonempty_id ls (Hsub _ Hnonempty)).
  assert (Hfuel : 0 < length ls) by (destruct ls; [contradiction|simpl; lia]).
  pose proof (guess_loop_single D k ls (length ls) Hfuel HD Hk Hls
                (Hsub _ Hcount) (Hsub _ Hothers)) as Hg.
  unfold str in *. rewrite Hg.
  cbn [Csv.nonempty negb]. eauto.
Qed.

(** C5, as the code has it.  Let the sample have no tab, let the text hold no
    quote character of either kind and, of the three candidates, only [D];
    let [D] occur the same number of times, at least once, on every
    non-blank line, and let no field between two [D] be longer than 131072
    characters.  Then the table has one row per non-blank line, and the row
    of a line has one cell more than the line has [D]. *)
Theorem single_delimiter_cell_counts (text : str) (D : ascii) (k : nat) :
  In D [COMMA; SEMICOLON; PIPE] ->
  Py.contains TAB (sample_of (retained_lines text)) = false ->
  0 < k ->
  Forall (fun ln => Py.count D ln = k) (retained_lines text) ->
  Forall (fun ln => forall E, In E [COMMA; SEMICOLON; PIPE] -> E <> D ->
                              Py.contains E ln = false) (retained_lines text) ->
  Forall quote_free (retained_lines text) ->
  Forall (fun ln => fits (Py.split D ln)) (retained_lines text) ->
  exists rows,
    parse_text_to_rows text = Ok rows
    /\ Forall2 (fun ln row => length row = Py.count D ln + 1)
               (retained_lines text) rows.
Proof.
  intros HD Htab Hk Hcount Hothers Hquote Hfits.
  pose proof (retained_lines_nonempty text) as Hnonempty.
  pose proof (retained_lines_no_linebreak text) as Hnb.
  assert (Hcase : retained_lines text = [] \/ retained_lines text <> [])
    by (destruct (retained_lines text); [left; reflexivity|right; discriminate]).
  destruct Hcase as [E|Hne].
  { exists []. unfold parse_text_to_rows. rewrite E.
    split; [reflexivity|constructor]. }
  rewrite (parse_text_to_rows_nonempty text Hne), Htab.
  destruct (sniff_single D k (retained_lines text) HD Hk) as [sk Hsniff];
    try assumption.
  unfold sniffed_rows. rewrite Hsniff. cbn [bind].
  unfold Csv.reader, Csv.dialect_of.
  cbn [Csv.sn_delimiter Csv.sn_quotechar Csv.sn_doublequote
       Csv.sn_skipinitialspace Csv.one_char bind].
  set (d := {| Csv.delimiter := D; Csv.quotechar := DQUOTE;
               Csv.doublequote := false; Csv.skipinitialspace := sk |}).
  rewrite (read_rows_plain d (candidate_neq_SPACE D HD)).
  - exists (map (plain_row d) (retained_lines text)).
    split; [reflexivity|].
    clear. induction (retained_lines text) as [|ln lines IH]; simpl; constructor;
      [|exact IH].
    unfold plain_row. rewrite length_map, split_length. cbn [Csv.delimiter d]. lia.
  - apply Forall_forall. intros ln Hin.
    rewrite Forall_forall in Hnonempty, Hnb, Hquote, Hfits.
    split; [apply Hnonempty, Hin|]. split.
    + specialize (Hnb ln Hin). specialize (Hquote ln Hin).
      clear - Hnb Hquote. induction Hnb as [|c ln Hc Hln IH]; [constructor|].
      inversion Hquote as [|? ? Hq Hquote']; subst.
      constructor; [|apply IH, Hquote'].
      destruct (linebreak_CR_LF c Hc) as [Hcr Hlf].
      unfold Csv.quote_class in Hq. apply orb_false_elim in Hq as [Hdq _].
      unfold plain_char, d. cbn [Csv.quotechar]. rewrite Hdq, Hlf, Hcr. reflexivity.
    + unfold plain_row. apply fits_skip_initial. apply (Hfits ln Hin).
Qed.

Lemma single_delimiter_cell_counts_witness :
  retained_lines csv_example = [lit "a,b,c"; lit "1,2,3"]
  /\ Py.contains TAB (sample_of (retained_lines csv_example)) = false
  /\ parse_text_to_rows csv_example
     = Ok [[lit "a"; lit "b"; lit "c"]; [lit "1"; lit "2"; lit "3"]]
  /\ Forall2 (fun ln row => length row = Py.count COMMA ln + 1)
             (retained_lines csv_example)
             [[lit "a"; lit "b"; lit "c"]; [lit "1"; lit "2"; lit "3"]].
Proof.
  assert (El : retained_lines csv_example = [lit "a,b,c"; lit "1,2,3"])
    by (vm_compute; reflexivity).
  assert (Ep : parse_text_to_rows csv_example
               = Ok [[lit "a"; lit "b"; lit "c"]; [lit "1"; lit "2"; lit "3"]])
    by (vm_compute; reflexivity).
  split; [exact El|]. split; [vm_compute; reflexivity|]. split; [exact Ep|].
  destruct (single_delimiter_cell_counts csv_example COMMA 2) as [rows [Hrows Hcells]].
  - left. reflexivity.
  - vm_compute. reflexivity.
  - lia.
  - rewrite El. repeat constructor.
  - rewrite El. repeat constructor; intros E [<-|[<-|[<-|[]]]] Hneq;
      try reflexivity; contradiction.
  - rewrite El. repeat constructor.
  - rewrite El. repeat constructor; vm_compute; discriminate.
  - rewrite Ep in Hrows. injection Hrows as <-. exact Hcells.
Defined.

(** C5 as stated fails.  Only the comma occurs, twice on each of the two
    lines, so every row should have three cells; but the first comma of
    each line stands between quotes, the sniffer finds the quote character,
    and the reader keeps the quoted text as one cell: two cells a row. *)
Lemma quoted_delimiter_is_not_counted :
  retained_lines quoted_commas_example
  = [[DQUOTE] ++ lit "a,b" ++ [DQUOTE] ++ lit ",c";
     [DQUOTE] ++ lit "d,e" ++ [DQUOTE] ++ lit ",f"]
  /\ map (Py.count COMMA) (retained_lines quoted_commas_example) = [2; 2]
  /\ Py.contains SEMICOLON quoted_commas_example = false
  /\ Py.contains PIPE quoted_commas_example = false
  /\ Py.contains TAB (sample_of (retained_lines quoted_commas_example)) = false
  /\ parse_text_to_rows quoted_commas_example
     = Ok [[lit "a,b"; lit "c"]; [lit "d,e"; lit "f"]]
  /\ map (@length str) [[lit "a,b"; lit "c"]; [lit "d,e"; lit "f"]] = [2; 2].
Proof. repeat split; vm_compute; reflexivity. Qed.

(** The same happens without quotes when a second candidate occurs: here
    the comma occurs once and the semicolon twice on every line, the sniffer
    prefers the comma, and the rows have two cells, not three. *)
Lemma preferred_delimiter_wins :
  map (Py.count COMMA) (retained_lines two_delimiters_example) = [1; 1]
  /\ map (Py.count SEMICOLON) (retained_lines two_delimiters_example) = [2; 2]
  /\ parse_text_to_rows two_delimiters_example
     = Ok [[lit "a"; lit "b;c;d"]; [lit "e"; lit "f;g;h"]].
Proof. repeat split; vm_compute; reflexivity. Qed.

(** And a candidate that is regular in the first ten lines stays in the
    running when the later lines drop it: the semicolon is the only
    candidate that occurs once on every one of the twenty lines, and the
    table is split at the commas of the first ten. *)
Lemma first_chunk_candidate_stays :
  length (retained_lines chunk_example) = 20
  /\ forallb (fun ln => (Py.count SEMICOLON ln =? 1)%nat)
             (retained_lines chunk_example) = true
  /\ map (Py.count COMMA) (retained_lines chunk_example)
     = repeat 1 10 ++ repeat 0 10
  /\ parse_text_to_rows chunk_example
     = Ok (repeat [lit "a"; lit "b;c"] 10 ++ repeat [lit "ab;c"] 10).
Proof. repeat split; vm_compute; reflexivity. Qed.

(** ** Every row has a cell *)

(** A character that is not a line end takes the parser into a record. *)
Lemma process_char_in_record (d : Csv.dialect) (self self' : Csv.ReaderObj) (c : ascii) :
  not_newline c ->
  Csv.parse_process_char d self (Csv.Ch c) = Ok self' ->
  in_record (Csv.state self').
Proof.
  intros [Hlf Hcr] H.
  unfold Csv.parse_process_char, Csv.start_field, Csv.parse_add_char in H.
  cbn [Csv.is_newline] in H. rewrite Hlf, Hcr in H. cbn [orb] in H.
  destruct (Csv.state self) eqn:Est; cbn [Csv.state Csv.set_state Csv.field_len] in H;
    repeat match type of H with
           | (if ?b then _ else _) = Ok _ => destruct b
           | bind (if ?b then _ else _) _ = Ok _ => destruct b; cbn [bind] in H
           end;
    try discriminate H; injection H as <-; unfold in_record; cbn; rewrite ?Est;
    split; discriminate.
Qed.

(** The end of a line closes the record with a field saved, unless a quoted
    field is open. *)
Lemma process_eol_in_record (d : Csv.dialect) (self self' : Csv.ReaderObj) :
  in_record (Csv.state self) ->
  Csv.parse_process_char d self Csv.EOL = Ok self' ->
  (Csv.state self' = Csv.START_RECORD /\ Csv.fields self' <> [])
  \/ Csv.state self' = Csv.IN_QUOTED_FIELD.
Proof.
  intros [H1 H2] H. unfold Csv.parse_process_char, Csv.start_field in H.
  destruct (Csv.state self) eqn:E; try congruence;
    injection H as <-; cbn; auto; left; (split; [reflexivity|]);
    destruct (Csv.fields self); discriminate.
Qed.

Lemma parse_chars_in_record (d : Csv.dialect) (line : str) :
  Forall not_newline line ->
  forall self self',
    in_record (Csv.state self) ->
    Csv.parse_chars d self line = Ok self' ->
    (Csv.state self' = Csv.START_RECORD /\ Csv.fields self' <> [])
    \/ Csv.state self' = Csv.IN_QUOTED_FIELD.
Proof.
  induction 1 as [|c line Hc Hline IH]; intros self self' Hst H;
    cbn [Csv.parse_chars] in H.
  - exact (process_eol_in_record d self self' Hst H).
  - destruct (Csv.parse_process_char d self (Csv.Ch c)) as [s1|] eqn:E; [|discriminate].
    cbn [bind] in H. apply (IH s1 self'); [|exact H].
    exact (process_char_in_record d self s1 c Hc E).
Qed.

Lemma parse_chars_line_in_record (d : Csv.dialect) (line : str) :
  line <> [] -> Forall not_newline line ->
  forall self self',
    Csv.parse_chars d self line = Ok self' ->
    (Csv.state self' = Csv.START_RECORD /\ Csv.fields self' <> [])
    \/ Csv.state self' = Csv.IN_QUOTED_FIELD.
Proof.
  intros Hne Hline self self' H. destruct line as [|c line]; [contradiction|].
  inversion Hline as [|? ? Hc Hrest]; subst. cbn [Csv.parse_chars] in H.
  destruct (Csv.parse_process_char d self (Csv.Ch c)) as [s1|] eqn:E; [|discriminate].
  cbn [bind] in H. apply (parse_chars_in_record d line Hrest s1 self'); [|exact H].
  exact (process_char_in_record d self s1 c Hc E).
Qed.

Lemma read_rows_cells (d : Csv.dialect) (lines : list str) :
  Forall (fun ln => ln <> [] /\ Forall not_newline ln) lines ->
  forall self rows,
    Csv.read_rows d self lines = Ok rows -> Forall (fun row => row <> []) rows.
Proof.
  induction 1 as [|ln lines [Hne Hln] Hlines IH]; intros self rows H;
    cbn [Csv.read_rows] in H.
  - destruct (_ || _); injection H as <-; constructor; [|constructor].
    cbn. destruct (Csv.fields self); discriminate.
  - destruct (Csv.parse_chars d self ln) as [s1|] eqn:E; [|discriminate].
    cbn [bind] in H.
    destruct (parse_chars_line_in_record d ln Hne Hln self s1 E) as [[Es Hf]|Es];
      rewrite Es in H; cbn [Csv.state_eqb] in H.
    + destruct (Csv.read_rows d Csv.parse_reset lines) as [rs|] eqn:E2; [|discriminate].
      cbn [bind] in H. injection H as <-. constructor; [exact Hf|].
      exact (IH _ _ E2).
    + exact (IH _ _ H).
Qed.

Lemma retained_lines_not_newline (text : str) :
  Forall (fun ln => ln <> [] /\ Forall not_newline ln) (retained_lines text).
Proof.
  pose proof (retained_lines_nonempty text) as H1.
  pose proof (retained_lines_no_linebreak text) as H2.
  rewrite Forall_forall in *. intros ln Hin. split; [exact (H1 ln Hin)|].
  specialize (H2 ln Hin). rewrite Forall_forall in *. intros c Hc.
  destruct (linebreak_CR_LF c (H2 c Hc)) as [Hcr Hlf]. split; assumption.
Qed.

(** X1.  No row of the result is empty: whichever strategy makes the rows,
    every row has at least one cell. *)
Theorem every_row_has_a_cell (text : str) (rows : list (list str)) :
  parse_text_to_rows text = Ok rows -> Forall (fun row => row <> []) rows.
Proof.
  unfold parse_text_to_rows.
  destruct (negb (Csv.nonempty (retained_lines text))).
  { intros H. injection H as <-. constructor. }
  destruct (Py.contains TAB _).
  { intros H. injection H as <-. unfold tab_rows. apply Forall_forall.
    intros row Hin. apply in_map_iff in Hin as [ln [<- _]]. apply split_nonempty. }
  assert (Hal : Forall (fun row : list str => row <> [])
                       (aligned_rows (retained_lines text))).
  { apply Forall_forall. intros row Hin. apply in_map_iff in Hin as [ln [<- _]].
    apply aligned_row_nonempty. }
  unfold try_except, sniffed_rows.
  destruct (Csv.sniff _ _) as [sn|]; cbn [bind].
  - unfold Csv.reader. destruct (Csv.dialect_of sn) as [d|]; cbn [bind].
    + destruct (Csv.read_rows d Csv.parse_reset (retained_lines text)) as [rs|] eqn:E.
      * intros H. injection H as <-.
        exact (read_rows_cells d _ (retained_lines_not_newline text) _ _ E).
      * intros H. injection H as <-. exact Hal.
    + intros H. injection H as <-. exact Hal.
  - intros H. injection H as <-. exact Hal.
Qed.

Lemma every_row_has_a_cell_witness :
  parse_text_to_rows open_quote_example = Ok [[lit "a"; lit "bc,d"]]
  /\ Forall (fun row : list str => row <> []) [[lit "a"; lit "bc,d"]].
Proof.
  split; [vm_compute; reflexivity|].
  exact (every_row_has_a_cell open_quote_example [[lit "a"; lit "bc,d"]] eq_refl).
Defined.

(** ** What the groups of a match hold *)

Lemma string_eqb_spec (a b : string) : String.eqb a b = true <-> a = b.
Proof. apply String.eqb_eq. Qed.

Lemma star_greedy_env (p : ascii -> bool) (env : Re.captures) (s : str) :
  forall prev th, In th (Re.star_greedy p env prev s) -> fst (fst th) = env.
Proof.
  induction s as [|c s IH]; intros prev th Hin; simpl in Hin.
  - destruct Hin as [<-|[]]. reflexivity.
  - destruct (p c).
    + apply in_app_or in Hin as [Hin|[<-|[]]]; [eapply IH; exact Hin|reflexivity].
    + destruct Hin as [<-|[]]. reflexivity.
Qed.

Lemma star_lazy_env (p : ascii -> bool) (env : Re.captures) (s : str) :
  forall prev th, In th (Re.star_lazy p env prev s) -> fst (fst th) = env.
Proof.
  induction s as [|c s IH]; intros prev th Hin; simpl in Hin.
  - destruct Hin as [<-|[]]. reflexivity.
  - destruct Hin as [<-|Hin]; [reflexivity|].
    destruct (p c); [eapply IH; exact Hin|destruct Hin].
Qed.

Lemma narrow_width (r : Re.re) :
  narrow r = true ->
  forall env prev s th,
    In th (Re.rmatch r env prev s) -> length s <= S (length (snd th)).
Proof.
  induction r as [|p| | |a IHa b IHb|a IHa b IHb|a IHa|p|p|name a IHa|name];
    intros Hn env prev s th Hin; simpl in Hn, Hin; try discriminate Hn.
  - destruct Hin as [<-|[]]. simpl. lia.
  - destruct s as [|c s]; [destruct Hin|].
    destruct (p c); [|destruct Hin]. destruct Hin as [<-|[]]. simpl. lia.
  - destruct (Re.at_bol prev); [|destruct Hin]. destruct Hin as [<-|[]]. simpl. lia.
  - destruct (Re.at_eol s); [|destruct Hin]. destruct Hin as [<-|[]]. simpl. lia.
  - apply andb_prop in Hn as [Ha Hb].
    apply in_app_or in Hin as [Hin|Hin]; eauto.
  - apply in_app_or in Hin as [Hin|[<-|[]]]; [eauto|simpl; lia].
  - apply in_map_iff in Hin as [[[e1 p1] t1] [<- H1]].
    exact (IHa Hn _ _ _ _ H1).
Qed.

Lemma rmatch_caps (P : ascii -> Prop) (r : Re.re) :
  groups_narrow r = true ->
  forall env prev s th,
    Forall P s -> caps_ok P env ->
    In th (Re.rmatch r env prev s) -> caps_ok P (fst (fst th)).
Proof.
  induction r as [|p| | |a IHa b IHb|a IHa b IHb|a IHa|p|p|name a IHa|name];
    intros Hg env prev s th Hs Henv Hin; simpl in Hg, Hin.
  - destruct Hin as [<-|[]]. exact Henv.
  - destruct s as [|c s]; [destruct Hin|].
    destruct (p c); [|destruct Hin]. destruct Hin as [<-|[]]. exact Henv.
  - destruct (Re.at_bol prev); [|destruct Hin]. destruct Hin as [<-|[]]. exact Henv.
  - destruct (Re.at_eol s); [|destruct Hin]. destruct Hin as [<-|[]]. exact Henv.
  - apply andb_prop in Hg as [Ha Hb].
    apply in_flat_map in Hin as [[[e1 p1] t1] [H1 H2]].
    eapply (IHb Hb); [|exact (IHa Ha _ _ _ _ Hs Henv H1)|exact H2].
    exact (rmatch_rest P a _ _ _ _ Hs H1).
  - apply andb_prop in Hg as [Ha Hb].
    apply in_app_or in Hin as [Hin|Hin]; eauto.
  - apply in_app_or in Hin as [Hin|[<-|[]]]; eauto.
  - rewrite (star_greedy_env _ _ _ _ _ Hin). exact Henv.
  - rewrite (star_lazy_env _ _ _ _ _ Hin). exact Henv.
  - apply andb_prop in Hg as [Hn Hg].
    apply in_map_iff in Hin as [[[e1 p1] t1] [<- H1]]. cbn [fst].
    apply (set_values String.eqb
             (fun v : str => length v <= 1 /\ Forall P v)).
    + exact (IHa Hg _ _ _ _ Hs Henv H1).
    + pose proof (narrow_width a Hn _ _ _ _ H1) as Hw. cbn [snd] in Hw. split.
      * rewrite length_firstn. lia.
      * rewrite <- (firstn_skipn (length s - length t1) s) in Hs.
        apply Forall_app in Hs. tauto.
  - destruct (Py.get String.eqb name env) as [t|]; [|destruct Hin].
    destruct (Py.startswith t s); [|destruct Hin].
    destruct Hin as [<-|[]]. exact Henv.
Qed.

Lemma scan_caps (P : ascii -> Prop) (r : Re.re) (s : str) :
  groups_narrow r = true -> Forall P s ->
  forall prev skip, Forall (caps_ok P) (Re.scan r prev s skip).
Proof.
  intros Hg. induction 1 as [|c s Hc Hs IH]; intros prev skip.
  - cbn [Re.scan].
    destruct (Re.rmatch r [] prev []) as [|[[env p] t] tl] eqn:E; constructor;
      [|constructor].
    apply (rmatch_caps P r Hg [] prev [] (env, p, t)); [constructor|constructor|].
    rewrite E. left. reflexivity.
  - cbn [Re.scan]. destruct skip as [|k]; [|apply IH].
    destruct (Re.rmatch r [] prev (c :: s)) as [|[[env p] t] tl] eqn:E; [apply IH|].
    constructor; [|apply IH].
    apply (rmatch_caps P r Hg [] prev (c :: s) (env, p, t));
      [constructor; assumption|constructor|].
    rewrite E. left. reflexivity.
Qed.

Lemma restrs_groups_narrow : forallb groups_narrow Csv.restrs = true.
Proof. reflexivity. Qed.

(** A group of a match, when it is not empty, is one character. *)
Lemma group_one_char (P : ascii -> Prop) (name : string) (m : Re.captures) :
  caps_ok P m -> Csv.nonempty (Re.group name m) = true ->
  exists c, Re.group name m = [c] /\ P c.
Proof.
  intros Hm Hne. unfold Re.group in *.
  destruct (Py.get String.eqb name m) as [t|] eqn:E; [|discriminate].
  apply (get_In _ string_eqb_spec) in E.
  unfold caps_ok in Hm. rewrite Forall_forall in Hm.
  destruct (Hm _ E) as [Hlen HP]. cbn [snd] in *.
  destruct t as [|c [|c2 t]]; [discriminate| |simpl in Hlen; lia].
  exists c. split; [reflexivity|]. inversion HP; assumption.
Qed.

Lemma occurs_in_one (c : ascii) (s : str) :
  Csv.occurs_in [c] s = true -> Py.contains c s = true.
Proof.
  induction s as [|x s IH]; simpl; intros H.
  - discriminate.
  - rewrite andb_true_r in H. apply orb_prop in H as [H|H].
    + rewrite H. reflexivity.
    + rewrite (IH H). apply orb_true_r.
Qed.

Lemma max_from_In {A : Type} (f : A -> Z) (l : list A) :
  forall best, In (Csv.max_from f best l) (best :: l).
Proof.
  induction l as [|x l IH]; intros best; simpl; [auto|].
  destruct (IH (if (f best <? f x)%Z then x else best)) as [H|H].
  - destruct (f best <? f x)%Z; [right; left|left]; exact H.
  - right. right. exact H.
Qed.

Lemma max_by_In {A : Type} (f : A -> Z) (l : list A) (x : A) :
  Csv.max_by f l = Ok x -> In x l.
Proof.
  destruct l as [|y l]; simpl; intros H; [discriminate|].
  injection H as <-. apply max_from_In.
Qed.

Section Tally.
Variable P : ascii -> Prop.
Variable delimiters : str.

Lemma tally_keys (regexp : Re.re) (m : Re.captures)
      (acc : list (str * Z) * list (str * Z) * Z) :
  caps_ok P m -> tally_inv P delimiters acc -> tally_inv P delimiters (Csv.tally regexp delimiters acc m).
Proof.
  intros Hm. destruct acc as [[quotes delims] spaces]. intros [Hq Hd].
  cbn [fst snd] in Hq, Hd. unfold Csv.tally.
  set (quotes' := if Csv.nonempty (Re.group "quote" m) then _ else quotes).
  set (delims' := if Csv.nonempty (Re.group "delim" m) && _ then _ else delims).
  assert (Hq' : forall key, In key (map fst quotes') -> one_char_key P key).
  { unfold quotes'. destruct (Csv.nonempty (Re.group "quote" m)) eqn:E; [|exact Hq].
    intros key Hin. apply In_set_keys in Hin as [->|Hin]; [|auto].
    exact (group_one_char P _ m Hm E). }
  assert (Hd' : forall key, In key (map fst delims') -> good_key delimiters P key).
  { unfold delims'.
    destruct (Csv.nonempty (Re.group "delim" m)) eqn:E; [|exact Hd].
    destruct (Csv.occurs_in (Re.group "delim" m) delimiters) eqn:Eo; [|exact Hd].
    cbn [andb]. intros key Hin.
    apply In_set_keys in Hin as [->|Hin]; [|auto].
    destruct (group_one_char P _ m Hm E) as [c [Ec Pc]].
    exists c. rewrite Ec in Eo. split; [exact Ec|]. split; [|exact Pc].
    exact (occurs_in_one c delimiters Eo). }
  destruct (negb (Re.has_group "delim" regexp)); [split; [exact Hq'|exact Hd]|].
  destruct (negb (Re.has_group "space" regexp)); split; assumption.
Qed.

Lemma fold_tally_keys (regexp : Re.re) (matches : list Re.captures) :
  Forall (caps_ok P) matches ->
  forall acc, tally_inv P delimiters acc ->
              tally_inv P delimiters (fold_left (Csv.tally regexp delimiters) matches acc).
Proof.
  induction 1 as [|m ms Hm Hms IH]; intros acc Hacc; [exact Hacc|].
  rewrite fold_left_cons. apply IH. apply tally_keys; assumption.
Qed.

Lemma first_matches_caps (rs : list Re.re) (data : str) :
  forallb groups_narrow rs = true -> Forall P data ->
  Forall (caps_ok P) (snd (Csv.first_matches rs data)).
Proof.
  intros Hrs Hdata. induction rs as [|r rs IH]; [constructor|].
  cbn [forallb] in Hrs. apply andb_prop in Hrs as [Hr Hrs].
  cbn [Csv.first_matches].
  destruct (Re.findall r data) as [|m ms] eqn:E.
  - destruct rs as [|r2 rs]; [constructor|]. exact (IH Hrs).
  - cbn [snd]. rewrite <- E. apply scan_caps; assumption.
Qed.

(** The quote character and the delimiter that
    [_guess_quote_and_delimiter] returns are characters of the sample, and
    the delimiter is among those asked for. *)
Lemma guess_quote_keys (data : str) (q dl : str) (dq sk : bool) :
  Forall P data ->
  Csv._guess_quote_and_delimiter data delimiters = Ok (q, dq, dl, sk) ->
  (q = [] \/ one_char_key P q) /\ (dl = [] \/ good_key delimiters P dl).
Proof.
  intros Hdata. unfold Csv._guess_quote_and_delimiter.
  pose proof (first_matches_caps Csv.restrs data restrs_groups_narrow Hdata) as Hm.
  destruct (Csv.first_matches Csv.restrs data) as [regexp matches].
  cbn [snd] in Hm.
  destruct (negb (Csv.nonempty matches)).
  { intros H. injection H as <- _ <- _. auto. }
  pose proof (fold_tally_keys regexp matches Hm ([], [], 0%Z)) as Hinv.
  destruct (fold_left _ matches _) as [[quotes delims] spaces].
  destruct Hinv as [Hq Hd]; [split; intros key []|]. cbn [fst snd] in Hq, Hd.
  destruct (Csv.max_by snd quotes) as [qc|] eqn:Eq; cbn [bind]; [|discriminate].
  apply max_by_In in Eq.
  destruct (Csv.nonempty delims).
  - destruct (Csv.max_by snd delims) as [d|] eqn:Ed; cbn [bind]; [|discriminate].
    apply max_by_In in Ed. intros H. injection H as <- _ <- _. split.
    + right. apply Hq. apply in_map. exact Eq.
    + destruct (Csv.str_eqb (fst d) [LF]); [left; reflexivity|right].
      apply Hd. apply in_map. exact Ed.
  - cbn [bind]. intros H. injection H as <- _ <- _. split; [|left; reflexivity].
    right. apply Hq. apply in_map. exact Eq.
Qed.

End Tally.

(** ** The candidates of [_guess_delimiter] occur in the sample *)

Lemma In_set_entry {K V : Type} (eqk : K -> K -> bool)
      (eqk_spec : forall a b, eqk a b = true <-> a = b)
      (x k : K) (w v : V) (d : list (K * V)) :
  In (x, w) (Py.set eqk k v d) -> (x = k /\ w = v) \/ In (x, w) d.
Proof.
  induction d as [|[k' v'] d IH]; simpl.
  - intros [H|[]]. injection H as <- <-. auto.
  - destruct (eqk k k') eqn:E.
    + apply eqk_spec in E. subst k'. intros [H|H].
      * injection H as <- <-. auto.
      * right. right. exact H.
    + intros [H|H]; [right; left; exact H|].
      destruct (IH H) as [Hl|Hr]; [left; exact Hl|right; right; exact Hr].
Qed.

Lemma greatest_item_In (l : list ((nat * Z) * ascii)) :
  forall best, In (Csv.greatest_item best l) (best :: l).
Proof.
  induction l as [|x l IH]; intros best; simpl; [auto|].
  destruct (IH (if Csv.item_ltb best x then x else best)) as [H|H].
  - destruct (Csv.item_ltb best x); [right; left|left]; exact H.
  - right. right. exact H.
Qed.

Section Guess.
Variable data : list str.
Variable delimiters : str.

Lemma tally_step_inv (line : str) (cf : list (ascii * list (nat * Z)))
      (char : ascii) :
  In line data -> freq_inv data cf -> freq_inv data (tally_step line cf char).
Proof.
  intros Hline Hcf c items Hin f Hf Hpos. unfold tally_step in Hin.
  apply (In_set_entry _ Ascii.eqb_eq) in Hin as [[-> ->]|Hin];
    [|exact (Hcf c items Hin f Hf Hpos)].
  unfold meta_bump in Hf. apply In_set_keys in Hf as [->|Hf].
  - exists line. split; assumption.
  - unfold Csv.get_or in Hf.
    destruct (Py.get Ascii.eqb char cf) as [mf|] eqn:E; [|destruct Hf].
    apply (get_In _ Ascii.eqb_eq) in E. exact (Hcf char mf E f Hf Hpos).
Qed.

Lemma tally_line_inv (line : str) (cf : list (ascii * list (nat * Z))) :
  In line data -> freq_inv data cf -> freq_inv data (Csv.tally_line cf line).
Proof.
  intros Hline. rewrite tally_line_fold. revert cf.
  induction Csv.ascii_chars as [|char chars IH]; intros cf Hcf; [exact Hcf|].
  rewrite fold_left_cons. apply IH. apply tally_step_inv; assumption.
Qed.

Lemma tally_chunk_inv (chunk : list str) :
  (forall ln, In ln chunk -> In ln data) ->
  forall cf, freq_inv data cf -> freq_inv data (fold_left Csv.tally_line chunk cf).
Proof.
  induction chunk as [|ln chunk IH]; intros Hsub cf Hcf; [exact Hcf|].
  rewrite fold_left_cons. apply IH.
  - intros l Hl. apply Hsub. right. exact Hl.
  - apply tally_line_inv; [apply Hsub; left; reflexivity|exact Hcf].
Qed.

Lemma update_mode_fst (modes modes' : list (ascii * (nat * Z))) (c : ascii)
      (items : list (nat * Z)) :
  Csv.update_mode modes (c, items) = Ok modes' ->
  modes' = modes
  \/ exists v, modes' = Py.set Ascii.eqb c v modes /\ In (fst v) (map fst items).
Proof.
  unfold Csv.update_mode. destruct (_ && _).
  { intros H. injection H as <-. left. reflexivity. }
  destruct (1 <? length items)%nat.
  - destruct (Csv.max_by snd items) as [m|] eqn:E; cbn [bind]; [|discriminate].
    intros H. injection H as <-. right. eexists. split; [reflexivity|].
    cbn [fst]. apply in_map. exact (max_by_In _ _ _ E).
  - destruct items as [|i items]; [discriminate|].
    intros H. injection H as <-. right. exists i. split; [reflexivity|].
    left. reflexivity.
Qed.

Lemma update_modes_inv (cf : list (ascii * list (nat * Z))) :
  freq_inv data cf ->
  forall modes0 modes,
    modes_inv data modes0 -> Csv.update_modes cf modes0 = Ok modes -> modes_inv data modes.
Proof.
  induction cf as [|[c1 items1] rest IH]; intros Hcf modes0 modes H0 H;
    cbn [Csv.update_modes] in H.
  - injection H as <-. exact H0.
  - destruct (Csv.update_mode modes0 (c1, items1)) as [modes1|] eqn:E1;
      cbn [bind] in H; [|discriminate].
    apply (IH (fun c items Hin => Hcf c items (or_intror Hin)) modes1 modes);
      [|exact H].
    destruct (update_mode_fst _ _ _ _ E1) as [->|[v [-> Hv]]]; [exact H0|].
    intros c w Hin Hpos.
    apply (In_set_entry _ Ascii.eqb_eq) in Hin as [[-> ->]|Hin];
      [|exact (H0 c w Hin Hpos)].
    exact (Hcf c1 items1 (or_introl eq_refl) (fst v) Hv Hpos).
Qed.

Lemma add_delims_inv (total consistency : Z)
      (modeList : list (ascii * (nat * Z))) :
  modes_inv data modeList ->
  forall delims, delims_inv data delimiters delims ->
                 delims_inv data delimiters (Csv.add_delims delimiters total consistency
                                            modeList delims).
Proof.
  induction modeList as [|[k v] rest IH]; intros Hm delims Hd; [exact Hd|].
  rewrite add_delims_cons. apply IH.
  - intros c w Hin. apply Hm. right. exact Hin.
  - destruct (passes delimiters total consistency (k, v)) eqn:Ep; [|exact Hd].
    cbn [fst snd]. intros c Hin. apply In_set_keys in Hin as [->|Hin]; [|auto].
    unfold passes in Ep. cbn [fst snd] in Ep.
    apply andb_prop in Ep as [Ep Hc]. apply andb_prop in Ep as [Ep _].
    apply andb_prop in Ep as [Hf _]. apply Nat.ltb_lt in Hf.
    split; [exact Hc|]. exact (Hm k v (or_introl eq_refl) Hf).
Qed.

Lemma build_delims_inv (total : Z) (modeList delims : list (ascii * (nat * Z))) :
  modes_inv data modeList -> delims_inv data delimiters delims ->
  delims_inv data delimiters (Csv.build_delims delimiters total modeList delims).
Proof.
  intros Hm. unfold Csv.build_delims. revert delims.
  induction Csv.consistencies as [|cons rest IH]; intros delims Hd; [exact Hd|].
  rewrite fold_left_cons. apply IH.
  destruct (Csv.nonempty delims); [exact Hd|]. apply add_delims_inv; assumption.
Qed.

Lemma after_loop_inv (delims : list (ascii * (nat * Z))) (dl : str) (sk : bool) :
  delims_inv data delimiters delims ->
  Csv.after_loop data delims = Ok (dl, sk) ->
  dl = [] \/ exists c, dl = [c] /\ Py.contains c delimiters = true /\ occurs data c.
Proof.
  intros Hd. unfold Csv.after_loop.
  destruct (negb (Csv.nonempty delims)).
  { intros H. injection H as <- _. left. reflexivity. }
  destruct (if (1 <? length delims)%nat then _ else None) as [d|] eqn:E.
  - intros H. injection H as <- _. right. exists d. split; [reflexivity|].
    apply Hd. destruct (1 <? length delims)%nat; [|discriminate].
    apply find_some in E as [_ E]. apply existsb_exists in E as [kv [Hin Heq]].
    apply Ascii.eqb_eq in Heq. subst d. apply in_map. exact Hin.
  - destruct (map _ delims) as [|i items] eqn:Em; [discriminate|].
    intros H. injection H as <- _. right. eexists. split; [reflexivity|].
    apply Hd. pose proof (greatest_item_In items i) as Hin. rewrite <- Em in Hin.
    apply in_map_iff in Hin as [kv [Heq Hin]]. rewrite <- Heq. cbn [snd].
    apply in_map. exact Hin.
Qed.

Lemma guess_loop_inv (fuel : nat) (chunkLength : nat) (dl : str) (sk : bool) :
  forall start end_ iteration cf modes delims,
    freq_inv data cf -> modes_inv data modes -> delims_inv data delimiters delims ->
    Csv.guess_loop fuel data delimiters chunkLength start end_ iteration
                   cf modes delims = Ok (dl, sk) ->
    dl = [] \/ exists c, dl = [c] /\ Py.contains c delimiters = true /\ occurs data c.
Proof.
  induction fuel as [|fuel IH]; intros start end_ iteration cf modes delims
    Hcf Hm Hd H; cbn [Csv.guess_loop] in H.
  - exact (after_loop_inv delims dl sk Hd H).
  - destruct (start <? length data)%nat; [|exact (after_loop_inv delims dl sk Hd H)].
    set (chunk := firstn (end_ - start) (skipn start data)) in H.
    assert (Hsub : forall ln, In ln chunk -> In ln data).
    { intros ln Hin. unfold chunk in Hin.
      rewrite <- (firstn_skipn start data). apply in_or_app. right.
      rewrite <- (firstn_skipn (end_ - start) (skipn start data)).
      apply in_or_app. left. exact Hin. }
    pose proof (tally_chunk_inv chunk Hsub cf Hcf) as Hcf'.
    destruct (Csv.update_modes (fold_left Csv.tally_line chunk cf) modes)
      as [modes'|] eqn:Em; cbn [bind] in H; [|discriminate].
    pose proof (update_modes_inv _ Hcf' modes modes' Hm Em) as Hm'.
    pose proof (build_delims_inv
                  (Z.of_nat (Nat.min (chunkLength * S iteration) (length data)))
                  modes' delims Hm' Hd) as Hd'.
    destruct (Csv.build_delims _ _ modes' delims) as [|[d v] [|e rest]] eqn:Eb.
    + exact (IH _ _ _ _ _ _ Hcf' Hm' Hd' H).
    + injection H as <- _. right. exists d. split; [reflexivity|].
      apply Hd'. left. reflexivity.
    + exact (IH _ _ _ _ _ _ Hcf' Hm' Hd' H).
Qed.

End Guess.

(** ** The dialect the sniffer returns *)

Lemma contains_In (c : ascii) (s : str) : Py.contains c s = true <-> In c s.
Proof.
  unfold Py.contains. rewrite existsb_exists. split.
  - intros [x [Hin Heq]]. apply Ascii.eqb_eq in Heq. subst. exact Hin.
  - intros Hin. exists c. split; [exact Hin|apply Ascii.eqb_refl].
Qed.

Lemma count_pos_contains (c : ascii) (s : str) :
  0 < Py.count c s -> Py.contains c s = true.
Proof.
  destruct (Py.contains c s) eqn:E; [reflexivity|].
  rewrite (count_zero c s E). lia.
Qed.

Lemma split_piece_chars (d : ascii) (s piece : str) (c : ascii) :
  In piece (Py.split d s) -> In c piece -> In c s.
Proof.
  intros Hp Hc.
  assert (H : Forall (Forall (fun x => In x s)) (Py.split d s)).
  { apply split_chars. apply Forall_forall. auto. }
  rewrite Forall_forall in H. specialize (H piece Hp).
  rewrite Forall_forall in H. exact (H c Hc).
Qed.

Lemma guess_delimiter_keys (sample delimiters dl : str) (sk : bool) :
  Csv._guess_delimiter sample delimiters = Ok (dl, sk) ->
  dl = [] \/ exists c, dl = [c] /\ Py.contains c delimiters = true
                       /\ Py.contains c sample = true.
Proof.
  unfold Csv._guess_delimiter. intros H.
  apply guess_loop_inv in H.
  - destruct H as [->|[c [-> [Hc [ln [Hin Hpos]]]]]]; [left; reflexivity|right].
    exists c. split; [reflexivity|]. split; [exact Hc|].
    apply filter_In in Hin as [Hin _]. apply contains_In.
    apply (split_piece_chars LF sample ln c Hin).
    apply contains_In. exact (count_pos_contains c ln Hpos).
  - intros c items [].
  - intros c v [].
  - intros c [].
Qed.

(** The delimiter of a sniffed dialect is one character, one of those
    asked for, and it occurs in the sample; the quote character is one
    character too. *)
Lemma sniff_keys (sample delimiters : str) (sn : Csv.sniffed) :
  Csv.sniff sample delimiters = Ok sn ->
  exists D q,
    Csv.sn_delimiter sn = [D] /\ Csv.sn_quotechar sn = [q]
    /\ Py.contains D delimiters = true /\ Py.contains D sample = true
    /\ (q = DQUOTE \/ Py.contains q sample = true).
Proof.
  unfold Csv.sniff.
  destruct (Csv._guess_quote_and_delimiter sample delimiters)
    as [[[[qc dq] dl0] sk0]|] eqn:E1; cbn [bind]; [|discriminate].
  apply (guess_quote_keys (fun c => Py.contains c sample = true)) in E1 as [Hq Hd0];
    [|apply Forall_forall; intros c Hc; apply contains_In; exact Hc].
  assert (Hquote : exists q, (if Csv.nonempty qc then qc else [DQUOTE]) = [q]
                             /\ (q = DQUOTE \/ Py.contains q sample = true)).
  { destruct Hq as [->|[q [-> Hq]]]; [exists DQUOTE|exists q]; cbn; auto. }
  destruct Hquote as [q [Eq Hq']].
  destruct (negb (Csv.nonempty dl0)) eqn:En.
  - destruct (Csv._guess_delimiter sample delimiters) as [[dl sk]|] eqn:E2;
      cbn [bind]; [|discriminate].
    apply guess_delimiter_keys in E2.
    destruct E2 as [->|[D [-> [H1 H2]]]]; cbn [Csv.nonempty negb]; [discriminate|].
    intros H. injection H as <-. exists D, q. cbn. rewrite Eq. auto.
  - cbn [bind]. rewrite En. intros H. injection H as <-.
    destruct Hd0 as [->|[D [-> [H1 H2]]]]; [discriminate En|].
    exists D, q. cbn. rewrite Eq. auto.
Qed.

Lemma candidate_chars (c : ascii) :
  Py.contains c (Py.join [] CANDIDATE_DELIMS) = true <-> In c [COMMA; SEMICOLON; PIPE].
Proof.
  split; [apply candidates_contains|].
  intros [<-|[<-|[<-|[]]]]; reflexivity.
Qed.

Lemma sample_chars (lines : list str) (c : ascii) :
  Py.contains c (sample_of lines) = true ->
  c = LF \/ exists ln, In ln (firstn 20 lines) /\ Py.contains c ln = true.
Proof.
  unfold sample_of. generalize (firstn 20 lines) as ls.
  induction ls as [|x ls IH]; [discriminate|].
  destruct ls as [|y ls].
  - cbn [Py.join]. intros H. right. exists x. split; [left; reflexivity|exact H].
  - rewrite join_cons2. unfold Py.contains in *. rewrite !existsb_app.
    intros H. apply orb_prop in H as [H|H].
    + right. exists x. split; [left; reflexivity|exact H].
    + apply orb_prop in H as [H|H].
      * left. cbn in H. rewrite orb_false_r in H. apply Ascii.eqb_eq in H.
        exact H.
      * destruct (IH H) as [Hl|[ln [Hin Hc]]]; [left; exact Hl|].
        right. exists ln. split; [right; exact Hin|exact Hc].
Qed.

(** X5.  Whenever the sniffer returns a dialect for the sample, the
    delimiter is one character, it is a comma, a semicolon or a pipe, and
    it occurs in one of the first 20 retained lines; the quote character is
    one character too, and the reader takes the dialect. *)
Theorem sniffed_delimiter_is_a_candidate (text : str) (sn : Csv.sniffed) :
  Csv.sniff (sample_of (retained_lines text)) (Py.join [] CANDIDATE_DELIMS) = Ok sn ->
  exists D q d,
    Csv.sn_delimiter sn = [D] /\ Csv.sn_quotechar sn = [q]
    /\ In D [COMMA; SEMICOLON; PIPE]
    /\ (exists ln, In ln (firstn 20 (retained_lines text))
                   /\ Py.contains D ln = true)
    /\ Csv.dialect_of sn = Ok d /\ Csv.delimiter d = D.
Proof.
  intros H. destruct (sniff_keys _ _ sn H) as [D [q [E1 [E2 [H1 [H2 _]]]]]].
  apply candidate_chars in H1.
  exists D, q. eexists. split; [exact E1|]. split; [exact E2|].
  split; [exact H1|]. split.
  - apply sample_chars in H2 as [->|H2]; [|exact H2].
    destruct H1 as [H1|[H1|[H1|[]]]]; discriminate H1.
  - unfold Csv.dialect_of. rewrite E1, E2. cbn. split; reflexivity.
Qed.

Lemma sniffed_delimiter_is_a_candidate_witness :
  Csv.sniff (sample_of (retained_lines csv_example)) (Py.join [] CANDIDATE_DELIMS)
  = Ok csv_dialect
  /\ exists D q d,
       Csv.sn_delimiter csv_dialect = [D] /\ Csv.sn_quotechar csv_dialect = [q]
       /\ In D [COMMA; SEMICOLON; PIPE]
       /\ (exists ln, In ln (firstn 20 (retained_lines csv_example))
                      /\ Py.contains D ln = true)
       /\ Csv.dialect_of csv_dialect = Ok d /\ Csv.delimiter d = D.
Proof.
  split; [vm_compute; reflexivity|].
  exact (sniffed_delimiter_is_a_candidate csv_example csv_dialect eq_refl).
Defined.

(** X4.  When none of the first 20 retained lines contains a tab, a comma,
    a semicolon or a pipe, the sniffer finds no delimiter and the result is
    the aligned fallback on all retained lines, whatever the later lines
    contain. *)
Theorem no_candidate_falls_back (text : str) :
  Forall (fun ln => forall c, In c [TAB; COMMA; SEMICOLON; PIPE] ->
                              Py.contains c ln = false)
         (firstn 20 (retained_lines text)) ->
  parse_text_to_rows text = Ok (aligned_rows (retained_lines text)).
Proof.
  intros Hfree. unfold parse_text_to_rows.
  destruct (retained_lines text) as [|l ls] eqn:El; [reflexivity|].
  cbn [Csv.nonempty negb]. rewrite <- El in *.
  assert (Hno : forall c, In c [TAB; COMMA; SEMICOLON; PIPE] ->
                          Py.contains c (sample_of (retained_lines text)) = false).
  { intros c Hc. destruct (Py.contains c _) eqn:E; [|reflexivity]. exfalso.
    apply sample_chars in E as [->|[ln [Hin Hln]]].
    - destruct Hc as [Hc|[Hc|[Hc|[Hc|[]]]]]; discriminate Hc.
    - rewrite Forall_forall in Hfree. rewrite (Hfree ln Hin c Hc) in Hln.
      discriminate Hln. }
  rewrite (Hno TAB) by (left; reflexivity).
  unfold sniffed_rows.
  destruct (Csv.sniff _ _) as [sn|e] eqn:Es; [|reflexivity]. exfalso.
  destruct (sniff_keys _ _ sn Es) as [D [q [_ [_ [H1 [H2 _]]]]]].
  apply candidate_chars in H1. rewrite Hno in H2; [discriminate H2|].
  right. exact H1.
Qed.

Lemma no_candidate_falls_back_witness :
  Forall (fun ln => forall c, In c [TAB; COMMA; SEMICOLON; PIPE] ->
                              Py.contains c ln = false)
         (firstn 20 (retained_lines prose_example))
  /\ parse_text_to_rows prose_example
     = Ok [[lit "no delimiter here"]; [lit "just words"]].
Proof.
  assert (H : Forall (fun ln => forall c, In c [TAB; COMMA; SEMICOLON; PIPE] ->
                                          Py.contains c ln = false)
                     (firstn 20 (retained_lines prose_example))).
  { change (firstn 20 (retained_lines prose_example))
      with [lit "no delimiter here"; lit "just words"].
    repeat constructor; intros c [<- | [<- | [<- | [<- | []]]]]; reflexivity. }
  split; [exact H|].
  exact (eq_trans (no_candidate_falls_back prose_example H) eq_refl).
Defined.

(** ** The sniffed strategy on lines without the quote character *)

(** X6.  When the sample has no tab, the sniffer returns the delimiter [D]
    and the quote character [q], no retained line contains [q] and no piece
    of a line between two [D] is longer than the field limit of the reader,
    the rows are the retained lines split at every [D]; the cells lose their
    leading spaces when the sniffer said [skipinitialspace], and nothing
    else. *)
Theorem sniffed_rows_split_at_delimiter
        (text : str) (sn : Csv.sniffed) (D q : ascii) :
  Py.contains TAB (sample_of (retained_lines text)) = false ->
  Csv.sniff (sample_of (retained_lines text)) (Py.join [] CANDIDATE_DELIMS) = Ok sn ->
  Csv.sn_delimiter sn = [D] ->
  Csv.sn_quotechar sn = [q] ->
  Forall (fun ln => Py.contains q ln = false /\ fits (Py.split D ln))
         (retained_lines text) ->
  parse_text_to_rows text
  = Ok (map (fun ln => map (skip_initial (Csv.sn_skipinitialspace sn))
                           (Py.split D ln))
            (retained_lines text)).
Proof.
  intros Htab Hsniff HD Hq Hlines.
  destruct (sniff_keys _ _ sn Hsniff) as [D' [q' [E1 [_ [H1 _]]]]].
  rewrite HD in E1. injection E1 as <-. apply candidate_chars in H1.
  pose proof (retained_lines_nonempty text) as Hnonempty.
  pose proof (retained_lines_no_linebreak text) as Hnb.
  unfold parse_text_to_rows.
  destruct (retained_lines text) as [|l ls] eqn:El; [reflexivity|].
  cbn [Csv.nonempty negb]. rewrite <- El in *. rewrite Htab.
  unfold sniffed_rows. rewrite Hsniff. cbn [bind].
  unfold Csv.reader, Csv.dialect_of. rewrite HD, Hq. cbn [Csv.one_char bind].
  set (d := {| Csv.delimiter := D; Csv.quotechar := q;
               Csv.doublequote := Csv.sn_doublequote sn;
               Csv.skipinitialspace := Csv.sn_skipinitialspace sn |}).
  rewrite (read_rows_plain d (candidate_neq_SPACE D H1)); [reflexivity|].
  apply Forall_forall. intros ln Hin.
  rewrite Forall_forall in Hnonempty, Hnb, Hlines.
  destruct (Hlines ln Hin) as [Hqln Hfits].
  split; [apply Hnonempty, Hin|]. split.
  - specialize (Hnb ln Hin). clear - Hnb Hqln.
    induction Hnb as [|c ln Hc Hln IH]; [constructor|].
    simpl in Hqln. apply orb_false_elim in Hqln as [Hqc Hqln].
    constructor; [|apply IH, Hqln].
    destruct (linebreak_CR_LF c Hc) as [Hcr Hlf].
    unfold plain_char, d. cbn [Csv.quotechar].
    rewrite (Ascii.eqb_sym c q), Hqc, Hlf, Hcr. reflexivity.
  - unfold plain_row. apply fits_skip_initial. exact Hfits.
Qed.

Lemma sniffed_rows_split_at_delimiter_witness :
  Py.contains TAB (sample_of (retained_lines csv_example)) = false
  /\ Csv.sniff (sample_of (retained_lines csv_example)) (Py.join [] CANDIDATE_DELIMS)
     = Ok csv_dialect
  /\ Forall (fun ln => Py.contains DQUOTE ln = false /\ fits (Py.split COMMA ln))
            (retained_lines csv_example)
  /\ parse_text_to_rows csv_example
     = Ok [[lit "a"; lit "b"; lit "c"]; [lit "1"; lit "2"; lit "3"]].
Proof.
  assert (H : Forall (fun ln => Py.contains DQUOTE ln = false
                                /\ fits (Py.split COMMA ln))
                     (retained_lines csv_example)).
  { change (retained_lines csv_example) with [lit "a,b,c"; lit "1,2,3"].
    repeat constructor; vm_compute; discriminate. }
  split; [reflexivity|]. split; [vm_compute; reflexivity|]. split; [exact H|].
  exact (sniffed_rows_split_at_delimiter csv_example csv_dialect COMMA DQUOTE
           eq_refl eq_refl eq_refl eq_refl H).
Defined.

(** ** The size of the fields the reader returns *)

Lemma save_field_sized (self : Csv.ReaderObj) :
  reader_sized self -> reader_sized (Csv.parse_save_field self).
Proof.
  intros [Hlen [Hle Hf]]. unfold reader_sized. cbn.
  split; [reflexivity|]. split; [discriminate|].
  apply Forall_app. split; [exact Hf|]. constructor; [|constructor].
  rewrite <- Hlen. exact Hle.
Qed.

Lemma set_state_sized (self : Csv.ReaderObj) (s : Csv.ParserState) :
  reader_sized self -> reader_sized (Csv.set_state self s).
Proof. intros H. exact H. Qed.

Lemma add_char_sized (self self' : Csv.ReaderObj) (c : ascii) :
  reader_sized self -> Csv.parse_add_char self c = Ok self' -> reader_sized self'.
Proof.
  intros [Hlen [Hle Hf]]. unfold Csv.parse_add_char.
  destruct (Csv.field_limit <=? Csv.field_len self)%N eqn:E; [discriminate|].
  apply N.leb_gt in E. intros H. injection H as <-. unfold reader_sized. cbn.
  rewrite length_app. cbn [length]. split; [lia|]. split; [lia|exact Hf].
Qed.

Ltac sized_step :=
  repeat match goal with
  | H : Ok _ = Ok _ |- _ => injection H as <-
  | H : Raise _ = Ok _ |- _ => discriminate H
  | H : bind (Csv.parse_add_char ?s ?c) _ = Ok _ |- _ =>
      let E := fresh "E" in
      destruct (Csv.parse_add_char s c) eqn:E; simpl in H;
      [eapply add_char_sized in E; [|eassumption]|discriminate H]
  | H : Csv.parse_add_char _ _ = Ok _ |- _ =>
      eapply add_char_sized in H; [|eassumption]
  | H : (if ?b then _ else _) = Ok _ |- _ => destruct b
  | |- reader_sized (Csv.set_state _ _) => apply set_state_sized
  | |- reader_sized (Csv.parse_save_field _) => apply save_field_sized
  end; try assumption.

Lemma process_char_sized (d : Csv.dialect) (self self' : Csv.ReaderObj)
      (c : Csv.pchar) :
  reader_sized self ->
  Csv.parse_process_char d self c = Ok self' -> reader_sized self'.
Proof.
  intros Hinv. unfold Csv.parse_process_char, Csv.start_field.
  destruct (Csv.state self), c as [ch|]; intros H; sized_step.
  all: pose proof (set_state_sized self Csv.START_FIELD Hinv); sized_step.
Qed.

Lemma parse_chars_sized (d : Csv.dialect) (line : str) :
  forall self self', reader_sized self ->
  Csv.parse_chars d self line = Ok self' -> reader_sized self'.
Proof.
  induction line as [|c line IH]; simpl; intros self self' Hinv H.
  - exact (process_char_sized d self self' Csv.EOL Hinv H).
  - destruct (Csv.parse_process_char d self (Csv.Ch c)) as [s1|] eqn:E;
      simpl in H; [|discriminate].
    eapply IH; [|exact H].
    exact (process_char_sized d self s1 (Csv.Ch c) Hinv E).
Qed.

Lemma parse_reset_sized : reader_sized Csv.parse_reset.
Proof. split; [reflexivity|]. split; [discriminate|constructor]. Qed.

Lemma read_rows_sized (d : Csv.dialect) (lines : list str) :
  forall self rows, reader_sized self ->
  Csv.read_rows d self lines = Ok rows -> Forall fits rows.
Proof.
  induction lines as [|line lines IH]; simpl; intros self rows Hinv H.
  - destruct (_ || _); injection H as <-; [|constructor].
    constructor; [|constructor]. apply save_field_sized, Hinv.
  - destruct (Csv.parse_chars d self line) as [s1|] eqn:E; simpl in H; [|discriminate].
    pose proof (parse_chars_sized d line _ _ Hinv E) as Hs1.
    destruct (Csv.state_eqb (Csv.state s1) Csv.START_RECORD).
    + destruct (Csv.read_rows d Csv.parse_reset lines) as [rs|] eqn:E2;
        simpl in H; [|discriminate].
      injection H as <-. constructor; [apply Hs1|].
      exact (IH _ _ parse_reset_sized E2).
    + exact (IH _ _ Hs1 H).
Qed.

(** X7.  When the sample has no tab and the sniffer and the reader return
    rows, these rows are the result, and no cell of them has more than
    131072 characters (a longer field makes the reader raise, and the text
    goes to the aligned fallback). *)
Theorem sniffed_cells_fit_field_limit (text : str) (rows : list (list str)) :
  Py.contains TAB (sample_of (retained_lines text)) = false ->
  sniffed_rows (retained_lines text) (sample_of (retained_lines text)) = Ok rows ->
  parse_text_to_rows text = Ok rows
  /\ Forall (Forall (fun cell => (N.of_nat (length cell) <= 131072)%N)) rows.
Proof.
  intros Htab Hs. split.
  - unfold parse_text_to_rows.
    destruct (retained_lines text) as [|l ls] eqn:El.
    + unfold sniffed_rows in Hs.
      destruct (Csv.sniff _ _) as [sn|]; cbn [bind] in Hs; [|discriminate].
      unfold Csv.reader in Hs.
      destruct (Csv.dialect_of sn) as [d|]; cbn [bind] in Hs; [|discriminate].
      cbn in Hs. injection Hs as <-. reflexivity.
    + cbn [Csv.nonempty negb]. rewrite Htab, Hs. reflexivity.
  - unfold sniffed_rows in Hs.
    destruct (Csv.sniff _ _) as [sn|]; cbn [bind] in Hs; [|discriminate].
    unfold Csv.reader in Hs.
    destruct (Csv.dialect_of sn) as [d|]; cbn [bind] in Hs; [|discriminate].
    exact (read_rows_sized d _ _ _ parse_reset_sized Hs).
Qed.

Lemma sniffed_cells_fit_field_limit_witness :
  Py.contains TAB (sample_of (retained_lines csv_example)) = false
  /\ sniffed_rows (retained_lines csv_example) (sample_of (retained_lines csv_example))
     = Ok [[lit "a"; lit "b"; lit "c"]; [lit "1"; lit "2"; lit "3"]]
  /\ parse_text_to_rows csv_example
     = Ok [[lit "a"; lit "b"; lit "c"]; [lit "1"; lit "2"; lit "3"]]
  /\ Forall (Forall (fun cell : str => (N.of_nat (length cell) <= 131072)%N))
            [[lit "a"; lit "b"; lit "c"]; [lit "1"; lit "2"; lit "3"]].
Proof.
  split; [reflexivity|]. split; [vm_compute; reflexivity|].
  exact (sniffed_cells_fit_field_limit
           csv_example [[lit "a"; lit "b"; lit "c"]; [lit "1"; lit "2"; lit "3"]]
           eq_refl eq_refl).
Defined.

(** ** The tab strategy keeps ragged rows *)

(** X2.  When the sample contains a tab, every retained line gives one row,
    and the row has one cell more than the line has tabs: rows of different
    lengths come out as they are, neither filled up nor cut. *)
Theorem tab_strategy_cell_counts (text : str) :
  Py.contains TAB (sample_of (retained_lines text)) = true ->
  exists rows,
    parse_text_to_rows text = Ok rows
    /\ Forall2 (fun ln row => length row = Py.count TAB ln + 1)
               (retained_lines text) rows.
Proof.
  intros Htab. exists (tab_rows (retained_lines text)).
  split; [exact (parse_text_to_rows_tab text Htab)|].
  clear Htab. unfold tab_rows.
  induction (retained_lines text) as [|ln lines IH]; simpl;
    [constructor|constructor; [|exact IH]].
  rewrite split_length. lia.
Qed.

Lemma tab_strategy_cell_counts_witness :
  Py.contains TAB (sample_of (retained_lines leading_tab_example)) = true
  /\ exists rows,
       parse_text_to_rows leading_tab_example = Ok rows
       /\ Forall2 (fun ln row => length row = Py.count TAB ln + 1)
                  (retained_lines leading_tab_example) rows.
Proof.
  split; [reflexivity|].
  exact (tab_strategy_cell_counts leading_tab_example eq_refl).
Defined.

(** ** Whitespace around the text *)

Lemma lstrip_app_space (w s : str) :
  forallb Py.isspace w = true -> Py.lstrip (w ++ s) = Py.lstrip s.
Proof.
  induction w as [|c w IH]; [reflexivity|]. simpl. intros H.
  apply andb_prop in H as [Hc Hw]. rewrite Hc. exact (IH Hw).
Qed.

Lemma rstrip_app_space (s w : str) :
  forallb Py.isspace w = true -> Py.rstrip (s ++ w) = Py.rstrip s.
Proof.
  intros H. unfold Py.rstrip. rewrite rev_app_distr. f_equal.
  apply lstrip_app_space. rewrite forallb_forall in *. intros c Hc.
  apply H. apply in_rev. exact Hc.
Qed.

Lemma lstrip_app_keep (s w : str) :
  forallb Py.isspace s = false -> Py.lstrip (s ++ w) = Py.lstrip s ++ w.
Proof.
  induction s as [|c s IH]; [discriminate|]. simpl.
  destruct (Py.isspace c); [exact IH|reflexivity].
Qed.

Lemma strip_surrounded (w1 s w2 : str) :
  forallb Py.isspace w1 = true -> forallb Py.isspace w2 = true ->
  Py.strip (w1 ++ s ++ w2) = Py.strip s.
Proof.
  intros H1 H2. unfold Py.strip. rewrite (lstrip_app_space w1 _ H1).
  destruct (forallb Py.isspace s) eqn:Es.
  - rewrite (lstrip_all_space s Es).
    rewrite lstrip_all_space; [reflexivity|].
    rewrite forallb_app, Es, H2. reflexivity.
  - rewrite (lstrip_app_keep s w2 Es). apply rstrip_app_space. exact H2.
Qed.

(** X8.  Whitespace before and after the text does not change the result. *)
Theorem surrounding_whitespace_is_ignored (w1 text w2 : str) :
  forallb Py.isspace w1 = true -> forallb Py.isspace w2 = true ->
  parse_text_to_rows (w1 ++ text ++ w2) = parse_text_to_rows text.
Proof.
  intros H1 H2. unfold parse_text_to_rows, retained_lines.
  rewrite (strip_surrounded w1 text w2 H1 H2). reflexivity.
Qed.

Lemma surrounding_whitespace_is_ignored_witness :
  forallb Py.isspace [LF; SPACE] = true
  /\ forallb Py.isspace [TAB; CR; LF] = true
  /\ parse_text_to_rows ([LF; SPACE] ++ csv_example ++ [TAB; CR; LF])
     = parse_text_to_rows csv_example.
Proof.
  split; [reflexivity|]. split; [reflexivity|].
  exact (surrounding_whitespace_is_ignored [LF; SPACE] csv_example [TAB; CR; LF]
           eq_refl eq_refl).
Defined.

(** ** The first line kept *)

Lemma linebreak_isspace (c : ascii) :
  Py.is_linebreak c = true -> Py.isspace c = true.
Proof.
  destruct c as [[|] [|] [|] [|] [|] [|] [|] [|]]; vm_compute; intros H;
    first [reflexivity | discriminate H].
Qed.

Lemma rstrip_nonempty (c : ascii) (l : str) :
  Py.isspace c = false -> Py.rstrip (c :: l) <> [].
Proof.
  intros Hc. unfold Py.rstrip. cbn [rev].
  rewrite (lstrip_app_nonspace (rev l) [] c Hc). rewrite rev_app_distr. cbn.
  discriminate.
Qed.

Lemma splitlines_first (c : ascii) (s : str) :
  Py.isspace c = false ->
  exists l ls, Py.splitlines (c :: s) = (c :: l) :: ls.
Proof.
  intros Hc. cbn [Py.splitlines].
  destruct (Py.is_linebreak c) eqn:E.
  - apply linebreak_isspace in E. congruence.
  - destruct (Py.splitlines s) as [|l ls]; eauto.
Qed.

(** The text is stripped before it is cut into lines: the first line kept
    starts with a character that is not whitespace. *)
Lemma retained_lines_first (text : str) (l : str) (ls : list str) :
  retained_lines text = l :: ls ->
  exists c l', l = c :: l' /\ Py.isspace c = false.
Proof.
  unfold retained_lines. pose proof (strip_starts text) as Hs.
  destruct (Py.strip text) as [|c s]; [discriminate|].
  cbn in Hs. destruct (splitlines_first c s Hs) as [l0 [ls0 ->]].
  cbn [filter].
  assert (E : Csv.nonempty (Py.strip (c :: l0)) = true).
  { unfold Py.strip. cbn [Py.lstrip]. rewrite Hs.
    destruct (Py.rstrip (c :: l0)) eqn:Er; [|reflexivity].
    exfalso. exact (rstrip_nonempty c l0 Hs Er). }
  rewrite E. intros H. injection H as <- _. eauto.
Qed.

(** X3.  When the sample contains a tab, the first cell of the first row
    is not empty and starts with a character that is not whitespace.  The
    text is stripped before it is split, so a table whose first cell is
    empty comes out without that cell. *)
Theorem tab_table_starts_with_a_filled_cell (text : str) :
  Py.contains TAB (sample_of (retained_lines text)) = true ->
  exists c cell cells rows,
    parse_text_to_rows text = Ok (((c :: cell) :: cells) :: rows)
    /\ Py.isspace c = false.
Proof.
  intros Htab. rewrite (parse_text_to_rows_tab text Htab).
  destruct (retained_lines text) as [|l ls] eqn:El.
  { rewrite contains_nil_sample in Htab. discriminate. }
  destruct (retained_lines_first text l ls El) as [c [l' [-> Hc]]].
  unfold tab_rows. cbn [map Py.split].
  assert (E : Ascii.eqb c TAB = false).
  { apply Ascii.eqb_neq. intros ->. discriminate Hc. }
  rewrite E. destruct (Py.split TAB l') as [|p ps] eqn:Ep.
  - exists c, [], [], (map (Py.split TAB) ls). split; [reflexivity|exact Hc].
  - exists c, p, ps, (map (Py.split TAB) ls). split; [reflexivity|exact Hc].
Qed.

Lemma tab_table_starts_with_a_filled_cell_witness :
  Py.contains TAB (sample_of (retained_lines leading_tab_example)) = true
  /\ parse_text_to_rows leading_tab_example
     = Ok [[lit "b"; lit "c"]; [lit "x"; lit "y"; lit "z"]]
  /\ exists c cell cells rows,
       parse_text_to_rows leading_tab_example = Ok (((c :: cell) :: cells) :: rows)
       /\ Py.isspace c = false.
Proof.
  split; [reflexivity|]. split; [vm_compute; reflexivity|].
  exact (tab_table_starts_with_a_filled_cell leading_tab_example eq_refl).
Defined.

(** ** No character but whitespace is lost outside the sniffed strategy *)

Lemma squeeze_app (a b : str) : squeeze (a ++ b) = squeeze a ++ squeeze b.
Proof. apply filter_app. Qed.

Lemma squeeze_space (w : str) : forallb Py.isspace w = true -> squeeze w = [].
Proof.
  induction w as [|c w IH]; [reflexivity|]. cbn. intros H.
  apply andb_prop in H as [Hc Hw]. rewrite Hc. exact (IH Hw).
Qed.

Lemma squeeze_lstrip (s : str) : squeeze (Py.lstrip s) = squeeze s.
Proof.
  destruct (lstrip_decomp s) as [ws [E Hws]]. rewrite E at 2.
  rewrite squeeze_app, (squeeze_space ws Hws). reflexivity.
Qed.

Lemma squeeze_rev (s : str) : squeeze (rev s) = rev (squeeze s).
Proof.
  induction s as [|c s IH]; [reflexivity|]. cbn [rev].
  rewrite squeeze_app, IH. cbn. destruct (Py.isspace c); cbn.
  - rewrite app_nil_r. reflexivity.
  - reflexivity.
Qed.

Lemma squeeze_strip (s : str) : squeeze (Py.strip s) = squeeze s.
Proof.
  unfold Py.strip, Py.rstrip.
  rewrite squeeze_rev, squeeze_lstrip, squeeze_rev, rev_involutive.
  apply squeeze_lstrip.
Qed.

Lemma squeeze_runs (s : str) (pieces : list str) :
  SplitRuns s pieces -> squeeze (concat pieces) = squeeze s.
Proof.
  induction 1 as [s Hs|cell sep rest cells Hc He Hsep Hlen Hr Hrest IH].
  - cbn. rewrite app_nil_r. reflexivity.
  - cbn [concat]. rewrite !squeeze_app, IH, (squeeze_space sep Hsep). reflexivity.
Qed.

Lemma squeeze_aligned_row (ln : str) :
  squeeze (concat (aligned_row ln)) = squeeze ln.
Proof.
  unfold aligned_row.
  rewrite <- (squeeze_strip ln), <- (squeeze_runs _ _ (re_split_runs (Py.strip ln))).
  induction (Re.split two_or_more_spaces (Py.strip ln)) as [|p ps IH]; [reflexivity|].
  cbn [map concat]. rewrite !squeeze_app, IH, squeeze_strip. reflexivity.
Qed.

Lemma squeeze_split (d : ascii) (s : str) :
  Py.isspace d = true -> squeeze (concat (Py.split d s)) = squeeze s.
Proof.
  intros Hd. induction s as [|c s IH]; [reflexivity|]. cbn [Py.split].
  destruct (Ascii.eqb c d) eqn:E.
  - apply Ascii.eqb_eq in E. subst c. cbn [concat app]. rewrite IH.
    cbn. rewrite Hd. reflexivity.
  - pose proof (split_nonempty d s) as Hne.
    destruct (Py.split d s) as [|l ls]; [contradiction|].
    cbn [concat] in IH. cbn [concat app]. unfold squeeze in *. cbn [filter].
    rewrite IH. reflexivity.
Qed.

(** X9.  When the rows come from the tab strategy or from the aligned
    fallback, every row holds the characters of its line that are not
    whitespace, all of them and in their order: the cells of the row put
    together and the line are the same text once whitespace is left out. *)
Theorem unsniffed_rows_keep_the_text (text : str) (rows : list (list str)) :
  (Py.contains TAB (sample_of (retained_lines text)) = true
   \/ exists e, sniffed_rows (retained_lines text) (sample_of (retained_lines text))
                = Raise e) ->
  parse_text_to_rows text = Ok rows ->
  Forall2 (fun ln row => squeeze (concat row) = squeeze ln)
          (retained_lines text) rows.
Proof.
  intros Hcase Hrows.
  assert (E : rows = tab_rows (retained_lines text)
              \/ rows = aligned_rows (retained_lines text)).
  { unfold parse_text_to_rows in Hrows.
    destruct (retained_lines text) as [|l ls] eqn:El.
    - injection Hrows as <-. left. reflexivity.
    - cbn [Csv.nonempty negb] in Hrows. rewrite <- El in *.
      destruct (Py.contains TAB _).
      + injection Hrows as <-. left. reflexivity.
      + destruct Hcase as [Htab|[e He]]; [discriminate Htab|].
        rewrite He in Hrows. injection Hrows as <-. right. reflexivity. }
  clear Hcase Hrows. destruct E as [->| ->].
  - unfold tab_rows. induction (retained_lines text) as [|ln lines IH];
      cbn [map]; constructor; [|exact IH].
    apply squeeze_split. reflexivity.
  - unfold aligned_rows. induction (retained_lines text) as [|ln lines IH];
      cbn [map]; constructor; [|exact IH].
    apply squeeze_aligned_row.
Qed.

Lemma unsniffed_rows_keep_the_text_witness :
  (exists e, sniffed_rows (retained_lines aligned_example)
                          (sample_of (retained_lines aligned_example)) = Raise e)
  /\ parse_text_to_rows aligned_example
     = Ok [[lit "Name"; lit "Age"; lit "City"]; [lit "Ann Lee"; lit "31"; lit "New York"]]
  /\ Forall2 (fun ln row => squeeze (concat row) = squeeze ln)
             (retained_lines aligned_example)
             [[lit "Name"; lit "Age"; lit "City"];
              [lit "Ann Lee"; lit "31"; lit "New York"]].
Proof.
  assert (H : exists e, sniffed_rows (retained_lines aligned_example)
                                     (sample_of (retained_lines aligned_example))
                        = Raise e).
  { eexists. vm_compute. reflexivity. }
  split; [exact H|]. split; [vm_compute; reflexivity|].
  exact (unsniffed_rows_keep_the_text
           aligned_example
           [[lit "Name"; lit "Age"; lit "City"]; [lit "Ann Lee"; lit "31"; lit "New York"]]
           (or_intror H) eq_refl).
Defined.

(** ** The separator of [write_rows] *)

Lemma write_rows_one_char (c : ascii) (rows : list (list str)) :
  write_rows rows [c] = Ok (utf8_encode (concat (map (render_row c) rows))).
Proof.
  unfold write_rows. rewrite writer_dialect_one_char. cbn [bind].
  rewrite write_text_renders. reflexivity.
Qed.


Lemma utf8_encode_app (a b : str) :
  utf8_encode (a ++ b) = utf8_encode a ++ utf8_encode b.
Proof. apply flat_map_app. Qed.

(** X12.  The rows are written one after the other: what [write_rows]
    writes for [rows1 ++ rows2] is what it writes for [rows1] followed by
    what it writes for [rows2]. *)
Theorem write_rows_writes_row_after_row
        (rows1 rows2 : list (list str)) (sep : ascii) :
  exists bytes1 bytes2,
    write_rows rows1 [sep] = Ok bytes1
    /\ write_rows rows2 [sep] = Ok bytes2
    /\ write_rows (rows1 ++ rows2) [sep] = Ok (bytes1 ++ bytes2).
Proof.
  rewrite !write_rows_one_char. do 2 eexists.
  split; [reflexivity|]. split; [reflexivity|].
  rewrite map_app, concat_app, utf8_encode_app. reflexivity.
Qed.

Lemma utf8_char_length (c : ascii) :
  length (utf8_char c) = if (N_of_ascii c <? 128)%N then 1 else 2.
Proof. unfold utf8_char. destruct (N_of_ascii c <? 128)%N; reflexivity. Qed.

Lemma utf8_encode_length (text : str) :
  length (utf8_encode text)
  = length text + length (filter (fun c => negb (N_of_ascii c <? 128)%N) text).
Proof.
  induction text as [|c text IH]; [reflexivity|].
  unfold utf8_encode in *. cbn [flat_map filter]. rewrite length_app, IH, utf8_char_length.
  destruct (N_of_ascii c <? 128)%N; cbn; lia.
Qed.

(** X13.  The bytes [write_rows] writes decode as UTF-8 to the rendered
    rows, and the file has one byte for each character below U+0080 and two
    for each character from U+0080 to U+00FF. *)
Theorem written_bytes_are_utf8 (rows : list (list str)) (sep : ascii) :
  exists bytes text,
    write_rows rows [sep] = Ok bytes
    /\ text = concat (map (render_row sep) rows)
    /\ utf8_decode bytes = Some text
    /\ length bytes
       = length text + length (filter (fun c => negb (N_of_ascii c <? 128)%N) text).
Proof.
  rewrite write_rows_one_char. do 2 eexists.
  split; [reflexivity|]. split; [reflexivity|].
  split; [apply utf8_decode_encode|apply utf8_encode_length].
Qed.

(** ** The reader on the lines of the writer *)

Section Quoted.
Variable D : ascii.
Variables dq sk : bool.
Hypothesis D_candidate : In D [COMMA; SEMICOLON; PIPE].

Local Abbreviation d :=
  {| Csv.delimiter := D; Csv.quotechar := DQUOTE;
     Csv.doublequote := dq; Csv.skipinitialspace := sk |}.

Lemma candidate_not_DQUOTE : Ascii.eqb DQUOTE D = false.
Proof. destruct D_candidate as [<-|[<-|[<-|[]]]]; reflexivity. Qed.

Lemma add_char_reading (fs : list str) (cur : str) (s : Csv.ParserState) (c : ascii) :
  (N.of_nat (length (cur ++ [c])) <= Csv.field_limit)%N ->
  Csv.parse_add_char (reading fs cur s) c = Ok (reading fs (cur ++ [c]) s).
Proof.
  intros Hlen. unfold Csv.parse_add_char, reading. cbn [Csv.field_len].
  replace (Csv.field_limit <=? N.of_nat (length cur))%N with false.
  - cbn [Csv.fields Csv.field Csv.state Csv.field_len].
    rewrite (of_nat_length_snoc cur c). reflexivity.
  - symmetry. apply N.leb_gt. rewrite length_app in Hlen. cbn [length] in Hlen. lia.
Qed.

Ltac step_tac :=
  unfold Csv.parse_process_char, Csv.start_field;
  cbn [Csv.state reading Csv.is_newline Csv.delimiter Csv.quotechar
       Csv.doublequote Csv.skipinitialspace Csv.set_state Csv.parse_save_field
       Csv.after_line Csv.fields Csv.field Csv.field_len].

Lemma step_in_field (fs : list str) (cur : str) (c : ascii) :
  Ascii.eqb c D = false -> Ascii.eqb c LF = false -> Ascii.eqb c CR = false ->
  (N.of_nat (length (cur ++ [c])) <= Csv.field_limit)%N ->
  Csv.parse_process_char d (reading fs cur Csv.IN_FIELD) (Csv.Ch c)
  = Ok (reading fs (cur ++ [c]) Csv.IN_FIELD).
Proof.
  intros Hd Hlf Hcr Hlen. step_tac. rewrite Hlf, Hcr, Hd. cbn [orb].
  apply (add_char_reading fs cur Csv.IN_FIELD c Hlen).
Qed.

Lemma step_in_field_delimiter (fs : list str) (cur : str) :
  Csv.parse_process_char d (reading fs cur Csv.IN_FIELD) (Csv.Ch D)
  = Ok (reading (fs ++ [cur]) [] Csv.START_FIELD).
Proof.
  step_tac. rewrite Ascii.eqb_refl.
  destruct D_candidate as [<-|[<-|[<-|[]]]]; reflexivity.
Qed.

Lemma step_in_quoted (fs : list str) (cur : str) (c : ascii) :
  Ascii.eqb c DQUOTE = false ->
  (N.of_nat (length (cur ++ [c])) <= Csv.field_limit)%N ->
  Csv.parse_process_char d (reading fs cur Csv.IN_QUOTED_FIELD) (Csv.Ch c)
  = Ok (reading fs (cur ++ [c]) Csv.IN_QUOTED_FIELD).
Proof.
  intros Hq Hlen. step_tac. rewrite Hq.
  apply (add_char_reading fs cur Csv.IN_QUOTED_FIELD c Hlen).
Qed.

Lemma step_in_quoted_quote (fs : list str) (cur : str) :
  Csv.parse_process_char d (reading fs cur Csv.IN_QUOTED_FIELD) (Csv.Ch DQUOTE)
  = Ok (reading fs cur (if dq then Csv.QUOTE_IN_QUOTED_FIELD else Csv.IN_FIELD)).
Proof. step_tac. destruct dq; reflexivity. Qed.

Lemma step_quote_quote (fs : list str) (cur : str) :
  (N.of_nat (length (cur ++ [DQUOTE])) <= Csv.field_limit)%N ->
  Csv.parse_process_char d (reading fs cur Csv.QUOTE_IN_QUOTED_FIELD) (Csv.Ch DQUOTE)
  = Ok (reading fs (cur ++ [DQUOTE]) Csv.IN_QUOTED_FIELD).
Proof.
  intros Hlen. step_tac. change (Ascii.eqb DQUOTE DQUOTE) with true. cbv iota.
  fold (reading fs cur Csv.QUOTE_IN_QUOTED_FIELD).
  rewrite (add_char_reading fs cur _ DQUOTE Hlen). reflexivity.
Qed.

Lemma step_quote_delimiter (fs : list str) (cur : str) :
  Csv.parse_process_char d (reading fs cur Csv.QUOTE_IN_QUOTED_FIELD) (Csv.Ch D)
  = Ok (reading (fs ++ [cur]) [] Csv.START_FIELD).
Proof.
  step_tac. rewrite Ascii.eqb_refl.
  destruct D_candidate as [<-|[<-|[<-|[]]]]; reflexivity.
Qed.

Lemma step_closed_delimiter (fs : list str) (cur : str) :
  Csv.parse_process_char
    d (reading fs cur (if dq then Csv.QUOTE_IN_QUOTED_FIELD else Csv.IN_FIELD))
    (Csv.Ch D)
  = Ok (reading (fs ++ [cur]) [] Csv.START_FIELD).
Proof.
  destruct dq; step_tac; rewrite Ascii.eqb_refl;
    destruct D_candidate as [<-|[<-|[<-|[]]]]; reflexivity.
Qed.

Lemma step_start_quote (fs : list str) (cur : str) :
  Csv.parse_process_char d (reading fs cur Csv.START_FIELD) (Csv.Ch DQUOTE)
  = Ok (reading fs cur Csv.IN_QUOTED_FIELD).
Proof. step_tac. reflexivity. Qed.

Lemma step_start_delimiter (fs : list str) (cur : str) :
  Csv.parse_process_char d (reading fs cur Csv.START_FIELD) (Csv.Ch D)
  = Ok (reading (fs ++ [cur]) [] Csv.START_FIELD).
Proof.
  step_tac. rewrite Ascii.eqb_refl.
  destruct D_candidate as [<-|[<-|[<-|[]]]]; destruct sk; reflexivity.
Qed.

Lemma step_start_char (fs : list str) (cur : str) (c : ascii) :
  Ascii.eqb c D = false -> Ascii.eqb c DQUOTE = false ->
  Ascii.eqb c LF = false -> Ascii.eqb c CR = false -> Py.isspace c = false ->
  (N.of_nat (length (cur ++ [c])) <= Csv.field_limit)%N ->
  Csv.parse_process_char d (reading fs cur Csv.START_FIELD) (Csv.Ch c)
  = Ok (reading fs (cur ++ [c]) Csv.IN_FIELD).
Proof.
  intros Hd Hq Hlf Hcr Hsp Hlen. step_tac. rewrite Hlf, Hcr, Hq, Hd. cbn [orb].
  replace (Ascii.eqb c SPACE) with false.
  - cbn [andb]. fold (reading fs cur Csv.START_FIELD).
    rewrite (add_char_reading fs cur _ c Hlen). reflexivity.
  - symmetry. apply Ascii.eqb_neq. intros ->. discriminate Hsp.
Qed.

Lemma step_eol (fs : list str) (cur : str) (s : Csv.ParserState) :
  s = Csv.START_FIELD \/ s = Csv.IN_FIELD \/ s = Csv.QUOTE_IN_QUOTED_FIELD ->
  Csv.parse_process_char d (reading fs cur s) Csv.EOL
  = Ok (reading (fs ++ [cur]) [] Csv.START_RECORD).
Proof. intros [-> | [-> | ->]]; reflexivity. Qed.

Lemma step_start_record (fs : list str) (cur : str) (c : ascii) :
  Ascii.eqb c LF = false -> Ascii.eqb c CR = false ->
  Csv.parse_process_char d (reading fs cur Csv.START_RECORD) (Csv.Ch c)
  = Csv.parse_process_char d (reading fs cur Csv.START_FIELD) (Csv.Ch c).
Proof. intros Hlf Hcr. step_tac. rewrite Hlf, Hcr. reflexivity. Qed.

(** Inside an unquoted field, the characters that are not the delimiter,
    CR or LF are added one by one. *)
Lemma in_field_run (s : str) :
  Forall (fun c => Ascii.eqb c D = false /\ Ascii.eqb c LF = false
                   /\ Ascii.eqb c CR = false) s ->
  forall (fs : list str) (cur tail : str),
    (N.of_nat (length (cur ++ s)) <= Csv.field_limit)%N ->
    Csv.parse_chars d (reading fs cur Csv.IN_FIELD) (s ++ tail)
    = Csv.parse_chars d (reading fs (cur ++ s) Csv.IN_FIELD) tail.
Proof.
  induction 1 as [|c s [Hd [Hlf Hcr]] Hs IH]; intros fs cur tail Hlen.
  - rewrite app_nil_r. reflexivity.
  - cbn [app Csv.parse_chars].
    rewrite (step_in_field fs cur c Hd Hlf Hcr)
      by (rewrite !length_app in *; cbn [length] in *; lia).
    cbn [bind]. rewrite IH by (rewrite <- app_assoc; exact Hlen).
    rewrite <- app_assoc. reflexivity.
Qed.

(** Inside a quoted field every character is added, a doubled quote
    character once. *)
Lemma quoted_run (s : str) :
  dq = true \/ Py.contains DQUOTE s = false ->
  forall (fs : list str) (cur tail : str),
    (N.of_nat (length (cur ++ s)) <= Csv.field_limit)%N ->
    Csv.parse_chars d (reading fs cur Csv.IN_QUOTED_FIELD) (double_quotes s ++ tail)
    = Csv.parse_chars d (reading fs (cur ++ s) Csv.IN_QUOTED_FIELD) tail.
Proof.
  induction s as [|c s IH]; intros Hq fs cur tail Hlen.
  - rewrite app_nil_r. reflexivity.
  - assert (Hq' : dq = true \/ Py.contains DQUOTE s = false).
    { destruct Hq as [Hq|Hq]; [left; exact Hq|right].
      cbn in Hq. apply orb_false_elim in Hq. apply Hq. }
    assert (Hlen1 : (N.of_nat (length (cur ++ [c])) <= Csv.field_limit)%N).
    { rewrite !length_app in *. cbn [length] in *. lia. }
    assert (Hlen' : (N.of_nat (length ((cur ++ [c]) ++ s)) <= Csv.field_limit)%N)
      by (rewrite <- app_assoc; exact Hlen).
    unfold double_quotes. cbn [flat_map]. fold (double_quotes s).
    destruct (Ascii.eqb c DQUOTE) eqn:Ec.
    + apply Ascii.eqb_eq in Ec. subst c.
      assert (Edq : dq = true).
      { destruct Hq as [Hq|Hq]; [exact Hq|]. cbn in Hq. discriminate Hq. }
      cbn [app Csv.parse_chars].
      rewrite step_in_quoted_quote. cbn [bind].
      replace (if dq then Csv.QUOTE_IN_QUOTED_FIELD else Csv.IN_FIELD)
        with Csv.QUOTE_IN_QUOTED_FIELD by (rewrite Edq; reflexivity).
      rewrite (step_quote_quote fs cur Hlen1). cbn [bind].
      rewrite (IH Hq' fs (cur ++ [DQUOTE]) tail Hlen'), <- app_assoc. reflexivity.
    + cbn [app Csv.parse_chars].
      rewrite (step_in_quoted fs cur c Ec Hlen1). cbn [bind].
      rewrite (IH Hq' fs (cur ++ [c]) tail Hlen'), <- app_assoc. reflexivity.
Qed.

Lemma needs_quote_false (cell : str) :
  needs_quote D cell = false ->
  Forall (fun c => Ascii.eqb c D = false /\ Ascii.eqb c DQUOTE = false
                   /\ Ascii.eqb c CR = false /\ Ascii.eqb c LF = false) cell.
Proof.
  unfold needs_quote. induction cell as [|c cell IH]; [constructor|].
  cbn [existsb]. intros H. apply orb_false_elim in H as [Hc Hcell].
  apply orb_false_elim in Hc as [Hc Hlf]. apply orb_false_elim in Hc as [Hc Hcr].
  apply orb_false_elim in Hc as [Hd Hq].
  constructor; [tauto|exact (IH Hcell)].
Qed.

Lemma quotable_cell_props (cell : str) :
  quotable_cell cell = true ->
  Forall (fun c => Py.is_linebreak c = false) cell
  /\ starts_with_ws cell = false /\ ends_with_ws cell = false
  /\ (N.of_nat (length cell) <= Csv.field_limit)%N.
Proof.
  unfold quotable_cell. intros H.
  apply andb_prop in H as [H Hfit]. apply andb_prop in H as [H He].
  apply andb_prop in H as [Hc Hs].
  repeat split.
  - apply Forall_forall. rewrite forallb_forall in Hc. intros c Hin.
    apply negb_true_iff, Hc, Hin.
  - apply negb_true_iff, Hs.
  - apply negb_true_iff, He.
  - apply N.leb_le, Hfit.
Qed.

(** The reader takes a cell back from what the writer made of it; what
    follows the cell is the end of the line or a delimiter. *)
Lemma cell_read (cell : str) (fs : list str) :
  quotable_cell cell = true ->
  dq = true \/ Py.contains DQUOTE cell = false ->
  Csv.parse_chars d (reading fs [] Csv.START_FIELD) (render_cell D cell)
  = Ok (reading (fs ++ [cell]) [] Csv.START_RECORD)
  /\ forall more,
      Csv.parse_chars d (reading fs [] Csv.START_FIELD)
                      (render_cell D cell ++ D :: more)
      = Csv.parse_chars d (reading (fs ++ [cell]) [] Csv.START_FIELD) more.
Proof.
  intros Hcell Hq. destruct (quotable_cell_props cell Hcell) as [_ [Hs [_ Hlen]]].
  unfold render_cell. destruct (needs_quote D cell) eqn:En.
  - assert (Hrun : forall tail,
               Csv.parse_chars d (reading fs [] Csv.START_FIELD)
                               (([DQUOTE] ++ double_quotes cell ++ [DQUOTE]) ++ tail)
               = Csv.parse_chars d
                   (reading fs cell
                            (if dq then Csv.QUOTE_IN_QUOTED_FIELD else Csv.IN_FIELD))
                   tail).
    { intros tail. rewrite <- !app_assoc. cbn [app Csv.parse_chars].
      rewrite step_start_quote. cbn [bind].
      rewrite (quoted_run cell Hq fs [] _ Hlen). cbn [app Csv.parse_chars].
      rewrite step_in_quoted_quote. reflexivity. }
    split.
    + pose proof (Hrun []) as Hend. rewrite app_nil_r in Hend. rewrite Hend.
      cbn [Csv.parse_chars]. apply step_eol. destruct dq; auto.
    + intros more. rewrite Hrun. cbn [Csv.parse_chars].
      rewrite step_closed_delimiter. reflexivity.
  - pose proof (needs_quote_false cell En) as Hchars.
    destruct cell as [|c s].
    + split.
      * cbn [Csv.parse_chars]. apply step_eol. auto.
      * intros more. cbn [app Csv.parse_chars].
        rewrite step_start_delimiter. reflexivity.
    + inversion Hchars as [|? ? [Hd [Hqc [Hcr Hlf]]] Hrest]; subst.
      assert (Hrun : forall tail,
                 Csv.parse_chars d (reading fs [] Csv.START_FIELD) ((c :: s) ++ tail)
                 = Csv.parse_chars d (reading fs (c :: s) Csv.IN_FIELD) tail).
      { intros tail. cbn [app Csv.parse_chars].
        rewrite (step_start_char fs [] c Hd Hqc Hlf Hcr Hs)
          by (cbn [app length] in *; lia).
        cbn [bind app].
        apply (in_field_run s) with (cur := [c]); [|exact Hlen].
        revert Hrest. apply Forall_impl. intros x. tauto. }
      split.
      * pose proof (Hrun []) as Hend. rewrite app_nil_r in Hend. rewrite Hend.
        cbn [Csv.parse_chars]. apply step_eol. auto.
      * intros more. rewrite Hrun. cbn [Csv.parse_chars].
        rewrite step_in_field_delimiter. reflexivity.
Qed.

Lemma cells_read (cells : list str) :
  cells <> [] ->
  Forall (fun cell => quotable_cell cell = true
                      /\ (dq = true \/ Py.contains DQUOTE cell = false)) cells ->
  forall fs,
    Csv.parse_chars d (reading fs [] Csv.START_FIELD)
                    (Py.join [D] (map (render_cell D) cells))
    = Ok (reading (fs ++ cells) [] Csv.START_RECORD).
Proof.
  intros Hne Hcells. induction Hcells as [|cell rest [Hc Hq] Hrest IH];
    [contradiction|]. intros fs.
  destruct rest as [|c2 rest].
  - cbn [map Py.join]. apply (cell_read cell fs Hc Hq).
  - cbn [map]. rewrite join_cons2. cbn [app].
    rewrite (proj2 (cell_read cell fs Hc Hq)).
    change (map (render_cell D) (c2 :: rest)) with
      (render_cell D c2 :: map (render_cell D) rest) in IH.
    rewrite IH by discriminate. rewrite <- app_assoc. reflexivity.
Qed.

Lemma start_record_line (line : str) :
  line <> [] -> Forall (fun c => Py.is_linebreak c = false) line ->
  forall fs cur,
    Csv.parse_chars d (reading fs cur Csv.START_RECORD) line
    = Csv.parse_chars d (reading fs cur Csv.START_FIELD) line.
Proof.
  intros Hne Hline fs cur. destruct line as [|c line]; [contradiction|].
  inversion Hline as [|? ? Hc _]; subst.
  destruct (linebreak_CR_LF c Hc) as [Hcr Hlf].
  cbn [Csv.parse_chars]. rewrite (step_start_record fs cur c Hlf Hcr). reflexivity.
Qed.

(** The characters of a written line are those of the cells, the
    delimiter and the quote character. *)
Lemma written_line_chars (P : ascii -> Prop) (row : list str) :
  P D -> P DQUOTE -> Forall (Forall P) row -> Forall P (written_line D row).
Proof.
  intros HD HQ Hrow.
  assert (H : Forall P (Py.join [D] (map (render_cell D) row))).
  { apply join_chars_all; [repeat constructor; exact HD|].
    apply Forall_forall. intros x Hin. apply in_map_iff in Hin as [cell [<- Hin]].
    rewrite Forall_forall in Hrow. specialize (Hrow cell Hin).
    unfold render_cell. destruct (needs_quote D cell); [|exact Hrow].
    constructor; [exact HQ|]. apply Forall_app. split; [|repeat constructor; exact HQ].
    unfold double_quotes. clear Hin. induction Hrow as [|c cell Hc Hcell IH];
      [constructor|]. cbn [flat_map].
    destruct (Ascii.eqb c DQUOTE); repeat constructor; assumption. }
  unfold written_line. destruct row as [|[|a c] [|c2 r]]; try exact H.
  repeat constructor; exact HQ.
Qed.

Lemma render_cell_ends (cell : str) :
  starts_with_ws cell = false -> ends_with_ws cell = false ->
  starts_with_ws (render_cell D cell) = false
  /\ ends_with_ws (render_cell D cell) = false.
Proof.
  intros Hs He. unfold render_cell. destruct (needs_quote D cell); [|tauto].
  split; [reflexivity|]. rewrite app_assoc.
  rewrite ends_with_ws_app by discriminate. reflexivity.
Qed.

Lemma join_ends (parts : list str) :
  Forall (fun p => starts_with_ws p = false /\ ends_with_ws p = false) parts ->
  starts_with_ws (Py.join [D] parts) = false
  /\ ends_with_ws (Py.join [D] parts) = false.
Proof.
  pose proof (candidate_not_space D D_candidate) as HD.
  induction 1 as [|p rest [Hs He] Hrest [IHs IHe]]; [split; reflexivity|].
  destruct rest as [|q rest]; [cbn [Py.join]; tauto|].
  rewrite join_cons2. split.
  - destruct p as [|a p]; [exact HD|exact Hs].
  - rewrite ends_with_ws_app by discriminate. cbn [app].
    destruct (Py.join [D] (q :: rest)) as [|b t] eqn:E.
    + unfold ends_with_ws. cbn. exact HD.
    + rewrite ends_with_ws_cons by discriminate. exact IHe.
Qed.

Lemma written_line_solid (row : list str) :
  quotable_row row = true -> solid (written_line D row).
Proof.
  unfold quotable_row. intros H. apply andb_prop in H as [Hne Hcells].
  assert (Hparts : Forall (fun p => starts_with_ws p = false
                                    /\ ends_with_ws p = false)
                          (map (render_cell D) row)).
  { apply Forall_forall. intros p Hin. apply in_map_iff in Hin as [cell [<- Hin]].
    rewrite forallb_forall in Hcells.
    destruct (quotable_cell_props cell (Hcells cell Hin)) as [_ [Hs [He _]]].
    apply render_cell_ends; assumption. }
  destruct (join_ends _ Hparts) as [Hs He].
  destruct row as [|cell rest]; [discriminate Hne|].
  destruct rest as [|c2 rest].
  - destruct cell as [|a cell].
    + repeat split; try reflexivity. discriminate.
    + unfold written_line. repeat split; try assumption.
      cbn [map Py.join]. intros E. apply render_cell_empty in E. discriminate E.
  - unfold written_line.
    assert (E : match cell :: c2 :: rest with
                | [[]] => [DQUOTE; DQUOTE]
                | _ => Py.join [D] (map (render_cell D) (cell :: c2 :: rest))
                end = Py.join [D] (map (render_cell D) (cell :: c2 :: rest)))
      by (destruct cell; reflexivity).
    rewrite E. repeat split; try assumption.
    cbn [map]. rewrite join_cons2. destruct (render_cell D cell); discriminate.
Qed.

Lemma written_line_read (row : list str) :
  quotable_row row = true ->
  (dq = true \/ Forall (fun cell => Py.contains DQUOTE cell = false) row) ->
  Csv.parse_chars d Csv.parse_reset (written_line D row)
  = Ok (reading row [] Csv.START_RECORD).
Proof.
  intros Hrow Hq. pose proof (written_line_solid row Hrow) as [Hne _].
  assert (Hnb : Forall (fun c => Py.is_linebreak c = false) (written_line D row)).
  { apply written_line_chars;
      [apply (candidate_not_linebreak D D_candidate)|reflexivity|].
    unfold quotable_row in Hrow. apply andb_prop in Hrow as [_ Hcells].
    apply Forall_forall. intros cell Hin. rewrite forallb_forall in Hcells.
    apply (quotable_cell_props cell (Hcells cell Hin)). }
  change Csv.parse_reset with (reading [] [] Csv.START_RECORD).
  rewrite (start_record_line _ Hne Hnb).
  unfold quotable_row in Hrow. apply andb_prop in Hrow as [Hnonempty Hcells].
  assert (Hall : Forall (fun cell => quotable_cell cell = true
                                     /\ (dq = true \/ Py.contains DQUOTE cell = false))
                        row).
  { apply Forall_forall. intros cell Hin. rewrite forallb_forall in Hcells.
    split; [exact (Hcells cell Hin)|].
    destruct Hq as [Hq|Hq]; [left; exact Hq|right].
    rewrite Forall_forall in Hq. exact (Hq cell Hin). }
  assert (Hjoin : Csv.parse_chars d (reading [] [] Csv.START_FIELD)
                                  (Py.join [D] (map (render_cell D) row))
                  = Ok (reading row [] Csv.START_RECORD)).
  { apply (cells_read row); [|exact Hall]. intros ->. discriminate Hnonempty. }
  unfold written_line. destruct row as [|[|a c] [|c2 r]]; try exact Hjoin.
  cbn [Csv.parse_chars]. rewrite step_start_quote. cbn [bind].
  rewrite step_in_quoted_quote. cbn [bind]. apply step_eol. destruct dq; auto.
Qed.

Lemma written_lines_read (rows : list (list str)) :
  Forall (fun row => quotable_row row = true
                     /\ (dq = true
                         \/ Forall (fun cell => Py.contains DQUOTE cell = false) row))
         rows ->
  Csv.read_rows d Csv.parse_reset (map (written_line D) rows) = Ok rows.
Proof.
  induction 1 as [|row rows [Hrow Hq] Hrows IH]; [reflexivity|].
  cbn [map Csv.read_rows]. rewrite (written_line_read row Hrow Hq).
  cbn [bind reading Csv.state Csv.state_eqb Csv.fields]. rewrite IH. reflexivity.
Qed.

End Quoted.

Lemma render_row_written_line (sep : ascii) (row : list str) :
  render_row sep row = written_line sep row ++ [CR; LF].
Proof.
  unfold render_row, written_line, spec_render_row.
  destruct row as [|[|a c] [|c2 r]]; reflexivity.
Qed.

(** X10.  The round trip with cells that need quotes.  Take rows with at
    least one cell each, the cells without a line boundary, without
    whitespace at either end and no longer than the field limit; they may
    hold the delimiter and the quote character.  Written by [write_rows]
    with the delimiter [D] (a comma, a semicolon or a pipe), decoded and
    given to [parse_text_to_rows], they come back unchanged, provided that
    the sample has no tab, that the sniffer returns [D] with the double quote
    as quote character, and that it reports doubled quotes or no cell holds
    a double quote.  The retained lines of the text are then the lines
    written, one for each row. *)
Theorem quoted_table_is_read_back
        (rows : list (list str)) (D : ascii) (bytes : list Byte.byte)
        (text : str) (sn : Csv.sniffed) :
  In D [COMMA; SEMICOLON; PIPE] ->
  forallb quotable_row rows = true ->
  write_rows rows [D] = Ok bytes ->
  utf8_decode bytes = Some text ->
  Py.contains TAB (sample_of (retained_lines text)) = false ->
  Csv.sniff (sample_of (retained_lines text)) (Py.join [] CANDIDATE_DELIMS) = Ok sn ->
  Csv.sn_delimiter sn = [D] ->
  Csv.sn_quotechar sn = [DQUOTE] ->
  (Csv.sn_doublequote sn = true
   \/ Forall (Forall (fun cell => Py.contains DQUOTE cell = false)) rows) ->
  retained_lines text = map (written_line D) rows
  /\ parse_text_to_rows text = Ok rows.
Proof.
  intros HD Hrows Hwrite Hdecode Htab Hsniff Hdelim Hquote Hdq.
  assert (Hrow : Forall (fun row => quotable_row row = true) rows).
  { apply Forall_forall. rewrite forallb_forall in Hrows. exact Hrows. }
  unfold write_rows in Hwrite. rewrite writer_dialect_one_char in Hwrite.
  cbn [bind] in Hwrite. rewrite write_text_renders in Hwrite.
  cbn [bind] in Hwrite. injection Hwrite as <-.
  rewrite utf8_decode_encode in Hdecode. injection Hdecode as <-.
  assert (Etext : concat (map (render_row D) rows)
                  = concat (map (fun l => l ++ [CR; LF]) (map (written_line D) rows))).
  { rewrite map_map. f_equal. apply map_ext. intros row.
    apply render_row_written_line. }
  rewrite Etext in *.
  assert (Elines : retained_lines
                     (concat (map (fun l => l ++ [CR; LF]) (map (written_line D) rows)))
                   = map (written_line D) rows).
  { apply retained_lines_terminated. apply Forall_forall. intros l Hin.
    apply in_map_iff in Hin as [row [<- Hin]]. rewrite Forall_forall in Hrow.
    split; [apply (written_line_solid D HD), Hrow, Hin|].
    apply written_line_chars;
      [apply (candidate_not_linebreak D HD)|reflexivity|].
    specialize (Hrow row Hin). unfold quotable_row in Hrow.
    apply andb_prop in Hrow as [_ Hcells].
    apply Forall_forall. intros cell Hc. rewrite forallb_forall in Hcells.
    apply (quotable_cell_props cell (Hcells cell Hc)). }
  split; [exact Elines|].
  unfold parse_text_to_rows. rewrite Elines in *.
  destruct rows as [|row0 rows']; [reflexivity|].
  set (rows := row0 :: rows') in *.
  change (negb (Csv.nonempty (map (written_line D) rows))) with false. cbv iota.
  rewrite Htab. unfold sniffed_rows. rewrite Hsniff. cbn [bind].
  unfold Csv.reader, Csv.dialect_of. rewrite Hdelim, Hquote.
  cbn [Csv.one_char bind].
  rewrite (written_lines_read D (Csv.sn_doublequote sn)
                              (Csv.sn_skipinitialspace sn) HD rows);
    [reflexivity|].
  apply Forall_forall. intros row Hin. rewrite Forall_forall in Hrow.
  split; [exact (Hrow row Hin)|].
  destruct Hdq as [Hdq|Hdq]; [left; exact Hdq|right].
  rewrite Forall_forall in Hdq. exact (Hdq row Hin).
Qed.

Lemma quoted_table_is_read_back_witness :
  forallb quotable_row quoted_rows = true
  /\ write_rows quoted_rows [COMMA] = Ok (utf8_encode quoted_text)
  /\ utf8_decode (utf8_encode quoted_text) = Some quoted_text
  /\ Py.contains TAB (sample_of (retained_lines quoted_text)) = false
  /\ Csv.sniff (sample_of (retained_lines quoted_text))
               (Py.join [] CANDIDATE_DELIMS) = Ok quoted_dialect
  /\ parse_text_to_rows quoted_text = Ok quoted_rows.
Proof.
  repeat (split; [vm_compute; reflexivity|]).
  exact (proj2 (quoted_table_is_read_back
                  quoted_rows COMMA (utf8_encode quoted_text)
                  quoted_text quoted_dialect
                  (or_introl eq_refl) eq_refl eq_refl eq_refl eq_refl eq_refl
                  eq_refl eq_refl (or_introl eq_refl))).
Defined.

(** ** [main] *)

Lemma parse_text_to_rows_total (text : str) :
  exists rows, parse_text_to_rows text = Ok rows.
Proof.
  unfold parse_text_to_rows.
  destruct (negb _); [eauto|]. destruct (Py.contains _ _); [eauto|].
  destruct (sniffed_rows _ _); simpl; eauto.
Qed.



Lemma write_rows_in_returns (w : World) (rows : list (list str))
      (out_path sep : Argparse.value) (written : list event) :
  write_rows_in w rows out_path sep = (written, true) ->
  exists p, out_path = Argparse.Value p.
Proof.
  destruct out_path as [p|l]; [eauto|]. cbn. intros H. discriminate H.
Qed.




(** X21.  When the value of [--sep] is not one character (and [--tsv] is
    not given), [main] still makes the directories and opens the output
    file, which empties it; the writer then refuses the separator, the file
    is closed with nothing in it, [main] prints the error and returns 4. *)
Theorem bad_separator_leaves_an_empty_file
        (w : World) (argv : list str) (args : Namespace) (i o text : str) :
  Argparse.parse_args _build_parser argv = Argparse.Parsed args ->
  inp args = Argparse.Value i -> read_text w i = Text text ->
  out args = Argparse.Value o -> mkdir w o = true -> open_w w o = true ->
  tsv args = false ->
  (forall c, sep args <> Argparse.Value [c]) ->
  main w argv
  = {| effects := [made_parents o; opened o; closed o [];
                   stderr Error_writing_output];
       ending := Returned 4 |}.
Proof.
  intros Hp Hi Hr Ho Hm Hw Ht Hsep.
  destruct (parse_text_to_rows_total text) as [rows Hrows].
  unfold main. rewrite Hp, Hi. cbn [read_input]. rewrite Hr, Hrows, Ho, Ht.
  unfold write_rows_in. rewrite Hm, Hw. cbn [negb].
  destruct (sep args) as [s|l] eqn:Es.
  - destruct s as [|c [|c2 s]]; [reflexivity| |reflexivity].
    exfalso. exact (Hsep c eq_refl).
  - reflexivity.
Qed.

Lemma bad_separator_leaves_an_empty_file_witness :
  Argparse.parse_args _build_parser [lit "--sep"; lit "ab"]
  = Argparse.Parsed {| inp := Argparse.Value (lit "input.txt");
                       out := Argparse.Value (lit "output.csv");
                       sep := Argparse.Value (lit "ab");
                       tsv := false; quiet := false |}
  /\ main example_world [lit "--sep"; lit "ab"]
     = {| effects := [made_parents (lit "output.csv"); opened (lit "output.csv");
                      closed (lit "output.csv") [];
                      stderr Error_writing_output];
          ending := Returned 4 |}.
Proof.
  split; [reflexivity|].
  refine (bad_separator_leaves_an_empty_file
            example_world [lit "--sep"; lit "ab"]
            {| inp := Argparse.Value (lit "input.txt");
               out := Argparse.Value (lit "output.csv");
               sep := Argparse.Value (lit "ab");
               tsv := false; quiet := false |}
            (lit "input.txt") (lit "output.csv") csv_example
            eq_refl eq_refl eq_refl eq_refl eq_refl eq_refl eq_refl _).
  intros c H. discriminate H.
Defined.

(** X18.  [main] returns 2 exactly when the arguments are accepted and
    the input file is not found, and 3 exactly when they are accepted and
    reading the input raises another exception.  In both cases all it does
    is print one message to the standard error: no directory is made and no
    file is opened for writing. *)
Theorem unreadable_input_leaves_the_output_alone (w : World) (argv : list str) :
  (ending (main w argv) = Returned 2
   <-> exists args,
         Argparse.parse_args _build_parser argv = Argparse.Parsed args
         /\ read_input w (inp args) = FileNotFoundError)
  /\ (ending (main w argv) = Returned 3
      <-> exists args,
            Argparse.parse_args _build_parser argv = Argparse.Parsed args
            /\ read_input w (inp args) = OtherException)
  /\ (forall args,
        Argparse.parse_args _build_parser argv = Argparse.Parsed args ->
        (forall text, read_input w (inp args) <> Text text) ->
        exists m, effects (main w argv) = [stderr m]).
Proof.
  assert (Hend : forall args text,
             Argparse.parse_args _build_parser argv = Argparse.Parsed args ->
             read_input w (inp args) = Text text ->
             ending (main w argv) = Returned 0 \/ ending (main w argv) = Returned 4).
  { intros args text Hp Hr. unfold main. rewrite Hp, Hr.
    destruct (parse_text_to_rows_total text) as [rows ->].
    destruct (write_rows_in w rows (out args) _) as [written [|]] eqn:E;
      [|right; reflexivity].
    cbn [negb]. destruct (quiet args); [left; reflexivity|].
    destruct (write_rows_in_returns _ _ _ _ _ E) as [p ->]. left. reflexivity. }
  split; [|split].
  - split.
    + intros H. destruct (Argparse.parse_args _build_parser argv) as [args| |e] eqn:Hp;
        [|unfold main in H; rewrite Hp in H; discriminate H
         |unfold main in H; rewrite Hp in H; discriminate H].
      exists args. split; [reflexivity|].
      destruct (read_input w (inp args)) as [| |text] eqn:Hr; [reflexivity| |].
      * unfold main in H. rewrite Hp, Hr in H. discriminate H.
      * destruct (Hend args text eq_refl Hr) as [E|E]; rewrite E in H; discriminate H.
    + intros [args [Hp Hr]]. unfold main. rewrite Hp, Hr. reflexivity.
  - split.
    + intros H. destruct (Argparse.parse_args _build_parser argv) as [args| |e] eqn:Hp;
        [|unfold main in H; rewrite Hp in H; discriminate H
         |unfold main in H; rewrite Hp in H; discriminate H].
      exists args. split; [reflexivity|].
      destruct (read_input w (inp args)) as [| |text] eqn:Hr; [|reflexivity|].
      * unfold main in H. rewrite Hp, Hr in H. discriminate H.
      * destruct (Hend args text eq_refl Hr) as [E|E]; rewrite E in H; discriminate H.
    + intros [args [Hp Hr]]. unfold main. rewrite Hp, Hr. reflexivity.
  - intros args Hp Hno. unfold main. rewrite Hp.
    destruct (read_input w (inp args)) as [| |text] eqn:Hr; cbn; eauto.
    exfalso. exact (Hno text eq_refl).
Qed.



(** ** [parse_args] *)

Lemma plain_not_dashes (v : str) :
  plain v = true -> Csv.str_eqb v (lit "--") = false.
Proof.
  destruct v as [|c v]; [reflexivity|]. cbn. intros H.
  apply negb_true_iff in H. rewrite H. reflexivity.
Qed.

Lemma plain_positional (self : Argparse.ArgumentParser Namespace) (v : str) :
  plain v = true -> Argparse._parse_optional self v = Argparse.Positional.
Proof.
  destruct v as [|c v]; [reflexivity|]. cbn [plain Argparse._parse_optional].
  intros ->. reflexivity.
Qed.

Lemma pattern_words (g : given) (rest : list str) :
  well_formed g = true ->
  Argparse.arg_strings_pattern _build_parser (words g ++ rest)
  = match Argparse.arg_strings_pattern _build_parser rest with
    | inl e => inl e
    | inr ps => inr (pattern_of g ++ ps)
    end.
Proof.
  destruct g as [o v|o v|f]; intros Hg.
  - cbn [well_formed] in Hg. cbn [words app pattern_of].
    assert (E : forall tl,
               Argparse.arg_strings_pattern _build_parser (option_string o :: tl)
               = match Argparse.arg_strings_pattern _build_parser tl with
                 | inl e => inl e
                 | inr ps =>
                     inr ((option_string o,
                           Argparse.O (Some (Argparse.store (setattr o)),
                                       option_string o, None)) :: ps)
                 end).
    { intros tl. destruct o; reflexivity. }
    rewrite E. cbn [Argparse.arg_strings_pattern].
    rewrite (plain_not_dashes v Hg), (plain_positional _ v Hg).
    destruct (Argparse.arg_strings_pattern _build_parser rest); reflexivity.
  - cbn [words app pattern_of]. destruct o; reflexivity.
  - cbn [words app pattern_of]. destruct f; reflexivity.
Qed.

Lemma explicit_loop_store (self : Argparse.ArgumentParser Namespace)
      (f : Argparse.value -> Namespace -> Namespace) (os e : str)
      (tuples : list (Argparse.Action Namespace * list str)) :
  Argparse.explicit_loop self (Argparse.store f) os e tuples
  = Argparse.Taken (tuples ++ [(Argparse.store f, [e])]).
Proof. destruct e; reflexivity. Qed.

Lemma consume_given (g : given) (ps : list (str * Argparse.pattern))
      (ns : Namespace) (extras : list str) :
  Argparse.consume _build_parser (pattern_of g ++ ps) ns extras
  = Argparse.consume _build_parser ps (assign ns g) extras.
Proof.
  destruct g as [o v|o v|f].
  - destruct o; reflexivity.
  - cbn [pattern_of app Argparse.consume]. rewrite explicit_loop_store.
    destruct o; reflexivity.
  - destruct f; reflexivity.
Qed.

Lemma pattern_given (gs : list given) (tail : list str) :
  forallb well_formed gs = true ->
  Argparse.arg_strings_pattern _build_parser (flat_map words gs ++ tail)
  = match Argparse.arg_strings_pattern _build_parser tail with
    | inl e => inl e
    | inr ps => inr (flat_map pattern_of gs ++ ps)
    end.
Proof.
  induction gs as [|g gs IH]; intros Hgs.
  - cbn [flat_map app].
    destruct (Argparse.arg_strings_pattern _build_parser tail); reflexivity.
  - cbn [forallb] in Hgs. apply andb_prop in Hgs as [Hg Hgs].
    cbn [flat_map]. rewrite <- app_assoc, (pattern_words g _ Hg), (IH Hgs).
    destruct (Argparse.arg_strings_pattern _build_parser tail);
      [reflexivity|]. rewrite <- app_assoc. reflexivity.
Qed.

Lemma consume_givens (gs : list given) (ps : list (str * Argparse.pattern)) :
  forall (ns : Namespace) (extras : list str),
    Argparse.consume _build_parser (flat_map pattern_of gs ++ ps) ns extras
    = Argparse.consume _build_parser ps (fold_left assign gs ns) extras.
Proof.
  induction gs as [|g gs IH]; intros ns extras; [reflexivity|].
  cbn [flat_map fold_left]. rewrite <- app_assoc, consume_given. apply IH.
Qed.

(** X14.  A command line made of the options of the program ([--in],
    [--out] and [--sep] with a value, in the next word when it does not start
    with [-] or after [=] in the same word; the flags [--tsv] and [--quiet]),
    in any order and any number of times, is accepted.  The namespace is
    that of the defaults with the options applied from left to right: an
    option given twice has the value given last, and an option not given
    keeps its default. *)
Theorem options_override_defaults_in_order (gs : list given) :
  forallb well_formed gs = true ->
  Argparse.parse_args _build_parser (flat_map words gs)
  = Argparse.Parsed (fold_left assign gs (Argparse.defaults _build_parser)).
Proof.
  intros Hgs. unfold Argparse.parse_args.
  rewrite <- (app_nil_r (flat_map words gs)), (pattern_given gs [] Hgs).
  cbn [Argparse.arg_strings_pattern]. rewrite consume_givens. reflexivity.
Qed.

Lemma options_override_defaults_in_order_witness :
  forallb well_formed given_example = true
  /\ Argparse.parse_args
       _build_parser
       [lit "--in"; lit "a.txt"; lit "--sep=;"; lit "--quiet"; lit "--in"; lit "b.txt"]
     = Argparse.Parsed
         {| inp := Argparse.Value (lit "b.txt");
            out := Argparse.Value (lit "output.csv");
            sep := Argparse.Value (lit ";");
            tsv := false; quiet := true |}.
Proof.
  split; [reflexivity|].
  exact (options_override_defaults_in_order given_example eq_refl).
Defined.

(** Once a word was left over, the command line is refused (or the help
    is printed). *)
Lemma consume_extras (self : Argparse.ArgumentParser Namespace) (n : nat) :
  forall (ps : list (str * Argparse.pattern)) (ns ns' : Namespace)
         (extras : list str),
    length ps <= n -> extras <> [] ->
    Argparse.consume self ps ns extras <> Argparse.Parsed ns'.
Proof.
  induction n as [|n IH]; intros ps ns ns' extras Hlen Hex.
  - destruct ps; [|simpl in Hlen; lia]. cbn.
    destruct extras; [contradiction|discriminate].
  - destruct ps as [|[arg_string pat] rest].
    { cbn. destruct extras; [contradiction|discriminate]. }
    simpl in Hlen. apply le_S_n in Hlen.
    assert (Hsnoc : extras ++ [arg_string] <> [])
      by (intros E; apply app_eq_nil in E as [_ E]; discriminate E).
    destruct pat as [[[[action|] option_string] explicit_arg]| |];
      cbn [Argparse.consume]; try (apply IH; assumption).
    destruct (match explicit_arg with
              | Some e => Argparse.explicit_loop self action option_string e []
              | None => Argparse.Following [] action
              end) as [tuples|tuples action'|e]; [| |discriminate].
    + destruct (Argparse.take_actions tuples ns); [|discriminate].
      apply IH; assumption.
    + destruct (Argparse.nargs action').
      * destruct (Argparse.take_actions _ ns); [|discriminate].
        apply IH; assumption.
      * destruct rest as [|[s [t| |]] rest'']; try discriminate.
        destruct (Argparse.take_actions _ ns); [|discriminate].
        apply IH; [simpl in Hlen; lia|assumption].
Qed.

(** X16.  The program takes no positional argument: after options as in
    X14, a word that does not start with [-] and is not the value of an
    option makes [parse_args] fail, whatever follows it.  [main] then prints
    one message and ends with [SystemExit]; it reads and writes no file. *)
Theorem stray_word_is_refused
        (w : World) (gs : list given) (a : str) (rest : list str) :
  forallb well_formed gs = true -> plain a = true ->
  (forall ns, Argparse.parse_args _build_parser (flat_map words gs ++ a :: rest)
              <> Argparse.Parsed ns)
  /\ exists m code,
       main w (flat_map words gs ++ a :: rest)
       = {| effects := [m]; ending := SystemExit code |}.
Proof.
  intros Hgs Ha.
  assert (Hno : forall ns,
             Argparse.parse_args _build_parser (flat_map words gs ++ a :: rest)
             <> Argparse.Parsed ns).
  { intros ns. unfold Argparse.parse_args. rewrite (pattern_given gs _ Hgs).
    cbn [Argparse.arg_strings_pattern].
    rewrite (plain_not_dashes a Ha), (plain_positional _ a Ha).
    destruct (Argparse.arg_strings_pattern _build_parser rest) as [e|ps];
      [discriminate|].
    rewrite consume_givens. cbn [Argparse.consume].
    apply (consume_extras _ (length ps)); [apply le_n|discriminate]. }
  split; [exact Hno|]. unfold main.
  destruct (Argparse.parse_args _build_parser (flat_map words gs ++ a :: rest))
    as [ns| |e]; [exfalso; exact (Hno ns eq_refl)| |]; eauto.
Qed.

Lemma stray_word_is_refused_witness :
  plain (lit "notes.txt") = true
  /\ (forall ns, Argparse.parse_args _build_parser [lit "--tsv"; lit "notes.txt"]
                 <> Argparse.Parsed ns)
  /\ exists m code,
       main example_world [lit "--tsv"; lit "notes.txt"]
       = {| effects := [m]; ending := SystemExit code |}.
Proof.
  split; [reflexivity|].
  exact (stray_word_is_refused example_world [flag opt_tsv] (lit "notes.txt") []
           eq_refl eq_refl).
Defined.

(** ** Abbreviations *)

Lemma abbreviation_classified (os : str) (k : nat) :
  In os long_options -> 3 <= k <= length os ->
  Argparse._parse_optional _build_parser (firstn k os)
  = Argparse._parse_optional _build_parser os
  /\ Csv.str_eqb (firstn k os) (lit "--") = false
  /\ Csv.str_eqb os (lit "--") = false
  /\ exists action,
       Argparse._parse_optional _build_parser os
       = Argparse.Optional (Some action, os, None).
Proof.
  intros Hos Hk.
  destruct Hos as [<-|[<-|[<-|[<-|[<-|[<-|[]]]]]]];
    cbn [length lit list_ascii_of_string] in Hk;
    do 3 (destruct k as [|k]; [lia|]);
    do 5 (destruct k as [|k];
          [first [lia
                 |split; [vm_compute; reflexivity|];
                  split; [reflexivity|]; split; [reflexivity|];
                  eexists; vm_compute; reflexivity]|]);
    lia.
Qed.

(** X15.  A long option may be cut down to three characters or more:
    after options as in X14, the first [k >= 3] characters of [--help],
    [--in], [--out], [--sep], [--tsv] or [--quiet] are parsed as the option
    itself, whatever follows. *)
Theorem abbreviation_is_the_option
        (gs : list given) (os : str) (k : nat) (rest : list str) :
  forallb well_formed gs = true ->
  In os long_options -> 3 <= k <= length os ->
  Argparse.parse_args _build_parser (flat_map words gs ++ firstn k os :: rest)
  = Argparse.parse_args _build_parser (flat_map words gs ++ os :: rest).
Proof.
  intros Hgs Hos Hk. unfold Argparse.parse_args.
  rewrite !(pattern_given gs _ Hgs).
  destruct (abbreviation_classified os k Hos Hk) as [E1 [E2 [E3 [action E4]]]].
  cbn [Argparse.arg_strings_pattern]. rewrite E1, E2, E3, E4.
  destruct (Argparse.arg_strings_pattern _build_parser rest) as [err|ps];
    [reflexivity|].
  rewrite !consume_givens. reflexivity.
Qed.

Lemma abbreviation_is_the_option_witness :
  In (lit "--sep") long_options /\ 3 <= 4 <= length (lit "--sep")
  /\ Argparse.parse_args _build_parser [lit "--quiet"; lit "--se"; lit ";"]
     = Argparse.parse_args _build_parser [lit "--quiet"; lit "--sep"; lit ";"].
Proof.
  assert (Hin : In (lit "--sep") long_options) by (cbn; tauto).
  assert (Hk : 3 <= 4 <= length (lit "--sep")) by (cbn; lia).
  split; [exact Hin|]. split; [exact Hk|].
  exact (abbreviation_is_the_option [flag opt_quiet] (lit "--sep") 4 [lit ";"]
           eq_refl Hin Hk).
Defined.
